(** * Shape detector: the [detectShapes] pipeline of [src/main.ts]

    A shallow embedding of [ShapeDetector.detectShapes] (grayscale, Otsu
    threshold, binarisation, stack-based flood fill, perimeter, corner
    estimation and rule-based classification) together with the properties
    of the pipeline that the specification states.

    Modelling conventions.
    - A JavaScript number that the program only ever uses as an integer
      (coordinates, indices, counts, histogram bins, [width * height]) is a
      [Z]; such values are exact in binary64 below 2^53.  So are the sums
      [sum] and [sumB] of the Otsu stage, which stay below
      [255 * width * height]: the model takes them to be exact, as they
      are for every image of fewer than 2^53 / 255 (some 3.5 * 10^13)
      pixels.
    - Every other number is an IEEE-754 binary64 value, modelled by
      [spec_float] with precision 53 and maximal exponent 1024, so that the
      arithmetic of the program is the arithmetic of the model, rounding
      included.
    - Typed arrays ([Uint8ClampedArray], [Uint8Array]) and the histogram are
      lists of [Z] of fixed length: a read out of range is [None]
      ([undefined]), a write out of range is dropped.
    - [Math.hypot] and [Math.acos] are implementation-approximated library
      functions; they are parameters of the development.
    - [performance.now()] reads a clock of the environment, which is threaded
      through [detectShapes] as explicit state.
    - [x ** 2] is taken to be the rounded product [x * x].
    - The [while] loop of the flood fill runs on a budget of rounds; a run
      that used it up would end as [OutOfFuel], and it is proved that none
      does.
    - The allocation of a typed array throws [RangeError] for a negative
      length and for a length above 2^53 - 1, the largest that ECMAScript
      allows; an engine that runs out of memory below that bound throws
      earlier, which is not modelled.  [width] and [height] are taken to
      be integers. *)

From Stdlib Require Import ZArith List Lia Bool.
From Stdlib Require Import Floats.SpecFloat.
Import ListNotations.
Open Scope Z_scope.

(** ** Binary64 numbers *)

Module F64.

Definition f64 := spec_float.

Definition prec : Z := 53.

Definition emax : Z := 1024.

Definition fadd : f64 -> f64 -> f64 := SFadd prec emax.

Definition fsub : f64 -> f64 -> f64 := SFsub prec emax.

Definition fmul : f64 -> f64 -> f64 := SFmul prec emax.

Definition fdiv : f64 -> f64 -> f64 := SFdiv prec emax.

Definition fltb : f64 -> f64 -> bool := SFltb.

Definition fleb : f64 -> f64 -> bool := SFleb.

Definition feqb : f64 -> f64 -> bool := SFeqb.

(** The binary64 value of an integer-valued number. *)
Definition num (z : Z) : f64 := binary_normalize prec emax z 0 false.

(** The binary64 value of the decimal literal [n / d]: the correctly
    rounded quotient of two exactly representable integers. *)
Definition lit (n d : Z) : f64 := fdiv (num n) (num d).

Definition is_nan (x : f64) : bool :=
  match x with S754_nan => true | _ => false end.

(** [x ** 2], taken to be the rounded product [x * x]. *)
Definition fsquare (x : f64) : f64 := fmul x x.

(** [Math.max] and [Math.min] on two arguments: a NaN argument gives NaN,
    and [+0] is larger than [-0]. *)
Definition fmax (a b : f64) : f64 :=
  if is_nan a || is_nan b then S754_nan
  else if fltb a b then b
  else if fltb b a then a
  else match a with S754_zero true => b | _ => a end.

Definition fmin (a b : f64) : f64 :=
  if is_nan a || is_nan b then S754_nan
  else if fltb a b then a
  else if fltb b a then b
  else match b with S754_zero true => b | _ => a end.

(** [Math.PI], the double 0x400921FB54442D18. *)
Definition PI : f64 := S754_finite false 7074237752028440 (-51).

(** The conversion applied by a store into a [Uint8ClampedArray]
    (ECMAScript [ToUint8Clamp]): NaN becomes 0, the value is clamped to
    [0, 255] and rounded to the nearest integer, a tie going to the even
    neighbour. *)
Definition toUint8Clamp (x : f64) : Z :=
  match x with
  | S754_nan => 0
  | S754_zero _ => 0
  | S754_infinity s => if s then 0 else 255
  | S754_finite true _ _ => 0
  | S754_finite false m e =>
      if 0 <=? e then Z.min 255 (Z.shiftl (Zpos m) e)
      else
        let d := Z.shiftl 1 (- e) in
        let q := Zpos m / d in
        let r := Zpos m mod d in
        Z.min 255
          match 2 * r ?= d with
          | Lt => q
          | Gt => q + 1
          | Eq => if Z.even q then q else q + 1
          end
  end.

End F64.
Import F64.

(** ** Arrays *)

Fixpoint upd (n : nat) (v : Z) (a : list Z) : list Z :=
  match a, n with
  | [], _ => []
  | _ :: t, O => v :: t
  | h :: t, S k => h :: upd k v t
  end.

(** [a[i]]: [None] stands for [undefined]. *)
Definition aget (a : list Z) (i : Z) : option Z :=
  if i <? 0 then None else nth_error a (Z.to_nat i).

(** [a[i] = v] on an array of fixed length. *)
Definition aset (a : list Z) (i : Z) (v : Z) : list Z :=
  if i <? 0 then a else upd (Z.to_nat i) v a.

(** A value read from an array, used as a number: [undefined] is NaN. *)
Definition jsnum (o : option Z) : f64 :=
  match o with Some z => num z | None => S754_nan end.

(** ** The data model of [main.ts] *)

Inductive ShapeType := circle | triangle | rectangle | pentagon | star.

Record Point := { pt_x : f64; pt_y : f64 }.

Record BoundingBox := { bb_x : Z; bb_y : Z; bb_width : Z; bb_height : Z }.

Record DetectedShape := {
    type : ShapeType;
    confidence : f64;
    boundingBox : BoundingBox;
    center : Point;
    area : Z
  }.

Record DetectionResult := {
    shapes : list DetectedShape;
    processingTime : f64;
    imageWidth : Z;
    imageHeight : Z
  }.

(** [ImageData]: [data] is a [Uint8ClampedArray], its elements are bytes. *)
Record ImageData := { width : Z; height : Z; data : list Z }.

Definition bytes (l : list Z) : Prop := Forall (fun v => 0 <= v <= 255) l.

(** The clock behind [performance.now()]: the readings it will give, and
    how many have been taken. *)
Record World := { ticks : nat -> f64; taken : nat }.

Definition performance_now (w : World) : f64 * World :=
  (ticks w (taken w), {| ticks := ticks w; taken := S (taken w) |}).

Inductive JsError := RangeError.

(** The largest length of a typed array, [2 ** 53 - 1]. *)
Definition maxLength : Z := 2 ^ 53 - 1.

(** [new Uint8ClampedArray(n)] converts [n] with [ToIndex], which throws
    [RangeError] for a negative length and for one above [maxLength]. *)
Definition badLength (n : Z) : bool := (n <? 0) || (maxLength <? n).

(** How a call ends: with a value, with an exception, or, for the model
    only, with the budget of a loop used up. *)
Inductive Outcome (A : Type) :=
  | Returned (a : A)
  | Threw (e : JsError)
  | OutOfFuel.

Arguments Returned {A} a.
Arguments Threw {A} e.
Arguments OutOfFuel {A}.

(** ** Step 1: grayscale *)

Definition luminance (r g b : f64) : f64 :=
  fadd (fadd (fmul (lit 299 1000) r) (fmul (lit 587 1000) g))
       (fmul (lit 114 1000) b).

(** The byte stored for a pixel whose three colour bytes are all there. *)
Definition grayOf (r g b : Z) : Z :=
  toUint8Clamp (luminance (num r) (num g) (num b)).

(** [for (let i = 0; i < data.length; i += 4) gray[i / 4] = ...], with
    [k = i / 4] and [d] the part of [data] from index [i] on.  In the last
    round [data[i + 1]] and [data[i + 2]] may be missing. *)
Fixpoint grayLoop (d : list Z) (k : Z) (gray : list Z) : list Z :=
  match d with
  | [] => gray
  | r :: g :: b :: _ :: rest => grayLoop rest (k + 1) (aset gray k (grayOf r g b))
  | r :: d' =>
      aset gray k
        (toUint8Clamp
           (luminance (num r) (jsnum (nth_error d' 0)) (jsnum (nth_error d' 1))))
  end.

Definition grayscale (img : ImageData) : list Z :=
  grayLoop (data img) 0 (repeat 0 (Z.to_nat (width img * height img))).

(** ** Step 2: Otsu threshold *)

Definition bin (hist : list Z) (i : Z) : Z :=
  match aget hist i with Some c => c | None => 0 end.

(** [for (const g of gray) hist[g]++]. *)
Definition histogram (gray : list Z) : list Z :=
  fold_left (fun hist g => aset hist g (bin hist g + 1)) gray (repeat 0 256%nat).

(** [for (let i = 0; i < 256; i++) sum += i * hist[i]], [n] rounds left. *)
Fixpoint sumLoop (n : nat) (i : Z) (hist : list Z) (sum : Z) : Z :=
  match n with
  | O => sum
  | S n' => sumLoop n' (i + 1) hist (sum + i * bin hist i)
  end.

Definition between (wB wF sumB sum : Z) : f64 :=
  let mB := fdiv (num sumB) (num wB) in
  let mF := fdiv (num (sum - sumB)) (num wF) in
  fmul (fmul (num wB) (num wF)) (fsquare (fsub mB mF)).

Record OtsuState := { sumB : Z; wB : Z; maxVar : f64; thresh : Z }.

(** The scan of the histogram, [n] rounds left, at bin [i]. *)
Fixpoint otsuLoop (n : nat) (i : Z) (hist : list Z) (total sum : Z)
    (st : OtsuState) : Z :=
  match n with
  | O => thresh st
  | S n' =>
      let wB' := wB st + bin hist i in
      if wB' =? 0 then
        otsuLoop n' (i + 1) hist total sum
          {| sumB := sumB st; wB := wB'; maxVar := maxVar st; thresh := thresh st |}
      else
        let wF := total - wB' in
        if wF =? 0 then thresh st
        else
          let sumB' := sumB st + i * bin hist i in
          let b := between wB' wF sumB' sum in
          if fltb (maxVar st) b then
            otsuLoop n' (i + 1) hist total sum
              {| sumB := sumB'; wB := wB'; maxVar := b; thresh := i |}
          else
            otsuLoop n' (i + 1) hist total sum
              {| sumB := sumB'; wB := wB'; maxVar := maxVar st; thresh := thresh st |}
  end.

Definition otsuInit : OtsuState :=
  {| sumB := 0; wB := 0; maxVar := num 0; thresh := 127 |}.

Definition otsu (hist : list Z) (total : Z) : Z :=
  otsuLoop 256 0 hist total (sumLoop 256 0 hist 0) otsuInit.

(** ** Step 3: binarisation *)

Definition binarize (gray : list Z) (t : Z) : list Z :=
  map (fun g => if g <? t then 255 else 0) gray.

(** ** Step 4: flood fill, measurement and classification *)

(** [if (v)] on an array element: [undefined] and [0] are false. *)
Definition truthy (o : option Z) : bool :=
  match o with Some v => negb (v =? 0) | None => false end.

(** [o === c]. *)
Definition same (o : option Z) (c : Z) : bool :=
  match o with Some v => v =? c | None => false end.

(** The rule-based classifier at the end of [floodFill]. *)
Definition classify (corners : Z) (circularity fillRatio : f64) : ShapeType :=
  if corners <=? 3 then triangle
  else if corners <=? 5 then
    if fltb (lit 70 100) circularity then rectangle else pentagon
  else if 7 <? corners then
    if fltb fillRatio (lit 55 100) && fltb circularity (lit 6 10) then star
    else circle
  else circle.

(** The state of the [while (stack.length)] loop.  The top of [stack] is
    the head of the list; [pixels] is kept newest first. *)
Record FillState := {
    stack : list (Z * Z);
    visited : list Z;
    pixels : list (Z * Z);
    minX : Z; maxX : Z; minY : Z; maxY : Z
  }.

(** The local variables of [floodFill] where it returns a shape. *)
Record Region := {
    r_pixels : list (Z * Z);
    r_minX : Z; r_maxX : Z; r_minY : Z; r_maxY : Z;
    r_area : Z;
    r_w : Z; r_h : Z;
    r_cx : f64; r_cy : f64;
    r_edges : list (Z * Z);
    r_perimeter : Z;
    r_corners : Z;
    r_circularity : f64;
    r_fillRatio : f64;
    r_type : ShapeType
  }.

(** The object literal that [floodFill] returns. *)
Definition toShape (r : Region) : DetectedShape :=
  {| type := r_type r;
     confidence := lit 9 10;
     boundingBox := {| bb_x := r_minX r; bb_y := r_minY r;
                       bb_width := r_w r; bb_height := r_h r |};
     center := {| pt_x := r_cx r; pt_y := r_cy r |};
     area := r_area r |}.

(** The state of the row-major scan: the shared [visited] array and the
    regions accepted so far, in the order of [shapes.push]. *)
Record ScanState := { sc_visited : list Z; sc_found : list Region }.

(** [const shape = floodFill(x, y); if (shape) shapes.push(shape)], with the
    [visited] array as the flood fill left it. *)
Definition afterFill (s : ScanState) (vis' : list Z) (shape : option Region)
  : ScanState :=
  {| sc_visited := vis';
     sc_found := match shape with
                 | Some r => sc_found s ++ [r]
                 | None => sc_found s
                 end |}.

Section Detector.

Variable hypot : f64 -> f64 -> f64.
Variable acos : f64 -> f64.

Section Closure.

(** What the closures [getIndex] and [floodFill] capture. *)
Variables (W H : Z) (binary : list Z).

Definition getIndex (x y : Z) : Z := y * W + x.

Definition outside (x y : Z) : bool :=
  (x <? 0) || (y <? 0) || (x >=? W) || (y >=? H).

(** One round of the loop, [p] popped from the stack, [rest] below it. *)
Definition fillStep (p : Z * Z) (rest : list (Z * Z)) (st : FillState)
  : FillState :=
  let '(x, y) := p in
  let skip :=
    {| stack := rest; visited := visited st; pixels := pixels st;
       minX := minX st; maxX := maxX st; minY := minY st; maxY := maxY st |} in
  if outside x y then skip
  else
    let idx := getIndex x y in
    if truthy (aget (visited st) idx) || same (aget binary idx) 0 then skip
    else
      {| stack := (x, y - 1) :: (x, y + 1) :: (x - 1, y) :: (x + 1, y) :: rest;
         visited := aset (visited st) idx 1;
         pixels := (x, y) :: pixels st;
         minX := if x <? minX st then x else minX st;
         maxX := if maxX st <? x then x else maxX st;
         minY := if y <? minY st then y else minY st;
         maxY := if maxY st <? y then y else maxY st |}.

Fixpoint fillLoop (fuel : nat) (st : FillState) : option FillState :=
  match stack st with
  | [] => Some st
  | p :: rest =>
      match fuel with
      | O => None
      | S fuel' => fillLoop fuel' (fillStep p rest st)
      end
  end.

(** The [border] flag of a region pixel. *)
Definition isBorder (p : Z * Z) : bool :=
  let '(x, y) := p in
  existsb
    (fun n : Z * Z =>
       let '(nx, ny) := n in
       outside nx ny || same (aget binary (getIndex nx ny)) 0)
    [(x + 1, y); (x - 1, y); (x, y + 1); (x, y - 1)].

Definition edgeAt (edges : list (Z * Z)) (i : Z) : Z * Z :=
  nth (Z.to_nat i) edges (0, 0).

(** [for (let i = 0; i < edges.length; i += sampleStep)]. *)
Fixpoint cornerLoop (fuel : nat) (i : Z) (edges : list (Z * Z))
  (sampleStep : Z) (corners : Z) : Z :=
  match fuel with
  | O => corners
  | S fuel' =>
      let n := Z.of_nat (length edges) in
      if i <? n then
        let '(x1, y1) := edgeAt edges i in
        let '(x2, y2) := edgeAt edges ((i + sampleStep) mod n) in
        let '(x3, y3) := edgeAt edges ((i + 2 * sampleStep) mod n) in
        let v1x := x2 - x1 in let v1y := y2 - y1 in
        let v2x := x3 - x2 in let v2y := y3 - y2 in
        let dot := fadd (fmul (num v1x) (num v2x)) (fmul (num v1y) (num v2y)) in
        let mag1 := hypot (num v1x) (num v1y) in
        let mag2 := hypot (num v2x) (num v2y) in
        if feqb (fmul mag1 mag2) (num 0) then
          cornerLoop fuel' (i + sampleStep) edges sampleStep corners
        else
          let cos := fdiv dot (fmul mag1 mag2) in
          let angle := acos (fmin (num 1) (fmax (num (-1)) cos)) in
          cornerLoop fuel' (i + sampleStep) edges sampleStep
            (if fltb (lit 4 10) angle && fltb angle (lit 13 10)
             then corners + 1 else corners)
      else corners
  end.

Definition countCorners (edges : list (Z * Z)) : Z :=
  let sampleStep := Z.max 2 (Z.of_nat (length edges) / 50) in
  cornerLoop (length edges) 0 edges sampleStep 0.

Definition circularityOf (area perimeter : Z) : f64 :=
  fdiv (fmul (fmul (num 4) PI) (num area))
       (fmul (num perimeter) (num perimeter)).

(** The part of [floodFill] after the area filter. *)
Definition measure (st : FillState) : Region :=
  let pixels := rev (pixels st) in
  let area := Z.of_nat (length pixels) in
  let w := maxX st - minX st + 1 in
  let h := maxY st - minY st + 1 in
  let edges := filter isBorder pixels in
  let perimeter := Z.of_nat (length edges) in
  let corners := countCorners edges in
  let circularity := circularityOf area perimeter in
  let fillRatio := fdiv (num area) (num (w * h)) in
  {| r_pixels := pixels;
     r_minX := minX st; r_maxX := maxX st;
     r_minY := minY st; r_maxY := maxY st;
     r_area := area; r_w := w; r_h := h;
     r_cx := fdiv (num (minX st + maxX st)) (num 2);
     r_cy := fdiv (num (minY st + maxY st)) (num 2);
     r_edges := edges; r_perimeter := perimeter;
     r_corners := corners;
     r_circularity := circularity; r_fillRatio := fillRatio;
     r_type := classify corners circularity fillRatio |}.

(** [area < Math.max(50, (width * height) / 15000)]. *)
Definition tooSmall (area : Z) : bool :=
  fltb (num area) (fmax (num 50) (fdiv (num (W * H)) (num 15000))).

Definition fillStart (vis : list Z) (sx sy : Z) : FillState :=
  {| stack := [(sx, sy)]; visited := vis; pixels := [];
     minX := sx; maxX := sx; minY := sy; maxY := sy |}.

(** The number of rounds granted to the loop of one flood fill. *)
Definition fillBudget (vis : list Z) : nat := S (4 * length vis).

(** [floodFill(sx, sy)]: the new [visited] array and the region, if it
    is large enough; [None] when the budget of the loop is used up. *)
Definition floodFill (vis : list Z) (sx sy : Z)
  : option (list Z * option Region) :=
  match fillLoop (fillBudget vis) (fillStart vis sx sy) with
  | None => None
  | Some st =>
      Some (visited st,
            if tooSmall (Z.of_nat (length (pixels st))) then None
            else Some (measure st))
  end.

(** [for (let x = 0; x < width; x++)], [n] columns left. *)
Fixpoint scanRow (n : nat) (x y : Z) (s : ScanState) : option ScanState :=
  match n with
  | O => Some s
  | S n' =>
      let idx := getIndex x y in
      if same (aget binary idx) 255 && negb (truthy (aget (sc_visited s) idx))
      then
        match floodFill (sc_visited s) x y with
        | None => None
        | Some (vis', shape) => scanRow n' (x + 1) y (afterFill s vis' shape)
        end
      else scanRow n' (x + 1) y s
  end.

(** [for (let y = 0; y < height; y++)], [n] rows left. *)
Fixpoint scanRows (n : nat) (y : Z) (s : ScanState) : option ScanState :=
  match n with
  | O => Some s
  | S n' =>
      match scanRow (Z.to_nat W) 0 y s with
      | None => None
      | Some s' => scanRows n' (y + 1) s'
      end
  end.

Definition scan : option ScanState :=
  scanRows (Z.to_nat H) 0
    {| sc_visited := repeat 0 (Z.to_nat (W * H)); sc_found := [] |}.

End Closure.

(** Steps 2 to 4, from the gray buffer on. *)
Definition regionsOf (W H : Z) (gray : list Z) : option (list Region) :=
  let t := otsu (histogram gray) (W * H) in
  match scan W H (binarize gray t) with
  | None => None
  | Some s => Some (sc_found s)
  end.

(** The accepted regions of an image, with their measurements.  The
    first statement, [new Uint8ClampedArray(width * height)], throws
    unless the length can be that of a typed array. *)
Definition detectRegions (img : ImageData) : Outcome (list Region) :=
  if badLength (width img * height img) then Threw RangeError
  else
    match regionsOf (width img) (height img) (grayscale img) with
    | None => OutOfFuel
    | Some rs => Returned rs
    end.

Definition detectShapes (img : ImageData) (world : World)
  : Outcome DetectionResult * World :=
  let '(start, world1) := performance_now world in
  match detectRegions img with
  | Threw e => (Threw e, world1)
  | OutOfFuel => (OutOfFuel, world1)
  | Returned rs =>
      let '(stop, world2) := performance_now world1 in
      (Returned {| shapes := map toShape rs;
                   processingTime := fsub stop start;
                   imageWidth := width img;
                   imageHeight := height img |},
       world2)
  end.

End Detector.


(** ** Notions used by the statements *)

(** The cells of a [visited] array that are still zero. *)
Definition unvisited (vis : list Z) : nat :=
  length (filter (fun v => v =? 0) vis).

(** The work left for the flood-fill loop: each round removes one entry of
    the stack, and a round that visits a cell pushes four. *)
Definition fillMeasure (st : FillState) : nat :=
  4 * unvisited (visited st) + length (stack st).

(** Two outcomes that differ at most in the measured time. *)
Definition sameDetection (o1 o2 : Outcome DetectionResult) : Prop :=
  match o1, o2 with
  | Returned r1, Returned r2 =>
      shapes r1 = shapes r2
      /\ imageWidth r1 = imageWidth r2
      /\ imageHeight r1 = imageHeight r2
  | Threw e1, Threw e2 => e1 = e2
  | OutOfFuel, OutOfFuel => True
  | _, _ => False
  end.

(** The buffer has the length that its dimensions announce. *)
Definition wellFormed (img : ImageData) : Prop :=
  0 < width img /\ 0 < height img
  /\ Z.of_nat (length (data img)) = width img * height img * 4.

(** ** Stand-ins used to run the pipeline on examples *)

(** [Math.hypot] as the rounded square root of the rounded sum of squares. *)
Definition sampleHypot (x y : f64) : f64 :=
  SFsqrt prec emax (fadd (fmul x x) (fmul y y)).

(** A coarse [Math.acos]: [0] at [1] and above, [PI] at [-1] and below,
    [PI / 2 - x] in between. *)
Definition sampleAcos (x : f64) : f64 :=
  if fleb (num 1) x then num 0
  else if fleb x (num (-1)) then PI
  else fsub (fdiv PI (num 2)) x.

(** A clock that ticks once per reading. *)
Definition sampleWorld : World :=
  {| ticks := fun n => num (Z.of_nat n); taken := 0 |}.

(** The same clock, twice as fast. *)
Definition fastWorld : World :=
  {| ticks := fun n => num (2 * Z.of_nat n); taken := 0 |}.

(** A uniform image: [n] pixels of colour [(r, g, b, a)]. *)
Definition uniform (w h r g b a : Z) : ImageData :=
  {| width := w; height := h;
     data := concat (repeat [r; g; b; a] (Z.to_nat (w * h))) |}.

(** [data[i]] of a buffer that is long enough. *)
Definition byteAt (d : list Z) (i : Z) : Z := nth (Z.to_nat i) d 0.

(** The gray value of pixel [k] of a buffer. *)
Definition grayAt (d : list Z) (k : Z) : Z :=
  grayOf (byteAt d (4 * k)) (byteAt d (4 * k + 1)) (byteAt d (4 * k + 2)).

(** The mask in which every cell is foreground. *)
Definition fullMask (W H : Z) : list Z := repeat 255 (Z.to_nat (W * H)).

(** A 10 x 5 image with an empty buffer. *)
Definition emptyBuffer : ImageData := {| width := 10; height := 5; data := [] |}.

(** A single opaque black pixel. *)
Definition onePixel : ImageData := uniform 1 1 0 0 0 255.

(** A 10 x 5 image, opaque black throughout. *)
Definition darkStrip : ImageData := uniform 10 5 0 0 0 255.

(** ** The order of binary64 values *)

(** A key whose lexicographic order is the order that [SFcompare] computes
    on values other than NaN. *)
Definition key (x : f64) : Z * Z * Z :=
  match x with
  | S754_nan => (0, 0, 0)
  | S754_zero _ => (0, 0, 0)
  | S754_infinity s => (if s then -2 else 2, 0, 0)
  | S754_finite s m e => if s then (-1, - e, - Zpos m) else (1, e, Zpos m)
  end.

Definition lexlt (a b : Z * Z * Z) : Prop :=
  let '(a1, a2, a3) := a in
  let '(b1, b2, b3) := b in
  a1 < b1 \/ (a1 = b1 /\ (a2 < b2 \/ (a2 = b2 /\ a3 < b3))).

(** ** The Otsu stage, as the specification words it *)

(** The sum of the first [n] bins, and their weighted sum. *)
Fixpoint cumulative (hist : list Z) (n : nat) : Z :=
  match n with
  | O => 0
  | S k => cumulative hist k + bin hist (Z.of_nat k)
  end.

Fixpoint cumulativeSum (hist : list Z) (n : nat) : Z :=
  match n with
  | O => 0
  | S k => cumulativeSum hist k + Z.of_nat k * bin hist (Z.of_nat k)
  end.

(** The weight of the background class when the split is at bin [i]. *)
Definition wBAt (hist : list Z) (i : Z) : Z := cumulative hist (S (Z.to_nat i)).

Definition sumBAt (hist : list Z) (i : Z) : Z :=
  cumulativeSum hist (S (Z.to_nat i)).

(** A split point with both classes non-empty. *)
Definition validSplit (hist : list Z) (total : Z) (i : Z) : Prop :=
  0 <= i < 256 /\ 0 < wBAt hist i /\ 0 < total - wBAt hist i.

(** The between-class variance [wB * wF * (mB - mF) ** 2] at split [i]. *)
Definition betweenAt (hist : list Z) (total : Z) (i : Z) : f64 :=
  between (wBAt hist i) (total - wBAt hist i) (sumBAt hist i)
          (cumulativeSum hist 256).

(** A histogram as the pipeline builds it: 256 counts, none negative. *)
Definition counts (hist : list Z) : Prop :=
  length hist = 256%nat /\ Forall (fun c => 0 <= c) hist.

(** What the scan has chosen after the bins below [k]: nothing yet, no
    split so far having a variance above zero, or the earliest split among
    those of largest variance. *)
Definition otsuChosen (hist : list Z) (total : Z) (k : nat) (t : Z) (m : f64)
  : Prop :=
  (t = 127 /\ m = num 0
   /\ forall j, (j < k)%nat -> validSplit hist total (Z.of_nat j) ->
        fltb (num 0) (betweenAt hist total (Z.of_nat j)) = false)
  \/ (exists t', (t' < k)%nat /\ t = Z.of_nat t'
      /\ validSplit hist total t
      /\ m = betweenAt hist total t
      /\ fltb (num 0) m = true
      /\ forall j, (j < k)%nat -> validSplit hist total (Z.of_nat j) ->
           fltb m (betweenAt hist total (Z.of_nat j)) = false
           /\ ((j < t')%nat ->
               fleb m (betweenAt hist total (Z.of_nat j)) = false)).

(** The state of the scan when it reaches bin [k]. *)
Definition otsuInvariant (hist : list Z) (total : Z) (k : nat) (st : OtsuState)
  : Prop :=
  wB st = cumulative hist k
  /\ sumB st = cumulativeSum hist k
  /\ otsuChosen hist total k (thresh st) (maxVar st).

(** Five pixels, two dark and three light. *)
Definition twoLevels : list Z := [10; 10; 200; 200; 200].

(** ** The grid, as the flood fill sees it *)

(** A cell of the image. *)
Definition inside (W H : Z) (p : Z * Z) : Prop :=
  0 <= fst p < W /\ 0 <= snd p < H.

(** [visited[getIndex(x, y)]] is set. *)
Definition marked (W : Z) (vis : list Z) (p : Z * Z) : Prop :=
  truthy (aget vis (getIndex W (fst p) (snd p))) = true.

(** [binary[getIndex(x, y)] === 0] does not hold. *)
Definition foreground (W : Z) (binary : list Z) (p : Z * Z) : Prop :=
  same (aget binary (getIndex W (fst p) (snd p))) 0 = false.

(** The four neighbours, in the order of the [neighbors] array. *)
Definition neighbours (p : Z * Z) : list (Z * Z) :=
  [(fst p + 1, snd p); (fst p - 1, snd p);
   (fst p, snd p + 1); (fst p, snd p - 1)].

(** Every foreground neighbour of a marked cell is marked: the marked
    cells are a union of 4-connected components of the foreground. *)
Definition closed (W H : Z) (binary vis : list Z) : Prop :=
  forall p n,
    inside W H p -> marked W vis p ->
    In n (neighbours p) -> inside W H n -> foreground W binary n ->
    marked W vis n.

(** What holds of the flood-fill loop at every round, [vis0] being the
    [visited] array at the call and [start] the cell it starts from. *)
Record fillInvariant (W H : Z) (binary vis0 : list Z) (start : Z * Z)
      (st : FillState) : Prop := {
    inv_frontier :
      forall p n,
        inside W H p -> marked W (visited st) p ->
        In n (neighbours p) -> inside W H n -> foreground W binary n ->
        marked W (visited st) n \/ In n (stack st);
    inv_pixels :
      forall p, In p (pixels st) ->
        inside W H p /\ foreground W binary p
        /\ marked W (visited st) p /\ ~ marked W vis0 p;
    inv_new :
      forall p, inside W H p -> marked W (visited st) p ->
        marked W vis0 p \/ In p (pixels st);
    inv_old :
      forall p, inside W H p -> marked W vis0 p -> marked W (visited st) p;
    inv_count :
      (length (pixels st) + unvisited (visited st) = unvisited vis0)%nat;
    inv_box :
      forall p, In p (pixels st) ->
        minX st <= fst p <= maxX st /\ minY st <= snd p <= maxY st;
    inv_bounds :
      0 <= minX st /\ maxX st < W /\ 0 <= minY st /\ maxY st < H;
    inv_start :
      In start (pixels st)
      \/ (pixels st = [] /\ stack st = [start] /\ visited st = vis0)
  }.

(** The binary mask of an image: steps 1 to 3. *)
Definition maskOf (img : ImageData) : list Z :=
  binarize (grayscale img)
    (otsu (histogram (grayscale img)) (width img * height img)).

(** A pixel with a 4-neighbour that is outside the image or background. *)
Definition onBorder (W H : Z) (binary : list Z) (p : Z * Z) : Prop :=
  exists n,
    In n (neighbours p)
    /\ (~ inside W H n \/ aget binary (getIndex W (fst n) (snd n)) = Some 0).

(** ** Positive binary64 numbers *)

(** A positive number, finite with an exponent of at least [b], or
    infinite. *)
Definition posAbove (b : Z) (x : f64) : Prop :=
  (exists m e, x = S754_finite false m e /\ b <= e)
  \/ x = S754_infinity false.


Definition is_zero (x : f64) : bool :=
  match x with S754_zero _ => true | _ => false end.

(** A 2 x 2 image, opaque white throughout. *)
Definition whiteSquare : ImageData := uniform 2 2 255 255 255 255.

(** ** The value of a binary64 number *)

(** Values are counted in units of [2 ^ (- scale)]. *)
Definition scale : Z := 300.

Definition oneUnit : Z := 2 ^ scale.

(** The value of a positive finite number whose exponent is at least
    [- scale]; zero for a zero. *)
Definition val (x : f64) : Z :=
  match x with
  | S754_finite false m e => Zpos m * 2 ^ (e + scale)
  | _ => 0
  end.

(** Zero, or a positive finite number with an exponent of at least [b]. *)
Definition nonneg (b : Z) (x : f64) : Prop :=
  x = S754_zero false
  \/ exists m e, x = S754_finite false m e /\ b <= e.

(** ** The grayscale stage, as the specification words it *)

(** Ordinary rounding of [n / d] to the nearest integer, a half going up. *)
Definition ordinaryRound (n d : Z) : Z := (2 * n + d) / (2 * d).

(** [round(0.299 R + 0.587 G + 0.114 B)], clamped to [0, 255]. *)
Definition specGray (r g b : Z) : Z :=
  Z.min 255 (Z.max 0 (ordinaryRound (299 * r + 587 * g + 114 * b) 1000)).

(** The bytes. *)
Definition byteValues : list Z := map Z.of_nat (seq 0 256).

(** One entry of the table of products [c * x], [c] the binary64 value of
    [k / 1000]: the product is zero or positive, its exponent is at least
    -120, and it is within [2 ^ -30 / 1000] of [k * x / 1000]. *)
Definition productCheck (k x : Z) : bool :=
  let p := fmul (lit k 1000) (num x) in
  match p with
  | S754_zero false => true
  | S754_finite false _ e => -120 <=? e
  | _ => false
  end
  && (Z.abs (1000 * val p - k * x * oneUnit) <=? 2 ^ (scale - 30)).

(** A single opaque pixel of colour (0, 0, 250). *)
Definition bluePixel : ImageData := uniform 1 1 0 0 250 255.

(** ** Regions as connected components *)

(** [p] is reached from [a] by steps from a cell to one of its four
    neighbours, every cell on the way being in [region]. *)
Inductive linked (region : list (Z * Z)) (a : Z * Z) : Z * Z -> Prop :=
  | linked_here : In a region -> linked region a a
  | linked_step p n :
      linked region a p -> In n (neighbours p) -> In n region ->
      linked region a n.

(** [binary[getIndex(x, y)] === 255]. *)
Definition white (W : Z) (binary : list Z) (p : Z * Z) : Prop :=
  same (aget binary (getIndex W (fst p) (snd p))) 255 = true.

(** [p] is met before the cell [(x, y)] by the row-major scan. *)
Definition before (x y : Z) (p : Z * Z) : Prop :=
  snd p < y \/ (snd p = y /\ fst p < x).

(** A binary mask: one cell per pixel, each 0 or 255. *)
Definition isMask (W H : Z) (binary : list Z) : Prop :=
  length binary = Z.to_nat (W * H)
  /\ Forall (fun v => v = 0 \/ v = 255) binary.

(** What the flood-fill loop keeps, besides [fillInvariant], about the
    pixels it has collected: they are distinct, the first one collected is
    the cell the fill started from, each is linked to it, the stack holds
    the start or neighbours of collected pixels only, and each side of the
    running bounding box is touched by a collected pixel. *)
Record fillShape (start : Z * Z) (st : FillState) : Prop := {
    shp_nodup : NoDup (pixels st);
    shp_first : pixels st = [] \/ exists l, pixels st = l ++ [start];
    shp_linked : forall p, In p (pixels st) -> linked (pixels st) start p;
    shp_stack :
      forall q, In q (stack st) ->
        q = start \/ exists p, In p (pixels st) /\ In q (neighbours p);
    shp_minX :
      (pixels st = [] /\ minX st = fst start)
      \/ exists p, In p (pixels st) /\ fst p = minX st;
    shp_maxX :
      (pixels st = [] /\ maxX st = fst start)
      \/ exists p, In p (pixels st) /\ fst p = maxX st;
    shp_minY :
      (pixels st = [] /\ minY st = snd start)
      \/ exists p, In p (pixels st) /\ snd p = minY st;
    shp_maxY :
      (pixels st = [] /\ maxY st = snd start)
      \/ exists p, In p (pixels st) /\ snd p = maxY st
  }.

(** A flood fill that has run to its end: the call [floodFill(x, y)] made
    by the scan at the cell [start], the [visited] array being [vis0] at the
    call, [st] the state when the stack is empty. *)
Record fillRun (W H : Z) (binary vis0 : list Z) (start : Z * Z)
      (st : FillState) : Prop := {
    run_length : length vis0 = Z.to_nat (W * H);
    run_closed : closed W H binary vis0;
    run_before :
      forall q, inside W H q -> before (fst start) (snd start) q ->
        white W binary q -> marked W vis0 q;
    run_inside : inside W H start;
    run_white : white W binary start;
    run_new : ~ marked W vis0 start;
    run_invariant : fillInvariant W H binary vis0 start st;
    run_shape : fillShape start st;
    run_done : stack st = []
  }.

(** The first pixel that a region collected. *)
Definition firstPixel (r : Region) : Z * Z := hd (0, 0) (r_pixels r).

(** All the pixels of a list of regions. *)
Definition allPixels (rs : list Region) : list (Z * Z) :=
  concat (map r_pixels rs).

(** The cells of [l] in the order in which the row-major scan meets them,
    each strictly before the next ones. *)
Fixpoint inScanOrder (l : list (Z * Z)) : Prop :=
  match l with
  | [] => True
  | p :: t => Forall (fun q => before (fst q) (snd q) p) t /\ inScanOrder t
  end.

(** The books of the scan when it is about to look at the cell [(x, y)]:
    [s] is its state and [dropped] the pixel lists of the flood fills that
    the area filter has turned down so far.  [P] holds of the regions kept
    and [D] of the pixel lists dropped. *)
Record scanLedger (W H : Z) (binary : list Z)
      (P : Region -> Prop) (D : list (Z * Z) -> Prop)
      (x y : Z) (s : ScanState) (dropped : list (list (Z * Z))) : Prop := {
    led_closed : closed W H binary (sc_visited s);
    led_before :
      forall q, inside W H q -> before x y q -> white W binary q ->
        marked W (sc_visited s) q;
    led_found : Forall P (sc_found s);
    led_dropped : Forall D dropped;
    led_marked :
      forall q, inside W H q -> marked W (sc_visited s) q ->
        In q (allPixels (sc_found s)) \/ In q (concat dropped);
    led_pixels :
      forall q, In q (allPixels (sc_found s)) \/ In q (concat dropped) ->
        inside W H q /\ marked W (sc_visited s) q;
    led_apart :
      forall q, In q (allPixels (sc_found s)) -> ~ In q (concat dropped);
    led_nodup : NoDup (allPixels (sc_found s));
    led_count :
      (length (allPixels (sc_found s)) + unvisited (sc_visited s)
       <= Z.to_nat (W * H))%nat;
    led_order : inScanOrder (map firstPixel (sc_found s));
    led_starts : Forall (fun r => before x y (firstPixel r)) (sc_found s)
  }.

(** A 4-connected component of the white cells of the mask, listed from
    the cell of it that the row-major scan meets first: the cells are
    distinct, inside the image and white; each is linked to the first
    through the list; every white neighbour of a cell of the list is in the
    list; and no cell of the list is met before the first. *)
Record isComponent (W H : Z) (binary : list Z) (l : list (Z * Z))
  : Prop := {
    cmp_nodup : NoDup l;
    cmp_first : In (hd (0, 0) l) l;
    cmp_white : forall p, In p l -> inside W H p /\ white W binary p;
    cmp_linked : forall p, In p l -> linked l (hd (0, 0) l) p;
    cmp_maximal :
      forall p n,
        In p l -> In n (neighbours p) -> inside W H n -> white W binary n ->
        In n l;
    cmp_top :
      forall p, In p l -> ~ before (fst (hd (0, 0) l)) (snd (hd (0, 0) l)) p
  }.

(** What the scan knows of a region that it keeps. *)
Record regionFacts (W H : Z) (binary : list Z) (r : Region) : Prop := {
    reg_component : isComponent W H binary (r_pixels r);
    reg_area : r_area r = Z.of_nat (length (r_pixels r));
    reg_large : tooSmall W H (r_area r) = false;
    reg_size :
      r_w r = r_maxX r - r_minX r + 1 /\ r_h r = r_maxY r - r_minY r + 1;
    reg_box :
      forall p, In p (r_pixels r) ->
        r_minX r <= fst p <= r_maxX r /\ r_minY r <= snd p <= r_maxY r;
    reg_bounds :
      0 <= r_minX r /\ r_maxX r < W /\ 0 <= r_minY r /\ r_maxY r < H;
    reg_left : exists p, In p (r_pixels r) /\ fst p = r_minX r;
    reg_right : exists p, In p (r_pixels r) /\ fst p = r_maxX r;
    reg_top : exists p, In p (r_pixels r) /\ snd p = r_minY r;
    reg_bottom : exists p, In p (r_pixels r) /\ snd p = r_maxY r;
    reg_edges : r_edges r = filter (isBorder W H binary) (r_pixels r);
    reg_perimeter : r_perimeter r = Z.of_nat (length (r_edges r));
    reg_border : 1 <= r_perimeter r;
    reg_circularity :
      r_circularity r = circularityOf (r_area r) (r_perimeter r);
    reg_fillRatio : r_fillRatio r = fdiv (num (r_area r)) (num (r_w r * r_h r))
  }.

(** A component that the area filter turns down. *)
Definition smallComponent (W H : Z) (binary : list Z) (l : list (Z * Z))
  : Prop :=
  isComponent W H binary l /\ tooSmall W H (Z.of_nat (length l)) = true.

(** The areas from 0 to 49. *)
Definition smallAreas : list Z := map Z.of_nat (seq 0 50).

(** The sum of the areas of a list of shapes. *)
Definition totalArea (l : list DetectedShape) : Z :=
  fold_right (fun s acc => area s + acc) 0 l.

(** A list of integers in which no element is above a later one. *)
Fixpoint nondecreasing (l : list Z) : Prop :=
  match l with
  | [] => True
  | a :: t => Forall (fun b => a <= b) t /\ nondecreasing t
  end.

(** The cells of the rectangle with the corner [(x0, y0)], [w] wide and
    [h] high. *)
Definition boxCells (x0 y0 : Z) (w h : nat) : list (Z * Z) :=
  list_prod (map (fun i => x0 + Z.of_nat i) (seq 0 w))
            (map (fun j => y0 + Z.of_nat j) (seq 0 h)).

(** A 23 x 5 image: two black blocks of 10 x 5 pixels, a column at gray
    level 1 between them, and a single black pixel in the corner of the
    white margin. *)
Definition twoBlocksLevel (x y : Z) : Z :=
  if x =? 10 then 1
  else if x =? 21 then 255
  else if x =? 22 then (if y =? 0 then 0 else 255)
  else 0.

Definition twoBlocksPixel (i : nat) : list Z :=
  let v := twoBlocksLevel (Z.of_nat i mod 23) (Z.of_nat i / 23) in
  [v; v; v; 255].

Definition twoBlocks : ImageData :=
  {| width := 23; height := 5; data := flat_map twoBlocksPixel (seq 0 115) |}.

(** The image [img] with the buffer [d] in place of its own. *)
Definition withData (img : ImageData) (d : list Z) : ImageData :=
  {| width := width img; height := height img; data := d |}.

(** ** The corner loop, with every read of [edges] checked *)

(** How the loop ends: with a count, on a read outside [edges] (whose
    destructuring throws), or, for the model only, with its budget of rounds
    used up. *)
Inductive CornerRun := Counted (corners : Z) | BadRead | Unfinished.

(** [edges[i]]: [None] stands for [undefined]. *)
Definition edgeRead (edges : list (Z * Z)) (i : Z) : option (Z * Z) :=
  if i <? 0 then None else nth_error edges (Z.to_nat i).

Section CheckedCorners.

Variable hypot : f64 -> f64 -> f64.
Variable acos : f64 -> f64.

Fixpoint cornerLoopChecked (fuel : nat) (i : Z) (edges : list (Z * Z))
  (sampleStep : Z) (corners : Z) : CornerRun :=
  let n := Z.of_nat (length edges) in
  if i <? n then
    match fuel with
    | O => Unfinished
    | S fuel' =>
        match edgeRead edges i,
              edgeRead edges ((i + sampleStep) mod n),
              edgeRead edges ((i + 2 * sampleStep) mod n) with
        | Some (x1, y1), Some (x2, y2), Some (x3, y3) =>
            let v1x := x2 - x1 in let v1y := y2 - y1 in
            let v2x := x3 - x2 in let v2y := y3 - y2 in
            let dot :=
              fadd (fmul (num v1x) (num v2x)) (fmul (num v1y) (num v2y)) in
            let mag1 := hypot (num v1x) (num v1y) in
            let mag2 := hypot (num v2x) (num v2y) in
            if feqb (fmul mag1 mag2) (num 0) then
              cornerLoopChecked fuel' (i + sampleStep) edges sampleStep corners
            else
              let cos := fdiv dot (fmul mag1 mag2) in
              let angle := acos (fmin (num 1) (fmax (num (-1)) cos)) in
              cornerLoopChecked fuel' (i + sampleStep) edges sampleStep
                (if fltb (lit 4 10) angle && fltb angle (lit 13 10)
                 then corners + 1 else corners)
        | _, _, _ => BadRead
        end
    end
  else Counted corners.

Definition countCornersChecked (edges : list (Z * Z)) : CornerRun :=
  let sampleStep := Z.max 2 (Z.of_nat (length edges) / 50) in
  cornerLoopChecked (length edges) 0 edges sampleStep 0.

End CheckedCorners.

(** The number of rounds of the corner loop from the index [i] on. *)
Definition samplesFrom (n step i : Z) : Z :=
  if i <? n then (n - i + step - 1) / step else 0.

(** ** The display name of a test image *)

(** A string is the list of its UTF-16 code units. *)
Definition underscore : Z := 95.
Definition hyphen : Z := 45.
Definition space : Z := 32.
Definition dot : Z := 46.

(** [s.replace(/[_-]/g, " ")]. *)
Definition replaceSeparators (s : list Z) : list Z :=
  map (fun c => if (c =? underscore) || (c =? hyphen) then space else c) s.

(** The code unit [c] matches the lower-case letter [l] when case is
    ignored. *)
Definition isLetter (l c : Z) : bool := (c =? l) || (c =? l - 32).

(** The whole of [t] matches [\.(svg|png)] when case is ignored. *)
Definition isExtension (t : list Z) : bool :=
  match t with
  | [d; a; b; c] =>
      (d =? dot)
      && ((isLetter 115 a && isLetter 118 b && isLetter 103 c)
          || (isLetter 112 a && isLetter 110 b && isLetter 103 c))
  | _ => false
  end.

(** [s.replace(/\.(svg|png)$/i, "")]. *)
Definition stripExtension (s : list Z) : list Z :=
  if isExtension (skipn (length s - 4) s) then firstn (length s - 4) s
  else s.

(** [name.replace(/[_-]/g, " ").replace(/\.(svg|png)$/i, "")], the
    [displayName] of [loadTestImages]. *)
Definition displayName (name : list Z) : list Z :=
  stripExtension (replaceSeparators name).

(** The name ends in a dot and [svg] or [png], in whatever letter case. *)
Definition hasExtension (name : list Z) : Prop :=
  exists base e, name = base ++ e /\ isExtension e = true.

(** The code units of [my_test-image.SVG]. *)
Definition sampleName : list Z :=
  [109; 121; 95; 116; 101; 115; 116; 45; 105; 109; 97; 103; 101;
   46; 83; 86; 71].

(** A positive finite number of moderate size: its exponent is at least
    -52 and it is below [2 ^ 64]. *)
Definition moderate (x : f64) : Prop :=
  exists m e,
    x = S754_finite false m e
    /\ -52 <= e /\ e + Zpos (digits2_pos m) <= 64.

(** A black pixel and a white one, side by side. *)
Definition blackAndWhite : ImageData :=
  {| width := 2; height := 1;
     data := [0; 0; 0; 255; 255; 255; 255; 255] |}.

(** ** Drawings used to run the classification on examples *)

(** A [w] x [h] image that shows the cells of [shape] in black on white.
    Its last pixel has the gray level 1, so that the threshold falls
    between black and that level. *)
Definition drawnLevel (w h : Z) (shape : Z -> Z -> bool) (x y : Z) : Z :=
  if shape x y then 0
  else if (x =? w - 1) && (y =? h - 1) then 1
  else 255.

Definition drawn (w h : Z) (shape : Z -> Z -> bool) : ImageData :=
  {| width := w; height := h;
     data :=
       flat_map
         (fun i : nat =>
            let v := drawnLevel w h shape (Z.of_nat i mod w) (Z.of_nat i / w) in
            [v; v; v; 255])
         (seq 0 (Z.to_nat (w * h))) |}.

(** A comb at [(1, 1)]: a bar [n] wide and 2 high, with a tooth [t] long
    under every [k]-th column. *)
Definition comb (k n t : Z) (x y : Z) : bool :=
  (1 <=? x) && (x <? 1 + n) && (1 <=? y)
  && ((y <? 3) || ((y <? 3 + t) && ((x - 1) mod k =? 0))).

(** A cross with its centre at [(6, 6)], arms 5 long and 5 wide. *)
Definition cross (x y : Z) : bool :=
  ((Z.abs (x - 6) <=? 5) && (Z.abs (y - 6) <=? 2))
  || ((Z.abs (x - 6) <=? 2) && (Z.abs (y - 6) <=? 5)).

(** ** The circularity, as the specification words it *)

(** The guarded division: a perimeter of zero gives the circularity 0. *)
Definition guardedCircularity (area perimeter : Z) : f64 :=
  if perimeter =? 0 then num 0 else circularityOf area perimeter.

(** ** Runs in two environments *)

(** Two shapes that differ at most in their type. *)
Definition sameGeometry (s1 s2 : DetectedShape) : Prop :=
  boundingBox s1 = boundingBox s2
  /\ center s1 = center s2
  /\ area s1 = area s2
  /\ confidence s1 = confidence s2.

(** Two outcomes of the same kind whose shapes, taken one by one in the
    order of the lists, differ at most in their type. *)
Definition sameOutline (o1 o2 : Outcome DetectionResult) : Prop :=
  match o1, o2 with
  | Returned r1, Returned r2 =>
      Forall2 sameGeometry (shapes r1) (shapes r2)
      /\ imageWidth r1 = imageWidth r2
      /\ imageHeight r1 = imageHeight r2
  | Threw e1, Threw e2 => e1 = e2
  | OutOfFuel, OutOfFuel => True
  | _, _ => False
  end.

Definition optionRelated {A : Type} (R : A -> A -> Prop) (o1 o2 : option A)
  : Prop :=
  match o1, o2 with
  | Some a, Some b => R a b
  | None, None => True
  | _, _ => False
  end.

(** Two states of the scan with the same [visited] array, whose regions
    are related one by one. *)
Definition scanRelated (R : Region -> Region -> Prop) (s1 s2 : ScanState)
  : Prop :=
  sc_visited s1 = sc_visited s2 /\ Forall2 R (sc_found s1) (sc_found s2).

(** Two outcomes of [detectRegions] of the same kind, whose regions are
    related one by one. *)
Definition regionsRelated (R : Region -> Region -> Prop)
  (o1 o2 : Outcome (list Region)) : Prop :=
  match o1, o2 with
  | Returned rs1, Returned rs2 => Forall2 R rs1 rs2
  | Threw e1, Threw e2 => e1 = e2
  | OutOfFuel, OutOfFuel => True
  | _, _ => False
  end.

(** Two calls in a row: the second starts with the clock as the first
    left it. *)
Definition twice (hypot : f64 -> f64 -> f64) (acos : f64 -> f64)
  (img : ImageData) (world : World)
  : Outcome DetectionResult * Outcome DetectionResult * World :=
  let '(first, world1) := detectShapes hypot acos img world in
  let '(second, world2) := detectShapes hypot acos img world1 in
  (first, second, world2).

(* ================================================================= *)
(** * Properties *)

(** ** Arrays *)

Lemma upd_length n v a : length (upd n v a) = length a.
Proof.
  revert n; induction a as [|h t IH]; intros [|n]; simpl; auto.
Qed.

Lemma aset_length a i v : length (aset a i v) = length a.
Proof.
  unfold aset; destruct (i <? 0); auto using upd_length.
Qed.

Lemma upd_nth_same n v a :
  (n < length a)%nat -> nth_error (upd n v a) n = Some v.
Proof.
  revert n; induction a as [|h t IH]; intros [|n] Hn; simpl in *;
    try lia; auto.
  apply IH; lia.
Qed.

Lemma upd_nth_other n m v a :
  n <> m -> nth_error (upd n v a) m = nth_error a m.
Proof.
  revert n m; induction a as [|h t IH]; intros [|n] [|m] Hnm; simpl;
    auto; try congruence.
Qed.

Lemma aget_range a i v : aget a i = Some v -> 0 <= i < Z.of_nat (length a).
Proof.
  unfold aget; destruct (Z.ltb_spec i 0); [discriminate|].
  intros Hn. assert (Hlt : (Z.to_nat i < length a)%nat).
  { apply nth_error_Some; congruence. }
  lia.
Qed.

Lemma aget_in_range a i :
  0 <= i < Z.of_nat (length a) -> exists v, aget a i = Some v.
Proof.
  intros Hi; unfold aget; destruct (Z.ltb_spec i 0); [lia|].
  destruct (nth_error a (Z.to_nat i)) eqn:E; eauto.
  apply nth_error_None in E; lia.
Qed.

Lemma aget_out_of_range a i :
  i < 0 \/ Z.of_nat (length a) <= i -> aget a i = None.
Proof.
  intros Hi; unfold aget; destruct (Z.ltb_spec i 0); auto.
  apply nth_error_None; lia.
Qed.

Lemma aget_aset_same a i v :
  0 <= i < Z.of_nat (length a) -> aget (aset a i v) i = Some v.
Proof.
  intros Hi; unfold aget, aset; destruct (Z.ltb_spec i 0); [lia|].
  apply upd_nth_same; lia.
Qed.

Lemma aget_aset_other a i j v : i <> j -> aget (aset a i v) j = aget a j.
Proof.
  intros Hij; unfold aget, aset.
  destruct (Z.ltb_spec j 0); auto.
  destruct (Z.ltb_spec i 0); auto.
  apply upd_nth_other; lia.
Qed.

Lemma aget_repeat v n i :
  0 <= i < Z.of_nat n -> aget (repeat v n) i = Some v.
Proof.
  intros Hi; unfold aget; destruct (Z.ltb_spec i 0); [lia|].
  apply nth_error_repeat; lia.
Qed.

(** ** The flood-fill loop *)

Lemma unvisited_le vis : (unvisited vis <= length vis)%nat.
Proof. apply filter_length_le. Qed.

Lemma unvisited_upd n vis :
  nth_error vis n = Some 0 -> S (unvisited (upd n 1 vis)) = unvisited vis.
Proof.
  unfold unvisited; revert n; induction vis as [|h t IH]; intros [|n];
    simpl; try discriminate.
  - intros [= ->]; reflexivity.
  - intros Hn; destruct (h =? 0); simpl; rewrite <- (IH n Hn); reflexivity.
Qed.

Lemma unvisited_visit vis i :
  aget vis i = Some 0 -> S (unvisited (aset vis i 1)) = unvisited vis.
Proof.
  unfold aget, aset; destruct (i <? 0); [discriminate|].
  apply unvisited_upd.
Qed.

Lemma truthy_false_in_range vis i :
  0 <= i < Z.of_nat (length vis) -> truthy (aget vis i) = false ->
  aget vis i = Some 0.
Proof.
  intros Hi; destruct (aget_in_range vis i Hi) as [v ->]; simpl.
  destruct (Z.eqb_spec v 0); [congruence | discriminate].
Qed.

Section FillFacts.

Variables (W H : Z) (binary : list Z).

Lemma inside_bounds x y :
  outside W H x y = false -> 0 <= x < W /\ 0 <= y < H.
Proof. unfold outside; lia. Qed.

Lemma outside_bounds x y :
  outside W H x y = true -> ~ (0 <= x < W /\ 0 <= y < H).
Proof. unfold outside; lia. Qed.

Lemma index_range x y :
  0 <= x < W -> 0 <= y < H -> 0 <= getIndex W x y < W * H.
Proof. unfold getIndex; nia. Qed.

Lemma index_inj x y x' y' :
  0 <= x < W -> 0 <= x' < W -> getIndex W x y = getIndex W x' y' ->
  x = x' /\ y = y'.
Proof. unfold getIndex; intros; assert (y = y') by nia; subst; lia. Qed.

(** The cases of one round of the loop. *)
Lemma fillStep_cases p rest st :
  (fillStep W H binary p rest st =
     {| stack := rest; visited := visited st; pixels := pixels st;
        minX := minX st; maxX := maxX st; minY := minY st; maxY := maxY st |}
   /\ (outside W H (fst p) (snd p) = true
       \/ truthy (aget (visited st) (getIndex W (fst p) (snd p))) = true
       \/ same (aget binary (getIndex W (fst p) (snd p))) 0 = true))
  \/ (outside W H (fst p) (snd p) = false
      /\ truthy (aget (visited st) (getIndex W (fst p) (snd p))) = false
      /\ same (aget binary (getIndex W (fst p) (snd p))) 0 = false
      /\ stack (fillStep W H binary p rest st) =
           (fst p, snd p - 1) :: (fst p, snd p + 1) ::
           (fst p - 1, snd p) :: (fst p + 1, snd p) :: rest
      /\ visited (fillStep W H binary p rest st) =
           aset (visited st) (getIndex W (fst p) (snd p)) 1
      /\ pixels (fillStep W H binary p rest st) = p :: pixels st
      /\ minX (fillStep W H binary p rest st) =
           (if fst p <? minX st then fst p else minX st)
      /\ maxX (fillStep W H binary p rest st) =
           (if maxX st <? fst p then fst p else maxX st)
      /\ minY (fillStep W H binary p rest st) =
           (if snd p <? minY st then snd p else minY st)
      /\ maxY (fillStep W H binary p rest st) =
           (if maxY st <? snd p then snd p else maxY st)).
Proof.
  destruct p as [x y]; unfold fillStep; simpl.
  destruct (outside W H x y); [left; auto|].
  destruct (truthy (aget (visited st) (getIndex W x y))); [left; auto|].
  destruct (same (aget binary (getIndex W x y)) 0); [left; auto|].
  right; simpl; auto 15.
Qed.

Lemma fillStep_length p rest st :
  length (visited (fillStep W H binary p rest st)) = length (visited st).
Proof.
  destruct (fillStep_cases p rest st) as [[-> _] | (_ & _ & _ & _ & -> & _)];
    simpl; auto using aset_length.
Qed.

(** Each round uses up one unit of the measure. *)
Lemma fillStep_measure p rest st :
  length (visited st) = Z.to_nat (W * H) ->
  stack st = p :: rest ->
  S (fillMeasure (fillStep W H binary p rest st)) = fillMeasure st.
Proof.
  intros Hlen Hst; unfold fillMeasure; rewrite Hst.
  destruct (fillStep_cases p rest st)
    as [[-> _] | (Ho & Hv & _ & -> & -> & _)]; simpl; [lia|].
  apply inside_bounds in Ho; destruct Ho as [Hx Hy].
  pose proof (index_range _ _ Hx Hy) as Hi.
  rewrite <- (unvisited_visit (visited st) (getIndex W (fst p) (snd p))).
  - lia.
  - apply truthy_false_in_range; auto. lia.
Qed.

(** The loop ends within its measure, and carries any property that each
    round preserves to the state in which the stack is empty. *)
Lemma fillLoop_invariant (P : FillState -> Prop) :
  (forall p rest s,
     length (visited s) = Z.to_nat (W * H) ->
     P s -> stack s = p :: rest -> P (fillStep W H binary p rest s)) ->
  forall fuel st,
    length (visited st) = Z.to_nat (W * H) ->
    P st -> (fillMeasure st <= fuel)%nat ->
    exists st',
      fillLoop W H binary fuel st = Some st'
      /\ P st' /\ stack st' = []
      /\ length (visited st') = Z.to_nat (W * H).
Proof.
  intros Hstep; induction fuel as [|fuel IH]; intros st Hlen HP Hm.
  - exists st; unfold fillMeasure in Hm.
    destruct (stack st) eqn:E; simpl in *; [|lia].
    rewrite E; auto.
  - destruct (stack st) as [|p rest] eqn:E.
    + exists st; simpl; rewrite E; auto.
    + simpl; rewrite E. apply IH.
      * rewrite fillStep_length; auto.
      * eapply Hstep; eauto.
      * pose proof (fillStep_measure p rest st Hlen E); lia.
Qed.

Lemma fillStart_measure vis sx sy :
  (fillMeasure (fillStart vis sx sy) <= fillBudget vis)%nat.
Proof.
  unfold fillMeasure, fillBudget; simpl.
  pose proof (unvisited_le vis); lia.
Qed.

End FillFacts.

(** ** The scan *)

Section ScanFacts.

Variable hypot : f64 -> f64 -> f64.
Variable acos : f64 -> f64.
Variables (W H : Z) (binary : list Z).

(** A flood fill ends within its budget; whatever each round preserves
    holds of the state it ends in. *)
Lemma floodFill_invariant (P : FillState -> Prop) vis sx sy :
  (forall p rest s,
     length (visited s) = Z.to_nat (W * H) ->
     P s -> stack s = p :: rest -> P (fillStep W H binary p rest s)) ->
  length vis = Z.to_nat (W * H) ->
  P (fillStart vis sx sy) ->
  exists st,
    fillLoop W H binary (fillBudget vis) (fillStart vis sx sy) = Some st
    /\ P st /\ stack st = []
    /\ length (visited st) = Z.to_nat (W * H)
    /\ floodFill hypot acos W H binary vis sx sy =
         Some (visited st,
               if tooSmall W H (Z.of_nat (length (pixels st))) then None
               else Some (measure hypot acos W H binary st)).
Proof.
  intros Hstep Hlen HP.
  destruct (fillLoop_invariant W H binary P Hstep (fillBudget vis)
          (fillStart vis sx sy) Hlen HP (fillStart_measure vis sx sy))
    as (st & E & HPst & Hst & Hl).
  exists st; unfold floodFill; rewrite E; auto.
Qed.

Lemma floodFill_returns vis sx sy :
  length vis = Z.to_nat (W * H) ->
  exists vis' shape,
    floodFill hypot acos W H binary vis sx sy = Some (vis', shape)
    /\ length vis' = Z.to_nat (W * H).
Proof.
  intros Hlen.
  destruct (floodFill_invariant (fun _ => True) vis sx sy) as
    (st & _ & _ & _ & Hl & E); auto.
  rewrite E; eauto.
Qed.

Section Invariant.

Variable Q : ScanState -> Prop.

Hypothesis Q_fill :
  forall s x y vis' shape,
    0 <= x < W -> 0 <= y < H ->
    length (sc_visited s) = Z.to_nat (W * H) ->
    Q s ->
    same (aget binary (getIndex W x y)) 255 = true ->
    truthy (aget (sc_visited s) (getIndex W x y)) = false ->
    floodFill hypot acos W H binary (sc_visited s) x y = Some (vis', shape) ->
    Q (afterFill s vis' shape).

Lemma scanRow_invariant n : forall x y s,
  0 <= x -> 0 <= y < H ->
  (forall k, (k < n)%nat -> x + Z.of_nat k < W) ->
  length (sc_visited s) = Z.to_nat (W * H) ->
  Q s ->
  exists s',
    scanRow hypot acos W H binary n x y s = Some s'
    /\ length (sc_visited s') = Z.to_nat (W * H) /\ Q s'.
Proof.
  induction n as [|n IH]; intros x y s Hx Hy Hn Hlen HQ; simpl.
  - eauto.
  - assert (Hx' : 0 <= x < W) by (specialize (Hn O); lia).
    assert (Hnext : forall k, (k < n)%nat -> x + 1 + Z.of_nat k < W).
    { intros k Hk; specialize (Hn (S k)); lia. }
    destruct (same (aget binary (getIndex W x y)) 255) eqn:Hfg; simpl;
      [|apply IH; auto; lia].
    destruct (truthy (aget (sc_visited s) (getIndex W x y))) eqn:Hv; simpl;
      [apply IH; auto; lia|].
    destruct (floodFill_returns (sc_visited s) x y Hlen)
      as (vis' & shape & E & Hl).
    rewrite E.
    apply (IH (x + 1) y (afterFill s vis' shape)); auto; try lia.
    eapply Q_fill; eauto.
Qed.

Lemma scanRows_invariant n : forall y s,
  0 <= y ->
  (forall k, (k < n)%nat -> y + Z.of_nat k < H) ->
  length (sc_visited s) = Z.to_nat (W * H) ->
  Q s ->
  exists s',
    scanRows hypot acos W H binary n y s = Some s'
    /\ length (sc_visited s') = Z.to_nat (W * H) /\ Q s'.
Proof.
  induction n as [|n IH]; intros y s Hy Hn Hlen HQ; simpl.
  - eauto.
  - assert (Hy' : 0 <= y < H) by (specialize (Hn O); lia).
    destruct (scanRow_invariant (Z.to_nat W) 0 y s) as (s1 & E & Hl & HQ1);
      auto; try lia.
    rewrite E. apply IH; auto; try lia.
    intros k Hk; specialize (Hn (S k)); lia.
Qed.

Lemma scan_invariant :
  Q {| sc_visited := repeat 0 (Z.to_nat (W * H)); sc_found := [] |} ->
  exists s,
    scan hypot acos W H binary = Some s
    /\ length (sc_visited s) = Z.to_nat (W * H) /\ Q s.
Proof.
  intros HQ; unfold scan; apply scanRows_invariant; auto; try lia.
  simpl; apply repeat_length.
Qed.

End Invariant.

End ScanFacts.

(** ** The pipeline returns *)

Lemma grayLoop_length d : forall k gray,
  length (grayLoop d k gray) = length gray.
Proof.
  induction d as [d IH] using (well_founded_induction
                                 (Wf_nat.well_founded_ltof _ (@length Z))).
  intros k gray; destruct d as [|r [|g [|b [|a rest]]]]; cbn [grayLoop];
    auto using aset_length.
  rewrite IH; [apply aset_length|]. unfold Wf_nat.ltof; cbn [length]; lia.
Qed.

Lemma grayscale_length img :
  length (grayscale img) = Z.to_nat (width img * height img).
Proof. unfold grayscale; rewrite grayLoop_length; apply repeat_length. Qed.

Lemma binarize_length gray t : length (binarize gray t) = length gray.
Proof. apply length_map. Qed.

Lemma badLength_cases n :
  (badLength n = true /\ (n < 0 \/ maxLength < n))
  \/ (badLength n = false /\ 0 <= n <= maxLength).
Proof.
  unfold badLength.
  destruct (Z.ltb_spec n 0), (Z.ltb_spec maxLength n); simpl;
    [left | left | left | right]; split; auto; lia.
Qed.

Lemma badLength_false n : 0 <= n <= maxLength -> badLength n = false.
Proof.
  intros Hn. destruct (badLength_cases n) as [[_ Hb] | [E _]]; [lia | exact E].
Qed.

Section PipelineFacts.

Variable hypot : f64 -> f64 -> f64.
Variable acos : f64 -> f64.

Lemma regionsOf_returns W H gray :
  length gray = Z.to_nat (W * H) ->
  exists rs, regionsOf hypot acos W H gray = Some rs.
Proof.
  intros Hlen; unfold regionsOf.
  destruct (scan_invariant hypot acos W H
          (binarize gray (otsu (histogram gray) (W * H)))
          (fun _ => True)) as (s & -> & _); eauto.
Qed.

(** A call either throws [RangeError], when the typed arrays cannot be
    allocated, or returns the regions. *)
Lemma detectRegions_outcome img :
  ((width img * height img < 0 \/ maxLength < width img * height img)
   /\ detectRegions hypot acos img = Threw RangeError)
  \/ (0 <= width img * height img <= maxLength
      /\ exists rs, detectRegions hypot acos img = Returned rs).
Proof.
  unfold detectRegions.
  destruct (badLength_cases (width img * height img)) as [[-> Hn] | [-> Hn]];
    [left; auto|right].
  split; auto.
  destruct (regionsOf_returns (width img) (height img) (grayscale img)
          (grayscale_length img)) as [rs ->]; eauto.
Qed.

(** A call that returns has allocated its arrays. *)
Lemma detectRegions_size img rs :
  detectRegions hypot acos img = Returned rs ->
  0 <= width img * height img <= maxLength.
Proof.
  destruct (detectRegions_outcome img) as [[_ ->] | [Hn _]];
    [discriminate | auto].
Qed.

Lemma detectShapes_unfold img world :
  detectShapes hypot acos img world =
  match detectRegions hypot acos img with
  | Returned rs =>
      (Returned {| shapes := map toShape rs;
                   processingTime :=
                     fsub (ticks world (S (taken world)))
                          (ticks world (taken world));
                   imageWidth := width img;
                   imageHeight := height img |},
       {| ticks := ticks world; taken := S (S (taken world)) |})
  | Threw e =>
      (Threw e, {| ticks := ticks world; taken := S (taken world) |})
  | OutOfFuel =>
      (OutOfFuel, {| ticks := ticks world; taken := S (taken world) |})
  end.
Proof.
  unfold detectShapes, performance_now; simpl.
  destruct (detectRegions hypot acos img); reflexivity.
Qed.

(** C9: [detectShapes] terminates on every input: the flood-fill loop
    never uses up its budget of [4 * width * height + 1] rounds, the scan
    finishes, and the call ends by returning or by throwing. *)
Theorem detectShapes_terminates img world :
  exists out world',
    detectShapes hypot acos img world = (out, world') /\ out <> OutOfFuel.
Proof.
  rewrite detectShapes_unfold.
  destruct (detectRegions_outcome img) as [[_ ->] | [_ [rs ->]]];
    eexists; eexists; (split; [reflexivity | discriminate]).
Qed.




End PipelineFacts.

(** ** The grayscale stage *)

Lemma byteAt_skip4 r g b a rest i :
  4 <= i -> byteAt (r :: g :: b :: a :: rest) i = byteAt rest (i - 4).
Proof.
  intros Hi; unfold byteAt.
  replace (Z.to_nat i) with (S (S (S (S (Z.to_nat (i - 4)))))) by lia.
  reflexivity.
Qed.

(** After the loop, cell [j] holds the gray value of pixel [j - k] of the
    remaining buffer if that pixel exists, and its old content otherwise. *)
Lemma grayLoop_get n : forall d k gray j,
  length d = (4 * n)%nat -> 0 <= k ->
  aget (grayLoop d k gray) j =
    if (k <=? j) && (j <? k + Z.of_nat n) && (j <? Z.of_nat (length gray))
    then Some (grayAt d (j - k))
    else aget gray j.
Proof.
  induction n as [|n IH]; intros d k gray j Hlen Hk.
  - destruct d; [|discriminate]; simpl.
    destruct (Z.leb_spec k j), (Z.ltb_spec j (k + 0)); simpl; auto; lia.
  - destruct d as [|r [|g [|b [|a rest]]]]; simpl in Hlen; try lia.
    simpl grayLoop. rewrite IH by (simpl in *; lia).
    rewrite aset_length, Nat2Z.inj_succ.
    destruct (Z.ltb_spec j (Z.of_nat (length gray))) as [Hj|Hj];
      rewrite ?andb_false_r, ?andb_true_r.
    + destruct (Z.eq_dec j k) as [->|Hne].
      * rewrite aget_aset_same by lia.
        destruct (Z.leb_spec (k + 1) k); [lia|].
        destruct (Z.leb_spec k k); [|lia].
        destruct (Z.ltb_spec k (k + Z.succ (Z.of_nat n))); [|lia].
        simpl. unfold grayAt. replace (k - k) with 0 by lia. reflexivity.
      * rewrite aget_aset_other by auto.
        destruct (Z.leb_spec (k + 1) j), (Z.leb_spec k j); try lia; simpl; auto.
        destruct (Z.ltb_spec j (k + 1 + Z.of_nat n)),
                 (Z.ltb_spec j (k + Z.succ (Z.of_nat n))); try lia; auto.
        unfold grayAt. rewrite !byteAt_skip4 by lia.
        f_equal. f_equal; (f_equal; lia).
    + destruct (Z.eq_dec j k) as [->|Hne].
      * rewrite !aget_out_of_range; auto; rewrite ?aset_length; lia.
      * rewrite aget_aset_other by auto. reflexivity.
Qed.

(** A well-formed buffer fills the whole gray array, pixel by pixel. *)
Lemma grayscale_get img k :
  wellFormed img -> 0 <= k < width img * height img ->
  aget (grayscale img) k = Some (grayAt (data img) k).
Proof.
  intros (Hw & Hh & Hlen) Hk; unfold grayscale.
  rewrite (grayLoop_get (Z.to_nat (width img * height img))) by lia.
  rewrite repeat_length, Z2Nat.id by lia.
  destruct (Z.leb_spec 0 k); [|lia].
  destruct (Z.ltb_spec k (0 + width img * height img)); [|lia].
  destruct (Z.ltb_spec k (width img * height img)); [|lia].
  simpl. f_equal; f_equal; lia.
Qed.

Lemma constant_array (l : list Z) v n :
  length l = n ->
  (forall j, 0 <= j < Z.of_nat n -> aget l j = Some v) ->
  l = repeat v n.
Proof.
  revert n; induction l as [|h t IH]; intros n Hlen Hall; subst n; simpl; auto.
  f_equal.
  - specialize (Hall 0); simpl in Hall. unfold aget in Hall; simpl in Hall.
    assert (Some h = Some v) by (apply Hall; lia). congruence.
  - apply IH; auto. intros j Hj.
    specialize (Hall (j + 1)). unfold aget in *.
    destruct (Z.ltb_spec (j + 1) 0); [lia|].
    destruct (Z.ltb_spec j 0); [lia|].
    replace (Z.to_nat (j + 1)) with (S (Z.to_nat j)) in Hall by lia.
    simpl in Hall. apply Hall. simpl length. lia.
Qed.

(** If every pixel of a well-formed buffer has the gray value [v], the gray
    array is constant. *)
Lemma grayscale_constant img v :
  wellFormed img ->
  (forall k, 0 <= k < width img * height img -> grayAt (data img) k = v) ->
  grayscale img = repeat v (Z.to_nat (width img * height img)).
Proof.
  intros Hwf Hall. apply constant_array; [apply grayscale_length|].
  intros j Hj. rewrite grayscale_get by (auto; lia).
  f_equal; apply Hall; lia.
Qed.

(** ** Runs of the pipeline on small inputs *)

Lemma byteAt_uniform r g b a n k :
  0 <= k < Z.of_nat n ->
  byteAt (concat (repeat [r; g; b; a] n)) (4 * k) = r
  /\ byteAt (concat (repeat [r; g; b; a] n)) (4 * k + 1) = g
  /\ byteAt (concat (repeat [r; g; b; a] n)) (4 * k + 2) = b.
Proof.
  revert k; induction n as [|n IH]; intros k Hk; [lia|].
  simpl repeat; simpl concat.
  destruct (Z.eq_dec k 0) as [->|Hne]; [repeat split|].
  rewrite !byteAt_skip4 by lia.
  replace (4 * k - 4) with (4 * (k - 1)) by lia.
  replace (4 * k + 1 - 4) with (4 * (k - 1) + 1) by lia.
  replace (4 * k + 2 - 4) with (4 * (k - 1) + 2) by lia.
  apply IH; lia.
Qed.

Lemma uniform_length w h r g b a :
  0 <= w * h -> Z.of_nat (length (data (uniform w h r g b a))) = w * h * 4.
Proof.
  intros Hwh; simpl.
  assert (E : forall n, length (concat (repeat [r; g; b; a] n)) = (4 * n)%nat).
  { induction n as [|n IH]; simpl in *; [reflexivity | rewrite IH; lia]. }
  rewrite E; lia.
Qed.


(** C2, refuted as stated: a uniform black 10 x 5 image gives one shape. *)
Lemma uniform_dark_image_has_a_shape :
  exists r s,
    fst (detectShapes sampleHypot sampleAcos darkStrip sampleWorld) = Returned r
    /\ shapes r = [s] /\ area s = 50.
Proof.
  eexists; eexists; split; [vm_compute; reflexivity|].
  split; reflexivity.
Qed.

(** C7, refuted as stated: the same pixel, run against two clocks, gives
    two different values of [processingTime]. *)
Lemma processingTime_differs :
  exists r1 r2,
    fst (detectShapes sampleHypot sampleAcos onePixel sampleWorld) = Returned r1
    /\ fst (detectShapes sampleHypot sampleAcos onePixel fastWorld) = Returned r2
    /\ processingTime r1 <> processingTime r2.
Proof.
  eexists; eexists; split; [vm_compute; reflexivity|].
  split; [vm_compute; reflexivity|].
  vm_compute; discriminate.
Qed.

(** ** What the scan collects *)

Section RegionFacts.

Variable hypot : f64 -> f64 -> f64.
Variable acos : f64 -> f64.

(** Every region that the scan collects is the measurement of the final
    state of a flood fill that the area filter let through. *)
Lemma floodFill_region W H binary vis sx sy vis' r :
  floodFill hypot acos W H binary vis sx sy = Some (vis', Some r) ->
  exists st,
    fillLoop W H binary (fillBudget vis) (fillStart vis sx sy) = Some st
    /\ tooSmall W H (Z.of_nat (length (pixels st))) = false
    /\ r = measure hypot acos W H binary st.
Proof.
  unfold floodFill.
  destruct (fillLoop W H binary (fillBudget vis) (fillStart vis sx sy))
    as [st|]; [|discriminate].
  destruct (tooSmall W H (Z.of_nat (length (pixels st)))) eqn:E;
    intros [= _ <-]; eauto.
Qed.

(** A property of all measurements holds of all collected regions. *)
Lemma detectRegions_Forall (P : Region -> Prop) img rs :
  (forall W H binary st, P (measure hypot acos W H binary st)) ->
  detectRegions hypot acos img = Returned rs ->
  Forall P rs.
Proof.
  intros HP; unfold detectRegions, regionsOf.
  destruct (badLength (width img * height img)); [discriminate|].
  set (W := width img); set (H := height img).
  set (binary := binarize _ _).
  destruct (scan_invariant hypot acos W H binary
          (fun s => Forall P (sc_found s))) as (s & -> & _ & Hs).
  - intros s x y vis' [r|] _ _ _ HQ _ _ E; simpl; auto.
    apply Forall_app; split; auto.
    destruct (floodFill_region _ _ _ _ _ _ _ _ E) as (st & _ & _ & ->).
    constructor; auto.
  - constructor.
  - intros [= <-]; exact Hs.
Qed.

Lemma classify_table c circ fill :
  (c <= 3 -> classify c circ fill = triangle)
  /\ (4 <= c <= 5 ->
      classify c circ fill =
        if fltb (lit 70 100) circ then rectangle else pentagon)
  /\ (7 < c ->
      classify c circ fill =
        if fltb fill (lit 55 100) && fltb circ (lit 6 10) then star
        else circle)
  /\ (c = 6 \/ c = 7 -> classify c circ fill = circle).
Proof.
  unfold classify.
  destruct (Z.leb_spec c 3), (Z.leb_spec c 5), (Z.ltb_spec 7 c);
    repeat split; intros; try lia; reflexivity.
Qed.

End RegionFacts.

(** ** The order of binary64 values *)

Lemma lexlt_irrefl a : ~ lexlt a a.
Proof. destruct a as [[a b] c]; unfold lexlt; lia. Qed.

Lemma lexlt_asym a b : lexlt a b -> lexlt b a -> False.
Proof. destruct a as [[a1 a2] a3], b as [[b1 b2] b3]; unfold lexlt; lia. Qed.

Lemma lexlt_trans a b c : lexlt a b -> lexlt b c -> lexlt a c.
Proof.
  destruct a as [[a1 a2] a3], b as [[b1 b2] b3], c as [[c1 c2] c3];
    unfold lexlt; lia.
Qed.

(** What [SFcompare] answers, in terms of the keys. *)
Lemma compare_key x y :
  match SFcompare x y with
  | None => is_nan x = true \/ is_nan y = true
  | Some c =>
      is_nan x = false /\ is_nan y = false
      /\ match c with
         | Lt => lexlt (key x) (key y)
         | Eq => key x = key y
         | Gt => lexlt (key y) (key x)
         end
  end.
Proof.
  destruct x as [sx|sx| |sx mx ex], y as [sy|sy| |sy my ey]; simpl; auto;
    try destruct sx; try destruct sy; simpl; auto;
    try (repeat split; lia);
    change (Pos.compare_cont Eq mx my) with (Pos.compare mx my);
    destruct (Z.compare_spec ex ey); destruct (Pos.compare_spec mx my);
    simpl; subst; repeat split; auto; lia.
Qed.

Lemma fltb_key x y :
  fltb x y = true <->
  is_nan x = false /\ is_nan y = false /\ lexlt (key x) (key y).
Proof.
  unfold fltb, SFltb. pose proof (compare_key x y) as Hc.
  destruct (SFcompare x y) as [[| |]|].
  - split; [discriminate|]. intros (_ & _ & Hlt).
    destruct Hc as (_ & _ & Hc); rewrite Hc in Hlt.
    destruct (lexlt_irrefl _ Hlt).
  - split; [intros _; exact Hc | reflexivity].
  - split; [discriminate|]. intros (_ & _ & Hlt).
    destruct Hc as (_ & _ & Hc). destruct (lexlt_asym _ _ Hlt Hc).
  - split; [discriminate|]. intros (Hx & Hy & _). destruct Hc; congruence.
Qed.

Lemma fleb_key x y :
  fleb x y = true <->
  is_nan x = false /\ is_nan y = false
  /\ (lexlt (key x) (key y) \/ key x = key y).
Proof.
  unfold fleb, SFleb. pose proof (compare_key x y) as Hc.
  destruct (SFcompare x y) as [[| |]|].
  - split; [|reflexivity]. intros _. destruct Hc as (? & ? & ?); auto.
  - split; [|reflexivity]. intros _. destruct Hc as (? & ? & ?); auto.
  - split; [discriminate|]. intros (_ & _ & Hle).
    destruct Hc as (_ & _ & Hc). destruct Hle as [Hlt | He].
    + destruct (lexlt_asym _ _ Hlt Hc).
    + rewrite He in Hc. destruct (lexlt_irrefl _ Hc).
  - split; [discriminate|]. intros (Hx & Hy & _). destruct Hc; congruence.
Qed.

Lemma fltb_irrefl x : fltb x x = false.
Proof.
  destruct (fltb x x) eqn:E; auto.
  apply fltb_key in E; destruct E as (_ & _ & E).
  destruct (lexlt_irrefl _ E).
Qed.

Lemma fltb_trans x y z :
  fltb x y = true -> fltb y z = true -> fltb x z = true.
Proof.
  rewrite !fltb_key; intros (Hx & _ & Hxy) (_ & Hz & Hyz).
  repeat split; auto. eapply lexlt_trans; eauto.
Qed.

Lemma fltb_fleb_trans x y z :
  fltb x y = true -> fleb y z = true -> fltb x z = true.
Proof.
  rewrite !fltb_key, fleb_key; intros (Hx & _ & Hxy) (_ & Hz & Hyz).
  repeat split; auto. destruct Hyz as [Hyz | <-]; auto.
  eapply lexlt_trans; eauto.
Qed.

(** ** The Otsu stage *)

Section OtsuFacts.

Variables (hist : list Z) (total : Z).
Hypothesis Hcounts : counts hist.
Hypothesis Htotal : total = cumulative hist 256.

Lemma bin_nonneg i : 0 <= bin hist i.
Proof.
  unfold bin, aget. destruct (i <? 0); [lia|].
  destruct (nth_error hist (Z.to_nat i)) as [c|] eqn:E; [|lia].
  destruct Hcounts as [_ Hall]. rewrite Forall_forall in Hall.
  apply Hall. eapply nth_error_In; eauto.
Qed.

Lemma cumulative_nonneg n : 0 <= cumulative hist n.
Proof.
  induction n as [|n IH]; simpl; [lia|].
  pose proof (bin_nonneg (Z.of_nat n)); lia.
Qed.

Lemma cumulative_mono n m :
  (n <= m)%nat -> cumulative hist n <= cumulative hist m.
Proof.
  induction 1 as [|m _ IH]; [lia|]. simpl.
  pose proof (bin_nonneg (Z.of_nat m)); lia.
Qed.

Lemma sumLoop_cumulative n : forall k,
  sumLoop n (Z.of_nat k) hist (cumulativeSum hist k)
  = cumulativeSum hist (k + n).
Proof.
  induction n as [|n IH]; intros k; cbn [sumLoop].
  - f_equal; lia.
  - replace (Z.of_nat k + 1) with (Z.of_nat (S k)) by lia.
    change (cumulativeSum hist k + Z.of_nat k * bin hist (Z.of_nat k))
      with (cumulativeSum hist (S k)).
    rewrite (IH (S k)). f_equal; lia.
Qed.

Lemma wBAt_of_nat k : wBAt hist (Z.of_nat k) = cumulative hist (S k).
Proof. unfold wBAt; rewrite Nat2Z.id; reflexivity. Qed.

Lemma sumBAt_of_nat k : sumBAt hist (Z.of_nat k) = cumulativeSum hist (S k).
Proof. unfold sumBAt; rewrite Nat2Z.id; reflexivity. Qed.

(** Once the foreground is empty, no later split is valid. *)
Lemma no_split_after k j :
  total - cumulative hist (S k) = 0 -> (k <= j)%nat ->
  ~ validSplit hist total (Z.of_nat j).
Proof.
  intros Hk Hkj (_ & _ & Hj). rewrite wBAt_of_nat in Hj.
  pose proof (cumulative_mono (S k) (S j)); lia.
Qed.

(** Splits the five closed parts of the second case of [otsuChosen]. *)
Ltac chosen_parts :=
  split; [|split; [|split; [|split; [|split]]]].

Lemma otsuChosen_stop k t m :
  total - cumulative hist (S k) = 0 ->
  otsuChosen hist total k t m -> otsuChosen hist total 256 t m.
Proof.
  intros Hk [(Ht & Hm & Hall) | (t' & Ht' & Ht & Hv & Hm & Hpos & Hall)].
  - left; repeat split; auto. intros j Hj Hvj.
    destruct (Nat.lt_ge_cases j k); auto.
    destruct (no_split_after k j Hk); auto.
  - right; exists t'.
    assert (t' < 256)%nat by (destruct Hv as (Hr & _); lia).
    chosen_parts; auto.
    intros j Hj Hvj. destruct (Nat.lt_ge_cases j k) as [Hlt|Hge].
    + exact (Hall j Hlt Hvj).
    + destruct (no_split_after k j Hk); auto.
Qed.

(** The scan, from bin [k] on, ends with the choice among all bins. *)
Lemma otsuLoop_chosen n : forall k st,
  (k + n = 256)%nat ->
  otsuInvariant hist total k st ->
  exists m,
    otsuChosen hist total 256
      (otsuLoop n (Z.of_nat k) hist total (cumulativeSum hist 256) st) m.
Proof.
  induction n as [|n IH]; intros k st Hkn (HwB & HsumB & Hch).
  - replace k with 256%nat in Hch by lia. simpl; eauto.
  - cbn [otsuLoop].
    assert (Hw : wB st + bin hist (Z.of_nat k) = cumulative hist (S k))
      by (simpl; lia).
    assert (Hs : sumB st + Z.of_nat k * bin hist (Z.of_nat k)
               = cumulativeSum hist (S k)) by (simpl; lia).
    replace (Z.of_nat k + 1) with (Z.of_nat (S k)) by lia.
    pose proof (cumulative_nonneg (S k)) as Hnn.
    pose proof (cumulative_nonneg k) as Hnk.
    pose proof (bin_nonneg (Z.of_nat k)) as Hbin.
    pose proof (cumulative_mono (S k) 256 ltac:(lia)) as Hle.
    rewrite Hw.
    destruct (Z.eqb_spec (cumulative hist (S k)) 0) as [Hz|Hz].
    + (* nothing below the split yet *)
      apply IH; [lia|]. repeat split; cbn [wB sumB thresh maxVar]; auto.
      * rewrite HsumB. simpl in Hz |- *.
        assert (bin hist (Z.of_nat k) = 0) by lia. lia.
      * assert (Hinv : ~ validSplit hist total (Z.of_nat k)).
        { intros (_ & Hp & _). rewrite wBAt_of_nat in Hp. lia. }
        destruct Hch
          as [(Ht & Hm & Hall) | (t' & Ht' & Ht & Hv & Hm & Hpos & Hall)].
        -- left; repeat split; auto. intros j Hj Hvj.
           destruct (Nat.eq_dec j k) as [->|]; [contradiction|].
           apply Hall; auto; lia.
        -- right; exists t'. chosen_parts; auto; try lia.
           intros j Hj Hvj.
           destruct (Nat.eq_dec j k) as [->|]; [contradiction|].
           apply Hall; auto; lia.
    + destruct (Z.eqb_spec (total - cumulative hist (S k)) 0) as [Hf|Hf].
      * (* the foreground is empty: the scan stops *)
        exists (maxVar st). eapply otsuChosen_stop; eauto.
      * assert (Hvk : validSplit hist total (Z.of_nat k)).
        { unfold validSplit. rewrite wBAt_of_nat. lia. }
        rewrite Hs.
        assert (Hb : between (cumulative hist (S k))
                       (total - cumulative hist (S k))
                       (cumulativeSum hist (S k)) (cumulativeSum hist 256)
                     = betweenAt hist total (Z.of_nat k)).
        { unfold betweenAt. rewrite wBAt_of_nat, sumBAt_of_nat. reflexivity. }
        rewrite Hb.
        set (b := betweenAt hist total (Z.of_nat k)) in *.
        destruct (fltb (maxVar st) b) eqn:Hgt.
        -- (* a larger variance: the split moves to [k] *)
           apply IH; [lia|]. repeat split; cbn [wB sumB thresh maxVar]; auto.
           right; exists k.
           assert (Hpos : fltb (num 0) b = true).
           { destruct Hch as [(_ & Hm & _) | (t' & _ & _ & _ & Hm & Hp & _)].
             - rewrite <- Hm; exact Hgt.
             - eapply fltb_trans; eauto. }
           chosen_parts; auto; try lia.
           intros j Hj Hvj. split.
           ++ destruct (Nat.eq_dec j k) as [->|Hne]; [apply fltb_irrefl|].
              destruct (fltb b (betweenAt hist total (Z.of_nat j))) eqn:E; auto.
              pose proof (fltb_trans _ _ _ Hgt E) as Hc.
              destruct Hch
                as [(_ & Hm & Hall) | (t' & _ & _ & _ & Hm & _ & Hall)].
              ** rewrite Hm in Hc. rewrite Hall in Hc; auto; lia.
              ** destruct (Hall j ltac:(lia) Hvj) as [Hc' _]. congruence.
           ++ intros Hjk.
              destruct (fleb b (betweenAt hist total (Z.of_nat j))) eqn:E; auto.
              pose proof (fltb_fleb_trans _ _ _ Hgt E) as Hc.
              destruct Hch
                as [(_ & Hm & Hall) | (t' & _ & _ & _ & Hm & _ & Hall)].
              ** rewrite Hm in Hc. rewrite Hall in Hc; auto; lia.
              ** destruct (Hall j ltac:(lia) Hvj) as [Hc' _]. congruence.
        -- (* not larger: the choice stays *)
           apply IH; [lia|]. repeat split; cbn [wB sumB thresh maxVar]; auto.
           destruct Hch
             as [(Ht & Hm & Hall) | (t' & Ht' & Ht & Hv & Hm & Hpos & Hall)].
           ++ left; repeat split; auto. intros j Hj Hvj.
              destruct (Nat.eq_dec j k) as [->|]; [|apply Hall; auto; lia].
              rewrite <- Hm; exact Hgt.
           ++ right; exists t'. chosen_parts; auto; try lia.
              intros j Hj Hvj.
              destruct (Nat.eq_dec j k) as [->|]; [|apply Hall; auto; lia].
              split; [exact Hgt | intros; lia].
Qed.

End OtsuFacts.

(** The choice of the whole scan. *)
Lemma otsu_chosen hist total :
  counts hist -> total = cumulative hist 256 ->
  exists m, otsuChosen hist total 256 (otsu hist total) m.
Proof.
  intros Hc Ht. unfold otsu.
  assert (Hsum : sumLoop 256 0 hist 0 = cumulativeSum hist 256)
    by apply (sumLoop_cumulative hist 256 0).
  rewrite Hsum.
  destruct (otsuLoop_chosen hist total Hc Ht 256 0%nat otsuInit) as [m Hm].
  { reflexivity. }
  { repeat split. left; repeat split. intros j Hj; lia. }
  exists m. exact Hm.
Qed.

(** Without a split that has two non-empty classes the threshold is the
    default. *)
Lemma otsu_without_split hist total :
  counts hist -> total = cumulative hist 256 ->
  (forall i, ~ validSplit hist total i) -> otsu hist total = 127.
Proof.
  intros Hc Ht Hnone.
  destruct (otsu_chosen hist total Hc Ht)
    as [m [(H127 & _) | (t' & _ & _ & Hv & _)]]; auto.
  destruct (Hnone _ Hv).
Qed.

(** *** The histogram of the pipeline *)

Lemma toUint8Clamp_byte x : 0 <= toUint8Clamp x <= 255.
Proof.
  destruct x as [s|s| |s m e]; cbn [toUint8Clamp]; try lia;
    try (destruct s; lia).
  destruct s; [lia|].
  destruct (Z.leb_spec 0 e).
  - pose proof (Z.shiftl_nonneg (Z.pos m) e). lia.
  - assert (Hd : 0 < Z.shiftl 1 (- e)).
    { rewrite Z.shiftl_1_l. apply Z.pow_pos_nonneg; lia. }
    assert (Hq : 0 <= Z.pos m / Z.shiftl 1 (- e)).
    { apply Z.div_pos; lia. }
    cbv zeta.
    destruct (2 * (Z.pos m mod Z.shiftl 1 (- e)) ?= Z.shiftl 1 (- e));
      try destruct (Z.even _); lia.
Qed.

Lemma Forall_upd (P : Z -> Prop) n v a :
  Forall P a -> P v -> Forall P (upd n v a).
Proof.
  intros Ha Hv; revert n; induction Ha as [|h t Hh Ht IH]; intros [|n];
    simpl; auto.
Qed.

Lemma Forall_aset (P : Z -> Prop) a i v :
  Forall P a -> P v -> Forall P (aset a i v).
Proof. unfold aset; destruct (i <? 0); auto using Forall_upd. Qed.

Lemma grayLoop_bytes d : forall k gray,
  bytes gray -> bytes (grayLoop d k gray).
Proof.
  induction d as [d IH] using (well_founded_induction
                                 (Wf_nat.well_founded_ltof _ (@length Z))).
  intros k gray Hg; destruct d as [|r [|g [|b [|a rest]]]]; cbn [grayLoop];
    auto; try (apply Forall_aset; auto using toUint8Clamp_byte).
  apply IH; [unfold Wf_nat.ltof; cbn [length]; lia|].
  apply Forall_aset; auto. apply toUint8Clamp_byte.
Qed.

Lemma grayscale_bytes img : bytes (grayscale img).
Proof.
  apply grayLoop_bytes. apply Forall_forall.
  intros v Hv; apply repeat_spec in Hv; lia.
Qed.

Lemma bin_aset h g v k :
  0 <= g < Z.of_nat (length h) ->
  bin (aset h g v) k = if k =? g then v else bin h k.
Proof.
  intros Hg; unfold bin. destruct (Z.eqb_spec k g) as [->|Hne].
  - rewrite aget_aset_same; auto.
  - rewrite aget_aset_other; auto.
Qed.

Lemma cumulative_aset h g v n :
  0 <= g < Z.of_nat (length h) ->
  cumulative (aset h g v) n
  = cumulative h n + (if g <? Z.of_nat n then v - bin h g else 0).
Proof.
  intros Hg; induction n as [|n IH]; cbn [cumulative].
  - destruct (Z.ltb_spec g (Z.of_nat 0)); lia.
  - rewrite IH, bin_aset by auto.
    destruct (Z.eqb_spec (Z.of_nat n) g) as [He|Hne]; [rewrite He|];
      destruct (Z.ltb_spec g (Z.of_nat n));
      destruct (Z.ltb_spec g (Z.of_nat (S n)));
      rewrite ?Z.ltb_irrefl; lia.
Qed.

(** The histogram of a buffer of bytes has 256 counts, none negative, and
    their sum is the number of pixels. *)
Lemma histogram_counts gray :
  bytes gray ->
  counts (histogram gray)
  /\ cumulative (histogram gray) 256 = Z.of_nat (length gray).
Proof.
  unfold histogram.
  assert (Hgen : forall h, counts h -> bytes gray ->
            counts (fold_left (fun hist g => aset hist g (bin hist g + 1)) gray h)
            /\ cumulative (fold_left (fun hist g => aset hist g (bin hist g + 1))
                             gray h) 256
               = cumulative h 256 + Z.of_nat (length gray)).
  { induction gray as [|g gray IH]; intros h Hh Hb; cbn [fold_left length].
    - split; auto; lia.
    - inversion Hb as [|? ? Hg Hb']; subst. destruct Hh as [Hl Hnn].
      assert (Hb0 : 0 <= bin h g).
      { unfold bin, aget. destruct (g <? 0); [lia|].
        destruct (nth_error h (Z.to_nat g)) eqn:E; [|lia].
        rewrite Forall_forall in Hnn. apply Hnn. eapply nth_error_In; eauto. }
      destruct (IH (aset h g (bin h g + 1))) as [Hc Hs]; auto.
      { split; [rewrite aset_length; auto|]. apply Forall_aset; auto. lia. }
      split; auto. rewrite Hs, cumulative_aset by lia.
      destruct (Z.ltb_spec g (Z.of_nat 256)); lia. }
  intros Hb. apply (Hgen (repeat 0 256%nat)); [|exact Hb].
  split; [apply repeat_length|]. apply Forall_forall.
  intros v Hv; apply repeat_spec in Hv; lia.
Qed.

(** The Otsu stage of the pipeline runs on such a histogram. *)
Lemma otsu_inputs img :
  0 <= width img * height img ->
  counts (histogram (grayscale img))
  /\ width img * height img = cumulative (histogram (grayscale img)) 256.
Proof.
  intros Hwh. destruct (histogram_counts _ (grayscale_bytes img)) as [Hc Hs].
  split; auto. rewrite Hs, grayscale_length. lia.
Qed.

(** Two gray levels: every split from 10 to 199 separates them in the same
    way, and the scan keeps the first. *)
Example otsu_twoLevels : otsu (histogram twoLevels) 5 = 10.
Proof. vm_compute; reflexivity. Qed.

(** ** Flood fill: what a call marks and collects *)

Section FloodFacts.

Variables (W H : Z) (binary vis0 : list Z) (start : Z * Z).

Hypothesis Hlen0 : length vis0 = Z.to_nat (W * H).
Hypothesis Hclosed0 : closed W H binary vis0.
Hypothesis Hstart_in : inside W H start.
Hypothesis Hstart_fg : foreground W binary start.
Hypothesis Hstart_new : ~ marked W vis0 start.

Lemma neighbours_sym p n : In n (neighbours p) -> In p (neighbours n).
Proof.
  destruct p as [x y], n as [nx ny]; unfold neighbours; simpl.
  intros [E|[E|[E|[E|[]]]]]; injection E as <- <-.
  - right; left; f_equal; lia.
  - left; f_equal; lia.
  - do 3 right; left; f_equal; lia.
  - do 2 right; left; f_equal; lia.
Qed.

Lemma marked_aset vis p q :
  length vis = Z.to_nat (W * H) -> inside W H p -> inside W H q ->
  (marked W (aset vis (getIndex W (fst p) (snd p)) 1) q
   <-> q = p \/ marked W vis q).
Proof.
  intros Hl [Hpx Hpy] [Hqx Hqy]; unfold marked.
  pose proof (index_range W H _ _ Hpx Hpy) as Hi.
  destruct (Z.eq_dec (getIndex W (fst q) (snd q)) (getIndex W (fst p) (snd p)))
    as [E|E].
  - rewrite E, aget_aset_same by lia. split; [|reflexivity].
    intros _; left. destruct (index_inj W _ _ _ _ Hqx Hpx E).
    destruct p, q; simpl in *; congruence.
  - rewrite aget_aset_other by auto. split; auto.
    intros [->|Hm]; [contradiction | exact Hm].
Qed.

Lemma fillStart_invariant :
  fillInvariant W H binary vis0 start (fillStart vis0 (fst start) (snd start)).
Proof.
  destruct Hstart_in as [Hx Hy].
  constructor; cbn [fillStart stack visited pixels minX maxX minY maxY].
  - intros p n Hp Hm Hn Hin Hfg; left.
    exact (Hclosed0 p n Hp Hm Hn Hin Hfg).
  - intros p [].
  - intros p _ Hm; left; exact Hm.
  - intros p _ Hm; exact Hm.
  - reflexivity.
  - intros p [].
  - lia.
  - right; destruct start; auto.
Qed.

(** Each round of the loop keeps the invariant. *)
Lemma fillStep_invariant p rest st :
  length (visited st) = Z.to_nat (W * H) ->
  fillInvariant W H binary vis0 start st ->
  stack st = p :: rest ->
  fillInvariant W H binary vis0 start (fillStep W H binary p rest st).
Proof.
  intros Hl [Hfr Hpx Hnew Hold Hcnt Hbox Hbnd Hst] Hstack.
  destruct (fillStep_cases W H binary p rest st)
    as [[-> Hskip]
     | (Ho & Hv & Hb & Es & Ev & Ep & EminX & EmaxX & EminY & EmaxY)].
  - (* the cell is skipped *)
    constructor; simpl; auto.
    + intros q n Hq Hm Hn Hin Hfg.
      destruct (Hfr q n Hq Hm Hn Hin Hfg) as [Hmn | Hs]; auto.
      rewrite Hstack in Hs; destruct Hs as [<- | Hs]; auto.
      destruct Hskip as [Hout | [Hmk | Hbg]].
      * apply outside_bounds in Hout. destruct Hout; exact Hin.
      * left; exact Hmk.
      * unfold foreground in Hfg; congruence.
    + destruct Hst as [Hs | (Hp0 & Hs0 & Hv0)]; auto.
      exfalso. rewrite Hs0 in Hstack; injection Hstack as <- <-.
      destruct Hskip as [Hout | [Hmk | Hbg]].
      * apply outside_bounds in Hout. destruct Hout; exact Hstart_in.
      * rewrite Hv0 in Hmk. exact (Hstart_new Hmk).
      * unfold foreground in Hstart_fg; congruence.
  - (* the cell is visited *)
    apply inside_bounds in Ho.
    assert (Hp : inside W H p) by exact Ho.
    destruct Ho as [Hx Hy].
    pose proof (index_range W H _ _ Hx Hy) as Hi.
    assert (Hnm : ~ marked W (visited st) p).
    { unfold marked; congruence. }
    assert (Hmono : forall q, inside W H q ->
            (marked W (visited (fillStep W H binary p rest st)) q
             <-> q = p \/ marked W (visited st) q)).
    { intros q Hq; rewrite Ev; apply marked_aset; auto. }
    constructor.
    + intros q n Hq Hm Hn Hin Hfg. rewrite Es.
      apply Hmono in Hm; auto. destruct Hm as [-> | Hm].
      * right. unfold neighbours in Hn; simpl in Hn |- *.
        destruct Hn as [<-|[<-|[<-|[<-|[]]]]]; auto.
      * destruct (Hfr q n Hq Hm Hn Hin Hfg) as [Hmn | Hs].
        -- left; apply Hmono; auto.
        -- rewrite Hstack in Hs; destruct Hs as [<- | Hs].
           ++ left; apply Hmono; auto.
           ++ right; simpl; auto.
    + rewrite Ep; intros q [<- | Hq].
      * split; [exact Hp|]. split; [exact Hb|].
        split; [apply Hmono; auto|].
        intros Hm0; apply Hnm; auto.
      * destruct (Hpx q Hq) as (Hqi & Hqf & Hqm & Hq0).
        split; [exact Hqi|]. split; [exact Hqf|].
        split; [apply Hmono; auto | exact Hq0].
    + rewrite Ep; intros q Hq Hm. apply Hmono in Hm; auto.
      destruct Hm as [-> | Hm]; [right; left; reflexivity|].
      destruct (Hnew q Hq Hm); auto. right; right; auto.
    + intros q Hq Hm. apply Hmono; auto.
    + rewrite Ep, Ev. cbn [length].
      rewrite <- Hcnt.
      rewrite <- (unvisited_visit (visited st) (getIndex W (fst p) (snd p))).
      * lia.
      * apply truthy_false_in_range; auto. lia.
    + rewrite Ep, EminX, EmaxX, EminY, EmaxY. intros q [<- | Hq];
        [|destruct (Hbox q Hq)];
        destruct (Z.ltb_spec (fst p) (minX st));
        destruct (Z.ltb_spec (maxX st) (fst p));
        destruct (Z.ltb_spec (snd p) (minY st));
        destruct (Z.ltb_spec (maxY st) (snd p)); lia.
    + rewrite EminX, EmaxX, EminY, EmaxY.
      destruct (Z.ltb_spec (fst p) (minX st));
        destruct (Z.ltb_spec (maxX st) (fst p));
        destruct (Z.ltb_spec (snd p) (minY st));
        destruct (Z.ltb_spec (maxY st) (snd p)); lia.
    + rewrite Ep. destruct Hst as [Hs | (Hp0 & Hs0 & Hv0)].
      * left; right; exact Hs.
      * rewrite Hs0 in Hstack; injection Hstack as <- <-. left; left; auto.
Qed.


(** When the loop ends, the marked cells are closed again. *)
Lemma final_closed st :
  fillInvariant W H binary vis0 start st -> stack st = [] ->
  closed W H binary (visited st).
Proof.
  intros Hinv Hst p n Hp Hm Hn Hin Hfg.
  destruct (inv_frontier _ _ _ _ _ _ Hinv p n Hp Hm Hn Hin Hfg) as [Hmn | Hs];
    auto.
  rewrite Hst in Hs; destruct Hs.
Qed.

Lemma final_start st :
  fillInvariant W H binary vis0 start st -> stack st = [] ->
  In start (pixels st).
Proof.
  intros Hinv Hst.
  destruct (inv_start _ _ _ _ _ _ Hinv) as [Hs | (_ & Hs & _)]; auto.
  congruence.
Qed.

Lemma rightmost (l : list (Z * Z)) :
  l <> [] -> exists p, In p l /\ forall q, In q l -> fst q <= fst p.
Proof.
  induction l as [|a l IH]; [congruence|]. intros _.
  destruct l as [|b l].
  - exists a; split; [left; auto|]. intros q [<-|[]]; lia.
  - destruct IH as (p & Hp & Hmax); [discriminate|].
    destruct (Z.le_gt_cases (fst p) (fst a)).
    + exists a; split; [left; auto|].
      intros q [<-|Hq]; [lia|]. specialize (Hmax q Hq); lia.
    + exists p; split; [right; auto|].
      intros q [<-|Hq]; [lia|]. apply Hmax; auto.
Qed.

Lemma isBorder_right x y :
  outside W H (x + 1) y = true
  \/ same (aget binary (getIndex W (x + 1) y)) 0 = true ->
  isBorder W H binary (x, y) = true.
Proof.
  intros Hn; unfold isBorder; cbn [existsb].
  destruct Hn as [-> | ->]; rewrite ?orb_true_r; reflexivity.
Qed.

(** A region that is collected has a pixel on its border: its rightmost
    pixel has a neighbour outside the image or in the background. *)
Lemma final_border st :
  fillInvariant W H binary vis0 start st -> stack st = [] ->
  exists p, In p (pixels st) /\ isBorder W H binary p = true.
Proof.
  intros Hinv Hst.
  destruct (rightmost (pixels st)) as (p & Hp & Hmax).
  { intros E. pose proof (final_start st Hinv Hst) as Hs.
    rewrite E in Hs; destruct Hs. }
  exists p; split; auto.
  destruct (inv_pixels _ _ _ _ _ _ Hinv p Hp) as (Hpi & Hpf & Hpm & Hp0).
  destruct p as [x y]. apply isBorder_right.
  destruct (outside W H (x + 1) y) eqn:Ho; auto.
  destruct (same (aget binary (getIndex W (x + 1) y)) 0) eqn:Hb; auto.
  exfalso.
  assert (Hni : inside W H (x + 1, y)) by (apply inside_bounds in Ho; exact Ho).
  assert (Hnn : In (x + 1, y) (neighbours (x, y))) by (left; reflexivity).
  assert (Hnm : marked W (visited st) (x + 1, y)).
  { apply (final_closed st Hinv Hst (x, y)); auto. }
  destruct (inv_new _ _ _ _ _ _ Hinv _ Hni Hnm) as [Hold | Hnew].
  - apply Hp0. apply (Hclosed0 (x + 1, y) (x, y)); auto.
    apply neighbours_sym; exact Hnn.
  - specialize (Hmax _ Hnew). simpl in Hmax. lia.
Qed.

End FloodFacts.

(** ** The regions of the scan *)

Section RegionsOfScan.

Variable hypot : f64 -> f64 -> f64.
Variable acos : f64 -> f64.
Variables (W H : Z) (binary : list Z).

Lemma nothing_marked n p : ~ marked W (repeat 0 n) p.
Proof.
  unfold marked, aget. destruct (_ <? 0); [discriminate|].
  destruct (nth_error (repeat 0 n) _) as [v|] eqn:E; [|discriminate].
  apply nth_error_In, repeat_spec in E; subst; discriminate.
Qed.

Lemma same_255_foreground o : same o 255 = true -> same o 0 = false.
Proof.
  destruct o as [v|]; simpl; [|reflexivity].
  destruct (Z.eqb_spec v 255), (Z.eqb_spec v 0); auto; try discriminate; lia.
Qed.

(** The scan ends; the marked cells are then closed, and every region
    collected is the measurement of a flood fill that ran to its end from
    an unmarked foreground cell, over a closed set of marked cells. *)
Lemma scan_regions (P : Region -> Prop) :
  (forall vis0 start st,
     length vis0 = Z.to_nat (W * H) ->
     closed W H binary vis0 ->
     inside W H start -> foreground W binary start ->
     ~ marked W vis0 start ->
     fillInvariant W H binary vis0 start st -> stack st = [] ->
     P (measure hypot acos W H binary st)) ->
  exists s,
    scan hypot acos W H binary = Some s
    /\ closed W H binary (sc_visited s)
    /\ Forall P (sc_found s).
Proof.
  intros HP.
  destruct (scan_invariant hypot acos W H binary
          (fun s => closed W H binary (sc_visited s)
                    /\ Forall P (sc_found s)))
    as (s & E & _ & Hs).
  - intros s x y vis' shape Hx Hy Hl [Hc Hf] Hfg Hv E.
    assert (Hin : inside W H (x, y)) by (split; assumption).
    assert (Hfg' : foreground W binary (x, y))
      by (apply same_255_foreground; exact Hfg).
    assert (Hnew : ~ marked W (sc_visited s) (x, y))
      by (unfold marked; simpl; congruence).
    destruct (floodFill_invariant hypot acos W H binary
              (fillInvariant W H binary (sc_visited s) (x, y))
              (sc_visited s) x y) as (st & _ & Hinv & Hst & _ & E').
    + intros p rest s' Hl' Hi Hs'.
      apply fillStep_invariant; auto.
    + exact Hl.
    + apply (fillStart_invariant W H binary (sc_visited s) (x, y)); auto.
    + rewrite E in E'; injection E' as -> ->.
      split; [eapply final_closed; eauto|]. cbn [afterFill sc_found].
      destruct (tooSmall W H _); auto.
      apply Forall_app; split; auto. constructor; auto.
      eapply HP; eauto.
  - split; [|constructor].
    intros p n _ Hm. destruct (nothing_marked _ _ Hm).
  - exists s; destruct Hs; auto.
Qed.

End RegionsOfScan.

Lemma detectRegions_scan hypot acos img :
  detectRegions hypot acos img =
    if badLength (width img * height img) then Threw RangeError
    else match scan hypot acos (width img) (height img) (maskOf img) with
         | None => OutOfFuel
         | Some s => Returned (sc_found s)
         end.
Proof.
  unfold detectRegions, regionsOf, maskOf.
  destruct (badLength _); auto.
  destruct (scan _ _ _ _ _); reflexivity.
Qed.

Lemma isBorder_onBorder W H binary p :
  isBorder W H binary p = true -> onBorder W H binary p.
Proof.
  destruct p as [x y]; unfold isBorder. intros Hb.
  apply existsb_exists in Hb. destruct Hb as ([nx ny] & Hn & Hb).
  exists (nx, ny); split; [exact Hn|].
  apply orb_true_iff in Hb. destruct Hb as [Ho | Hs].
  - left. intros Hi. apply outside_bounds in Ho. apply Ho; exact Hi.
  - right. simpl. destruct (aget binary (getIndex W nx ny)) as [v|];
      [|discriminate]. simpl in Hs. apply Z.eqb_eq in Hs; congruence.
Qed.

(** ** Rounding never loses a positive number *)

Lemma digits2_size p : digits2_pos p = Pos.size p.
Proof. induction p; simpl; congruence. Qed.

Lemma digits_bounds p :
  2 ^ (Zpos (digits2_pos p) - 1) <= Zpos p < 2 ^ Zpos (digits2_pos p).
Proof.
  rewrite digits2_size. split.
  - pose proof (Pos.size_le p) as Hle.
    assert (Hz : 2 ^ Zpos (Pos.size p) <= 2 * Zpos p).
    { rewrite <- Pos2Z.inj_pow. change (2 * Zpos p) with (Zpos p~0). lia. }
    replace (Zpos (Pos.size p)) with (Z.succ (Zpos (Pos.size p) - 1)) in Hz
      by lia.
    rewrite Z.pow_succ_r in Hz by lia. lia.
  - pose proof (Pos.size_gt p) as Hgt.
    rewrite <- Pos2Z.inj_pow. lia.
Qed.

Lemma digits_mono p q :
  Zpos p <= Zpos q -> Zpos (digits2_pos p) <= Zpos (digits2_pos q).
Proof.
  intros Hpq.
  pose proof (digits_bounds p) as [Hp _].
  pose proof (digits_bounds q) as [_ Hq].
  assert (Hlt : 2 ^ (Zpos (digits2_pos p) - 1) < 2 ^ Zpos (digits2_pos q))
    by lia.
  apply Z.pow_lt_mono_r_iff in Hlt; lia.
Qed.

Lemma shr_1_m r : 0 <= shr_m r -> shr_m (shr_1 r) = shr_m r / 2.
Proof.
  destruct r as [m rb sb]; cbn [shr_m shr_1]; intros Hm.
  destruct m as [|p|p]; [reflexivity| |lia].
  destruct p as [p|p|]; cbn [shr_m].
  - apply (Z.div_unique _ _ _ 1); lia.
  - apply (Z.div_unique _ _ _ 0); lia.
  - reflexivity.
Qed.

Lemma shr_1_nonneg r : 0 <= shr_m r -> 0 <= shr_m (shr_1 r).
Proof.
  intros Hr; rewrite shr_1_m by auto. apply Z.div_pos; lia.
Qed.

Lemma iter_shr_nonneg k : forall r,
  0 <= shr_m r -> 0 <= shr_m (iter_pos shr_1 k r).
Proof.
  induction k as [k IH|k IH|]; intros r Hr; cbn [iter_pos];
    auto using shr_1_nonneg.
Qed.

Lemma pow2_double k : 2 ^ Zpos k~0 = 2 ^ Zpos k * 2 ^ Zpos k.
Proof.
  replace (Zpos k~0) with (Zpos k + Zpos k) by lia.
  apply Z.pow_add_r; lia.
Qed.

Lemma pow2_double_succ k : 2 ^ Zpos k~1 = 2 * (2 ^ Zpos k * 2 ^ Zpos k).
Proof.
  replace (Zpos k~1) with (Z.succ (Zpos k + Zpos k)) by lia.
  rewrite Z.pow_succ_r, Z.pow_add_r by lia. reflexivity.
Qed.

Lemma iter_shr_m k : forall r,
  0 <= shr_m r ->
  shr_m (iter_pos shr_1 k r) = shr_m r / 2 ^ Zpos k.
Proof.
  induction k as [k IH|k IH|]; intros r Hr; cbn [iter_pos].
  - assert (Hp : 0 < 2 ^ Zpos k) by (apply Z.pow_pos_nonneg; lia).
    rewrite IH by auto using iter_shr_nonneg, shr_1_nonneg.
    rewrite IH by auto using shr_1_nonneg.
    rewrite shr_1_m, !Z.div_div, pow2_double_succ by lia.
    reflexivity.
  - assert (Hp : 0 < 2 ^ Zpos k) by (apply Z.pow_pos_nonneg; lia).
    rewrite IH by auto using iter_shr_nonneg.
    rewrite IH, !Z.div_div, pow2_double by lia.
    reflexivity.
  - rewrite shr_1_m by auto. reflexivity.
Qed.

(** The shift by [n] bits divides the mantissa by [2 ^ n] and adds [n] to
    the exponent; a shift by nothing or less changes nothing. *)
Lemma shr_spec r e n :
  0 <= shr_m r ->
  shr_m (fst (shr r e n)) = shr_m r / 2 ^ Z.max 0 n
  /\ snd (shr r e n) = e + Z.max 0 n.
Proof.
  intros Hr; destruct n as [|k|k]; cbn [shr fst snd].
  - rewrite Z.div_1_r; split; lia.
  - rewrite iter_shr_m by auto. split; [f_equal; f_equal; lia | lia].
  - rewrite Z.div_1_r; split; lia.
Qed.

Lemma round_nearest_even_bounds m l :
  m <= round_nearest_even m l <= m + 1.
Proof.
  destruct l as [|[| |]]; simpl; try lia. destruct (Z.even m); lia.
Qed.

(** A positive mantissa that is not deep in the subnormal range is rounded
    to a positive number or to infinity, never to zero. *)
Lemma round_aux_positive s m e :
  -1021 <= e + Zpos (digits2_pos m) ->
  (exists m' e',
      binary_round_aux prec emax s (Zpos m) e loc_Exact = S754_finite s m' e'
      /\ e <= e')
  \/ binary_round_aux prec emax s (Zpos m) e loc_Exact = S754_infinity s.
Proof.
  intros He. unfold binary_round_aux, shr_fexp.
  cbn [shr_record_of_loc Zdigits2].
  set (d := Zpos (digits2_pos m)) in *.
  pose proof (digits_bounds m) as [Hlo Hhi]. fold d in Hlo, Hhi.
  set (r0 := {| shr_m := Zpos m; shr_r := false; shr_s := false |}).
  set (n1 := fexp prec emax (d + e) - e).
  assert (Hn1 : n1 = d - 53).
  { unfold n1, fexp, emin, prec, emax. lia. }
  destruct (shr_spec r0 e n1) as [Hm1 He1]; [simpl; lia|].
  destruct (shr r0 e n1) as [r1 e1]. cbn [fst snd] in Hm1, He1.
  change (shr_m r0) with (Zpos m) in Hm1.
  assert (Hpos1 : 1 <= shr_m r1).
  { rewrite Hm1.
    assert (Hp : 0 < 2 ^ Z.max 0 n1) by (apply Z.pow_pos_nonneg; lia).
    assert (Hle : 2 ^ Z.max 0 n1 <= Zpos m).
    { eapply Z.le_trans; [|exact Hlo].
      apply Z.pow_le_mono_r; lia. }
    pose proof (Z.div_str_pos (Zpos m) _ (conj Hp Hle)). lia. }
  pose proof (round_nearest_even_bounds (shr_m r1) (loc_of_shr_record r1))
    as Hrne.
  destruct (round_nearest_even (shr_m r1) (loc_of_shr_record r1))
    as [|q|q] eqn:Eq; try lia.
  cbn [Zdigits2].
  set (r2 := {| shr_m := Zpos q; shr_r := false; shr_s := false |}).
  set (dq := Zpos (digits2_pos q)).
  set (n2 := fexp prec emax (dq + e1) - e1).
  pose proof (digits_bounds q) as [Hqlo Hqhi]. fold dq in Hqlo, Hqhi.
  assert (Hdq : 1 <= dq) by (unfold dq; lia).
  assert (Hn2 : Z.max 0 n2 <= dq - 1).
  { unfold n2, fexp, emin, prec, emax.
    destruct (Z.le_gt_cases n1 0) as [Hn|Hn].
    - (* no first shift: the mantissa has not shrunk *)
      assert (Hr1 : shr_m r1 = Zpos m).
      { rewrite Hm1. replace (Z.max 0 n1) with 0 by lia.
        rewrite Z.pow_0_r, Z.div_1_r; reflexivity. }
      assert (Hmq : Zpos m <= Zpos q) by lia.
      pose proof (digits_mono m q Hmq) as Hd. fold d dq in Hd. lia.
    - lia. }
  destruct (shr_spec r2 e1 n2) as [Hm3 He3]; [simpl; lia|].
  destruct (shr r2 e1 n2) as [r3 e3]. cbn [fst snd] in Hm3, He3.
  change (shr_m r2) with (Zpos q) in Hm3.
  assert (Hpos3 : 1 <= shr_m r3).
  { rewrite Hm3.
    assert (Hp : 0 < 2 ^ Z.max 0 n2) by (apply Z.pow_pos_nonneg; lia).
    assert (Hle : 2 ^ Z.max 0 n2 <= Zpos q).
    { eapply Z.le_trans; [|exact Hqlo].
      apply Z.pow_le_mono_r; lia. }
    pose proof (Z.div_str_pos (Zpos q) _ (conj Hp Hle)). lia. }
  destruct (shr_m r3) as [|m3|m3]; try lia.
  destruct (e3 <=? emax - prec); [left | right; reflexivity].
  exists m3, e3; split; [reflexivity | lia].
Qed.

Lemma num_positive z : 0 < z -> posAbove (-52) (num z).
Proof.
  intros Hz. destruct z as [|m|m]; try lia.
  unfold num, binary_normalize, binary_round, shl_align.
  set (d := Zpos (digits2_pos m)).
  assert (Hd : 1 <= d) by (unfold d; lia).
  assert (Hf : fexp prec emax (d + 0) = d - 53).
  { unfold fexp, emin, prec, emax. lia. }
  rewrite Hf.
  destruct (d - 53 - 0) as [|k|k] eqn:Ek.
  - destruct (round_aux_positive false m 0) as [(m' & e' & -> & He) | ->];
      [fold d; lia | left; exists m', e'; split; auto; lia | right; auto].
  - destruct (round_aux_positive false m 0) as [(m' & e' & -> & He) | ->];
      [fold d; lia | left; exists m', e'; split; auto; lia | right; auto].
  - destruct (round_aux_positive false (Pos.iter xO m k) (d - 53))
      as [(m' & e' & -> & He) | ->].
    + pose proof (Pos2Z.is_pos (digits2_pos (Pos.iter xO m k))). lia.
    + left; exists m', e'; split; auto; lia.
    + right; auto.
Qed.

Lemma fmul_positive a b x y :
  posAbove a x -> posAbove b y -> -1022 <= a + b ->
  posAbove (a + b) (fmul x y).
Proof.
  intros [(mx & ex & -> & Hx) | ->] [(my & ey & -> & Hy) | ->] Hab;
    unfold fmul; cbn [SFmul xorb]; try (right; reflexivity).
  destruct (round_aux_positive false (mx * my) (ex + ey))
    as [(m' & e' & -> & He) | ->].
  - pose proof (Pos2Z.is_pos (digits2_pos (mx * my))). lia.
  - left; exists m', e'; split; auto; lia.
  - right; auto.
Qed.

Lemma posAbove_not_zero b x : posAbove b x -> is_zero x = false.
Proof. intros [(m & e & -> & _) | ->]; reflexivity. Qed.

(** The divisor of the circularity is not zero when the perimeter is not. *)
Lemma divisor_not_zero p :
  1 <= p -> is_zero (fmul (num p) (num p)) = false.
Proof.
  intros Hp. apply (posAbove_not_zero (-52 + -52)).
  apply fmul_positive; try apply num_positive; lia.
Qed.

(** ** Perimeter and circularity of the regions *)

Section BorderFacts.

Variable hypot : f64 -> f64 -> f64.
Variable acos : f64 -> f64.

Lemma measure_border W H binary vis0 start st :
  length vis0 = Z.to_nat (W * H) ->
  closed W H binary vis0 ->
  inside W H start -> foreground W binary start -> ~ marked W vis0 start ->
  fillInvariant W H binary vis0 start st -> stack st = [] ->
  (exists p,
     In p (r_pixels (measure hypot acos W H binary st))
     /\ onBorder W H binary p)
  /\ 1 <= r_perimeter (measure hypot acos W H binary st).
Proof.
  intros Hl Hc Hi Hf Hn Hinv Hst.
  destruct (final_border W H binary vis0 start Hl Hc st Hinv Hst)
    as (p & Hp & Hb).
  cbn [measure r_pixels r_perimeter].
  split.
  - exists p; split; [apply in_rev; rewrite rev_involutive; exact Hp|].
    apply isBorder_onBorder; exact Hb.
  - assert (Hin : In p (filter (isBorder W H binary) (rev (pixels st)))).
    { apply filter_In; split; auto. apply in_rev; rewrite rev_involutive; auto. }
    destruct (filter (isBorder W H binary) (rev (pixels st))); [destruct Hin|].
    cbn [length]. lia.
Qed.

(** C10: every accepted region has a pixel with a 4-neighbour outside the
    image or in the background; its perimeter is at least 1, and the
    divisor [perimeter * perimeter] of its circularity is not zero. *)
Theorem accepted_region_border img rs r :
  detectRegions hypot acos img = Returned rs -> In r rs ->
  (exists p,
     In p (r_pixels r)
     /\ onBorder (width img) (height img) (maskOf img) p)
  /\ 1 <= r_perimeter r
  /\ r_circularity r = circularityOf (r_area r) (r_perimeter r)
  /\ is_zero (fmul (num (r_perimeter r)) (num (r_perimeter r))) = false.
Proof.
  rewrite detectRegions_scan.
  destruct (badLength (width img * height img)); [discriminate|].
  destruct (scan_regions hypot acos (width img) (height img) (maskOf img)
            (fun r =>
               (exists p, In p (r_pixels r)
                          /\ onBorder (width img) (height img) (maskOf img) p)
               /\ 1 <= r_perimeter r
               /\ r_circularity r = circularityOf (r_area r) (r_perimeter r)))
    as (s & -> & _ & Hall).
  - intros vis0 start st Hl Hc Hi Hf Hn Hinv Hst.
    destruct (measure_border _ _ _ _ _ _ Hl Hc Hi Hf Hn Hinv Hst) as [Hb Hp].
    split; [exact Hb|]. split; [exact Hp | reflexivity].
  - intros [= <-] Hin. rewrite Forall_forall in Hall.
    destruct (Hall r Hin) as (Hb & Hp & Hcirc).
    split; [exact Hb|]. split; [exact Hp|]. split; [exact Hcirc|].
    apply divisor_not_zero; exact Hp.
Qed.

End BorderFacts.

Lemma accepted_region_border_witness :
  exists r,
    detectRegions sampleHypot sampleAcos darkStrip = Returned [r]
    /\ 1 <= r_perimeter r
    /\ is_zero (fmul (num (r_perimeter r)) (num (r_perimeter r))) = false.
Proof.
  eexists; split; [vm_compute; reflexivity|].
  match goal with
    | |- 1 <= r_perimeter ?r /\ _ =>
        destruct (accepted_region_border sampleHypot sampleAcos darkStrip [r] r)
          as (_ & Hp & _ & Hz)
    end.
  - vm_compute; reflexivity.
  - left; reflexivity.
  - split; [exact Hp | exact Hz].
Defined.

(** ** Uniform images *)

Lemma histogram_constant_cumulative v n k :
  0 <= v <= 255 ->
  cumulative (histogram (repeat v n)) k
  = if v <? Z.of_nat k then Z.of_nat n else 0.
Proof.
  intros Hv. unfold histogram.
  assert (Hgen : forall h, length h = 256%nat ->
            cumulative (fold_left (fun hist g => aset hist g (bin hist g + 1))
                          (repeat v n) h) k
            = cumulative h k + (if v <? Z.of_nat k then Z.of_nat n else 0)).
  { induction n as [|n IH]; intros h Hh; cbn [repeat fold_left].
    - destruct (v <? Z.of_nat k); lia.
    - rewrite IH by (rewrite aset_length; exact Hh).
      rewrite cumulative_aset by lia.
      destruct (v <? Z.of_nat k); lia. }
  rewrite Hgen by apply repeat_length.
  assert (Hz : forall j, cumulative (repeat 0 256%nat) j = 0).
  { induction j as [|j IHj]; cbn [cumulative]; auto. rewrite IHj.
    unfold bin, aget. destruct (Z.of_nat j <? 0); auto.
    destruct (nth_error (repeat 0 256%nat) (Z.to_nat (Z.of_nat j))) eqn:E; auto.
    apply nth_error_In, repeat_spec in E. lia. }
  rewrite Hz. reflexivity.
Qed.

(** On a buffer of one gray level no split has two non-empty classes, and
    the threshold is the default. *)
Lemma otsu_constant v n :
  0 <= v <= 255 -> otsu (histogram (repeat v n)) (Z.of_nat n) = 127.
Proof.
  intros Hv.
  assert (Hb : bytes (repeat v n)).
  { apply Forall_forall; intros x Hx; apply repeat_spec in Hx; lia. }
  destruct (histogram_counts _ Hb) as [Hc Hs].
  rewrite repeat_length in Hs.
  apply (otsu_without_split _ _ Hc (eq_sym Hs)).
  intros i (_ & Hw & Hf). unfold wBAt in Hw, Hf.
  rewrite histogram_constant_cumulative in Hw, Hf by exact Hv.
  destruct (v <? Z.of_nat (S (Z.to_nat i))); lia.
Qed.

Lemma binarize_constant v n t :
  binarize (repeat v n) t = repeat (if v <? t then 255 else 0) n.
Proof. unfold binarize; apply map_repeat. Qed.

(** The mask of a uniform image is uniform: all foreground when the gray
    level is below 127, all background otherwise. *)
Lemma maskOf_uniform img v :
  wellFormed img ->
  (forall k, 0 <= k < width img * height img -> grayAt (data img) k = v) ->
  maskOf img = repeat (if v <? 127 then 255 else 0)
                      (Z.to_nat (width img * height img)).
Proof.
  intros Hwf Hall. unfold maskOf.
  rewrite (grayscale_constant img v Hwf Hall).
  assert (Hv : 0 <= v <= 255).
  { destruct Hwf as (Hw & Hh & _).
    rewrite <- (Hall 0) by nia. apply toUint8Clamp_byte. }
  set (n := Z.to_nat (width img * height img)).
  assert (E : width img * height img = Z.of_nat n)
    by (unfold n; destruct Hwf; nia).
  rewrite E, otsu_constant by exact Hv.
  apply binarize_constant.
Qed.

Section EmptyMask.

Variable hypot : f64 -> f64 -> f64.
Variable acos : f64 -> f64.
Variables (W H : Z) (binary : list Z).

Hypothesis Hbg : forall i, same (aget binary i) 255 = false.

Lemma scanRow_background n : forall x y s,
  scanRow hypot acos W H binary n x y s = Some s.
Proof.
  induction n as [|n IH]; intros x y s; cbn [scanRow]; auto.
  rewrite Hbg. apply IH.
Qed.

Lemma scanRows_background n : forall y s,
  scanRows hypot acos W H binary n y s = Some s.
Proof.
  induction n as [|n IH]; intros y s; cbn [scanRows]; auto.
  rewrite scanRow_background. apply IH.
Qed.

End EmptyMask.

Lemma same_repeat_0 n i : same (aget (repeat 0 n) i) 255 = false.
Proof.
  unfold aget. destruct (i <? 0); [reflexivity|].
  destruct (nth_error (repeat 0 n) (Z.to_nat i)) as [v|] eqn:E; [|reflexivity].
  apply nth_error_In, repeat_spec in E; subst; reflexivity.
Qed.

(** C2 (amended): a well-formed image whose pixels all have the same
    colour, of gray level 127 or more, has no shape.  The image is one
    whose arrays can be allocated, as is every image whose buffer is a
    typed array of four bytes per pixel. *)
Theorem uniform_light_image_has_no_shape hypot acos img world r g b :
  wellFormed img ->
  width img * height img <= maxLength ->
  (forall k, 0 <= k < width img * height img ->
     byteAt (data img) (4 * k) = r
     /\ byteAt (data img) (4 * k + 1) = g
     /\ byteAt (data img) (4 * k + 2) = b) ->
  127 <= grayOf r g b ->
  exists res,
    fst (detectShapes hypot acos img world) = Returned res
    /\ shapes res = [].
Proof.
  intros Hwf Hfit Hall Hlight.
  assert (Hmask : maskOf img = repeat 0 (Z.to_nat (width img * height img))).
  { rewrite (maskOf_uniform img (grayOf r g b) Hwf).
    - destruct (Z.ltb_spec (grayOf r g b) 127); [lia | reflexivity].
    - intros k Hk. unfold grayAt.
      destruct (Hall k Hk) as (-> & -> & ->). reflexivity. }
  assert (Hd : detectRegions hypot acos img = Returned []).
  { rewrite detectRegions_scan, Hmask.
    destruct Hwf as (Hw & Hh & _).
    rewrite badLength_false by (split; [nia | exact Hfit]).
    unfold scan. rewrite scanRows_background; [reflexivity|].
    apply same_repeat_0. }
  rewrite detectShapes_unfold, Hd. eexists; split; reflexivity.
Qed.

Lemma uniform_light_image_has_no_shape_witness :
  exists res,
    fst (detectShapes sampleHypot sampleAcos whiteSquare sampleWorld)
      = Returned res
    /\ shapes res = [].
Proof.
  apply (uniform_light_image_has_no_shape sampleHypot sampleAcos whiteSquare
           sampleWorld 255 255 255).
  - unfold wellFormed. split; [reflexivity|]. split; [reflexivity|].
    apply (uniform_length 2 2 255 255 255 255). lia.
  - vm_compute; discriminate.
  - intros k Hk. apply byteAt_uniform. exact Hk.
  - vm_compute; discriminate.
Defined.

(** ** Images that are all foreground *)

Lemma unvisited_repeat n : unvisited (repeat 0 n) = n.
Proof.
  unfold unvisited. induction n as [|n IH]; simpl; auto.
Qed.

Lemma unvisited_truthy vis :
  (forall i, 0 <= i < Z.of_nat (length vis) -> truthy (aget vis i) = true) ->
  unvisited vis = 0%nat.
Proof.
  unfold unvisited. induction vis as [|h t IH]; intros Hall; auto.
  cbn [filter].
  assert (Hh : truthy (aget (h :: t) 0) = true)
    by (apply Hall; cbn [length]; lia).
  cbn in Hh. destruct (h =? 0); [discriminate|].
  apply IH. intros i Hi.
  assert (Hs : truthy (aget (h :: t) (i + 1)) = true)
    by (apply Hall; cbn [length]; lia).
  unfold aget in *.
  destruct (Z.ltb_spec (i + 1) 0); [lia|].
  destruct (Z.ltb_spec i 0); [lia|].
  replace (Z.to_nat (i + 1)) with (S (Z.to_nat i)) in Hs by lia.
  exact Hs.
Qed.

Section FullMask.

Variable hypot : f64 -> f64 -> f64.
Variable acos : f64 -> f64.
Variables W H : Z.
Hypothesis HW : 0 < W.
Hypothesis HH : 0 < H.

Lemma foreground_full p : foreground W (fullMask W H) p.
Proof.
  unfold foreground, aget. destruct (_ <? 0); [reflexivity|].
  destruct (nth_error (fullMask W H) _) as [v|] eqn:E; [|reflexivity].
  apply nth_error_In, repeat_spec in E; subst; reflexivity.
Qed.

Lemma same_full p :
  inside W H p ->
  same (aget (fullMask W H) (getIndex W (fst p) (snd p))) 255 = true.
Proof.
  intros [Hx Hy]. pose proof (index_range W H _ _ Hx Hy).
  unfold fullMask. rewrite aget_repeat by lia. reflexivity.
Qed.

(** On a grid that is all foreground, a closed set of marked cells that
    holds the first cell holds them all. *)
Lemma all_marked vis :
  closed W H (fullMask W H) vis -> marked W vis (0, 0) ->
  forall p, inside W H p -> marked W vis p.
Proof.
  intros Hc H0.
  assert (Hrow : forall k, Z.of_nat k < W -> marked W vis (Z.of_nat k, 0)).
  { induction k as [|k IH]; intros Hk; [exact H0|].
    apply (Hc (Z.of_nat k, 0)).
    - split; simpl; lia.
    - apply IH; lia.
    - left; simpl; f_equal; lia.
    - split; simpl; lia.
    - apply foreground_full. }
  assert (Hcol : forall j x, 0 <= x < W -> Z.of_nat j < H ->
          marked W vis (x, Z.of_nat j)).
  { induction j as [|j IH]; intros x Hx Hj.
    - replace x with (Z.of_nat (Z.to_nat x)) by lia. apply Hrow; lia.
    - apply (Hc (x, Z.of_nat j)).
      + split; simpl; lia.
      + apply IH; lia.
      + right; right; left; simpl; f_equal; lia.
      + split; simpl; lia.
      + apply foreground_full. }
  intros [x y] [Hx Hy]; simpl in Hx, Hy.
  replace y with (Z.of_nat (Z.to_nat y)) by lia. apply Hcol; lia.
Qed.

Lemma unvisited_all_marked vis :
  length vis = Z.to_nat (W * H) ->
  (forall p, inside W H p -> marked W vis p) ->
  unvisited vis = 0%nat.
Proof.
  intros Hl Hall. apply unvisited_truthy. intros i Hi.
  assert (Hi' : 0 <= i < W * H) by lia.
  assert (Hin : inside W H (i mod W, i / W)).
  { split; simpl.
    - apply Z.mod_pos_bound; lia.
    - split; [apply Z.div_pos; lia|].
      apply Z.div_lt_upper_bound; lia. }
  specialize (Hall _ Hin). unfold marked, getIndex in Hall. simpl in Hall.
  replace (i / W * W + i mod W) with i in Hall; auto.
  rewrite (Z.div_mod i W) at 1 by lia. lia.
Qed.

(** The flood fill from the first cell of an unmarked grid marks every
    cell and collects them all. *)
Lemma floodFill_full :
  exists st,
    floodFill hypot acos W H (fullMask W H) (repeat 0 (Z.to_nat (W * H))) 0 0
      = Some (visited st,
              if tooSmall W H (Z.of_nat (length (pixels st))) then None
              else Some (measure hypot acos W H (fullMask W H) st))
    /\ (forall p, inside W H p -> marked W (visited st) p)
    /\ Z.of_nat (length (pixels st)) = W * H
    /\ minX st = 0 /\ maxX st = W - 1 /\ minY st = 0 /\ maxY st = H - 1.
Proof.
  set (vis0 := repeat 0 (Z.to_nat (W * H))).
  assert (Hl0 : length vis0 = Z.to_nat (W * H)) by apply repeat_length.
  assert (Hc0 : closed W H (fullMask W H) vis0).
  { intros p n _ Hm. destruct (nothing_marked W _ _ Hm). }
  assert (Hs : inside W H (0, 0)) by (split; simpl; lia).
  assert (Hnew : ~ marked W vis0 (0, 0)) by apply nothing_marked.
  destruct (floodFill_invariant hypot acos W H (fullMask W H)
            (fillInvariant W H (fullMask W H) vis0 (0, 0)) vis0 0 0)
    as (st & _ & Hinv & Hst & Hl & E).
  - intros p rest s Hls Hi Hs'.
    apply fillStep_invariant; auto. apply foreground_full.
  - exact Hl0.
  - apply (fillStart_invariant W H (fullMask W H) vis0 (0, 0)); auto.
    apply foreground_full.
  - exists st. split; [exact E|].
    assert (Hall : forall p, inside W H p -> marked W (visited st) p).
    { apply all_marked.
      - eapply final_closed; eauto.
      - destruct (inv_pixels _ _ _ _ _ _ Hinv (0, 0)) as (_ & _ & Hm & _); auto.
        eapply final_start; eauto. }
    split; [exact Hall|].
    assert (Hcount : Z.of_nat (length (pixels st)) = W * H).
    { pose proof (inv_count _ _ _ _ _ _ Hinv) as Hc.
      rewrite (unvisited_all_marked _ Hl Hall) in Hc.
      unfold vis0 in Hc. rewrite unvisited_repeat in Hc. nia. }
    split; [exact Hcount|].
    assert (Hpix : forall p, inside W H p -> In p (pixels st)).
    { intros p Hp.
      destruct (inv_new _ _ _ _ _ _ Hinv p Hp (Hall p Hp)) as [Hm | Hin]; auto.
      destruct (nothing_marked W _ _ Hm). }
    destruct (inv_bounds _ _ _ _ _ _ Hinv) as (B1 & B2 & B3 & B4).
    destruct (inv_box _ _ _ _ _ _ Hinv (0, 0) (Hpix _ Hs)) as [X0 Y0].
    assert (Hlast : inside W H (W - 1, H - 1)) by (split; simpl; lia).
    destruct (inv_box _ _ _ _ _ _ Hinv _ (Hpix _ Hlast)) as [X1 Y1].
    simpl in X0, Y0, X1, Y1. lia.
Qed.

(** Once every cell is marked, the scan starts no flood fill. *)
Lemma scanRow_marked n : forall x y s,
  (forall p, inside W H p -> marked W (sc_visited s) p) ->
  (forall k, (k < n)%nat -> inside W H (x + Z.of_nat k, y)) ->
  scanRow hypot acos W H (fullMask W H) n x y s = Some s.
Proof.
  induction n as [|n IH]; intros x y s Hall Hin; cbn [scanRow]; auto.
  assert (Hm : marked W (sc_visited s) (x, y)).
  { apply Hall. replace x with (x + Z.of_nat 0) by lia. apply Hin; lia. }
  unfold marked in Hm; simpl in Hm. rewrite Hm, andb_false_r.
  apply IH; auto. intros k Hk.
  replace (x + 1 + Z.of_nat k) with (x + Z.of_nat (S k)) by lia.
  apply Hin; lia.
Qed.

Lemma scanRows_marked n : forall y s,
  (forall p, inside W H p -> marked W (sc_visited s) p) ->
  (forall k, (k < n)%nat -> 0 <= y + Z.of_nat k < H) ->
  scanRows hypot acos W H (fullMask W H) n y s = Some s.
Proof.
  induction n as [|n IH]; intros y s Hall Hin; cbn [scanRows]; auto.
  rewrite scanRow_marked; auto.
  - apply IH; auto. intros k Hk.
    replace (y + 1 + Z.of_nat k) with (y + Z.of_nat (S k)) by lia.
    apply Hin; lia.
  - intros k Hk. specialize (Hin 0%nat ltac:(lia)). split; cbn [fst snd]; lia.
Qed.

(** The scan of an image that is all foreground: one flood fill, from the
    first cell, and one region at most, which holds every cell. *)
Lemma scan_full :
  exists st,
    scan hypot acos W H (fullMask W H)
      = Some {| sc_visited := visited st;
                sc_found :=
                  if tooSmall W H (W * H) then []
                  else [measure hypot acos W H (fullMask W H) st] |}
    /\ Z.of_nat (length (pixels st)) = W * H
    /\ minX st = 0 /\ maxX st = W - 1 /\ minY st = 0 /\ maxY st = H - 1.
Proof.
  destruct floodFill_full as (st & E & Hall & Hcount & Hbox).
  exists st. split; [|split; [exact Hcount | exact Hbox]].
  unfold scan.
  destruct (Z.to_nat H) as [|h] eqn:EH; [lia|].
  cbn [scanRows].
  destruct (Z.to_nat W) as [|w] eqn:EW; [lia|].
  cbn [scanRow sc_visited].
  assert (Hs : inside W H (0, 0)) by (split; simpl; lia).
  pose proof (same_full _ Hs) as Hfg. simpl in Hfg. rewrite Hfg.
  assert (Hnew : truthy (aget (repeat 0 (Z.to_nat (W * H))) (getIndex W 0 0))
               = false).
  { destruct (truthy _) eqn:Em; auto.
    destruct (nothing_marked W (Z.to_nat (W * H)) (0, 0)). exact Em. }
  rewrite Hnew. cbn [negb andb]. rewrite E, Hcount.
  rewrite scanRow_marked.
  - rewrite scanRows_marked; auto.
    + unfold afterFill; cbn [sc_found]. destruct (tooSmall W H (W * H)); auto.
    + intros k Hk. lia.
  - exact Hall.
  - intros k Hk. split; cbn [fst snd]; lia.
Qed.

End FullMask.

(** C3: on a 100 x 100 buffer whose colour bytes are all zero, whatever
    the alpha bytes, the call returns exactly one shape, of area 10000 and
    bounding box (0, 0, 100, 100). *)
Theorem black_100x100 hypot acos img world :
  width img = 100 -> height img = 100 ->
  Z.of_nat (length (data img)) = 40000 ->
  (forall k, 0 <= k < 10000 ->
     byteAt (data img) (4 * k) = 0
     /\ byteAt (data img) (4 * k + 1) = 0
     /\ byteAt (data img) (4 * k + 2) = 0) ->
  exists r s,
    fst (detectShapes hypot acos img world) = Returned r
    /\ shapes r = [s]
    /\ area s = 10000
    /\ boundingBox s =
         {| bb_x := 0; bb_y := 0; bb_width := 100; bb_height := 100 |}.
Proof.
  intros Hw Hh Hlen Hblack.
  assert (Hwf : wellFormed img) by (unfold wellFormed; lia).
  assert (Hmask : maskOf img = fullMask 100 100).
  { rewrite (maskOf_uniform img 0 Hwf); [rewrite Hw, Hh; reflexivity|].
    intros k Hk; rewrite Hw, Hh in Hk. unfold grayAt.
    destruct (Hblack k) as (-> & -> & ->); [lia | reflexivity]. }
  destruct (scan_full hypot acos 100 100) as (st & Hscan & Hcount & Hbox);
    try lia.
  assert (Hbig : tooSmall 100 100 (100 * 100) = false)
    by (vm_compute; reflexivity).
  rewrite Hbig in Hscan.
  assert (Hd : detectRegions hypot acos img
               = Returned [measure hypot acos 100 100 (fullMask 100 100) st]).
  { rewrite detectRegions_scan, Hmask, Hw, Hh.
    change (badLength (100 * 100)) with false. cbv iota.
    rewrite Hscan. reflexivity. }
  rewrite detectShapes_unfold, Hd.
  destruct Hbox as (X0 & X1 & Y0 & Y1).
  eexists; eexists; split; [reflexivity|]. split; [reflexivity|].
  cbn [toShape measure area boundingBox r_area r_minX r_minY r_w r_h].
  rewrite length_rev, Hcount, X0, X1, Y0, Y1. split; reflexivity.
Qed.

Lemma black_100x100_witness :
  exists r s,
    fst (detectShapes sampleHypot sampleAcos (uniform 100 100 0 0 0 255)
           sampleWorld) = Returned r
    /\ shapes r = [s]
    /\ area s = 10000
    /\ boundingBox s =
         {| bb_x := 0; bb_y := 0; bb_width := 100; bb_height := 100 |}.
Proof.
  apply (black_100x100 sampleHypot sampleAcos (uniform 100 100 0 0 0 255)
           sampleWorld).
  - reflexivity.
  - reflexivity.
  - apply (uniform_length 100 100 0 0 0 255); lia.
  - intros k Hk. apply byteAt_uniform. lia.
Defined.

(** ** The error of one rounding *)

Lemma round_int_error M P m1 q :
  0 < P -> 2 ^ 52 * P <= M ->
  P * m1 <= M < P * (m1 + 1) -> m1 <= q <= m1 + 1 ->
  (2 ^ 52 - 1) * Z.abs (q * P - M) <= M.
Proof.
  intros HP HM Hm1 Hq.
  assert (Habs : Z.abs (q * P - M) <= P) by nia.
  assert (Hc : (2 ^ 52 - 1) * P <= M) by lia.
  assert (0 <= Z.abs (q * P - M)) by lia.
  nia.
Qed.

Lemma digits_exact q n :
  0 < n -> 2 ^ (n - 1) <= Zpos q < 2 ^ n -> Zpos (digits2_pos q) = n.
Proof.
  intros Hn [Hlo Hhi]. pose proof (digits_bounds q) as [Dlo Dhi].
  assert (H1 : 2 ^ (Zpos (digits2_pos q) - 1) < 2 ^ n) by lia.
  assert (H2 : 2 ^ (n - 1) < 2 ^ Zpos (digits2_pos q)) by lia.
  apply Z.pow_lt_mono_r_iff in H1; [|lia|lia].
  apply Z.pow_lt_mono_r_iff in H2; lia.
Qed.

Lemma shr_nonpos r e n : n <= 0 -> shr r e n = (r, e).
Proof. destruct n; [reflexivity | lia | reflexivity]. Qed.

(** A positive mantissa in the normal range is rounded to a finite number
    whose distance to it is at most one part in [2 ^ 52 - 1]. *)
Lemma round_aux_error s M E :
  -1021 <= E + Zpos (digits2_pos M) <= 1000 -> E <= 900 ->
  exists m' e',
    binary_round_aux prec emax s (Zpos M) E loc_Exact = S754_finite s m' e'
    /\ E <= e'
    /\ (2 ^ 52 - 1) * Z.abs (Zpos m' * 2 ^ (e' - E) - Zpos M) <= Zpos M.
Proof.
  intros He HE. unfold binary_round_aux, shr_fexp.
  cbn [shr_record_of_loc Zdigits2].
  set (d := Zpos (digits2_pos M)) in *.
  pose proof (digits_bounds M) as [Hlo Hhi]. fold d in Hlo, Hhi.
  set (r0 := {| shr_m := Zpos M; shr_r := false; shr_s := false |}).
  assert (Hn1 : fexp prec emax (d + E) - E = d - 53).
  { unfold fexp, emin, prec, emax. lia. }
  rewrite Hn1.
  destruct (Z.le_gt_cases (d - 53) 0) as [Hsmall | Hbig].
  - (* at most 53 digits: nothing is lost *)
    rewrite (shr_nonpos r0 E (d - 53) Hsmall).
    change (round_nearest_even (shr_m r0) (loc_of_shr_record r0))
      with (Zpos M).
    cbn [Zdigits2]. fold d. rewrite Hn1, (shr_nonpos _ E (d - 53) Hsmall).
    cbn [shr_m]. replace (E <=? emax - prec) with true
      by (unfold emax, prec; symmetry; apply Z.leb_le; lia).
    exists M, E. split; [reflexivity|]. split; [lia|].
    rewrite Z.sub_diag, Z.pow_0_r, Z.mul_1_r, Z.sub_diag. simpl Z.abs. lia.
  - (* more than 53 digits: the first shift leaves exactly 53 *)
    set (k := d - 53) in *.
    destruct (shr_spec r0 E k) as [Hm1 He1]; [simpl; lia|].
    destruct (shr r0 E k) as [r1 e1]. cbn [fst snd] in Hm1, He1.
    change (shr_m r0) with (Zpos M) in Hm1.
    replace (Z.max 0 k) with k in Hm1, He1 by lia.
    set (P := 2 ^ k) in *.
    assert (HP : 0 < P) by (apply Z.pow_pos_nonneg; lia).
    assert (Hd1 : 2 ^ (d - 1) = 2 ^ 52 * P).
    { unfold P. rewrite <- Z.pow_add_r by lia. f_equal; lia. }
    assert (Hd2 : 2 ^ d = 2 ^ 53 * P).
    { unfold P. rewrite <- Z.pow_add_r by lia. f_equal; lia. }
    pose proof (Z.mul_div_le (Zpos M) P HP) as Hfloor.
    pose proof (Z.mul_succ_div_gt (Zpos M) P HP) as Hceil.
    rewrite <- Hm1 in Hfloor, Hceil.
    assert (Hm1r : 2 ^ 52 <= shr_m r1 < 2 ^ 53) by nia.
    pose proof (round_nearest_even_bounds (shr_m r1) (loc_of_shr_record r1))
      as Hrne.
    destruct (round_nearest_even (shr_m r1) (loc_of_shr_record r1))
      as [|q|q] eqn:Eq; try lia.
    cbn [Zdigits2].
    assert (Herr : (2 ^ 52 - 1) * Z.abs (Zpos q * P - Zpos M) <= Zpos M).
    { apply (round_int_error _ _ (shr_m r1)); lia. }
    set (r2 := {| shr_m := Zpos q; shr_r := false; shr_s := false |}).
    destruct (Z.lt_ge_cases (Zpos q) (2 ^ 53)) as [Hq | Hq].
    + (* no carry *)
      assert (Hdq : Zpos (digits2_pos q) = 53)
        by (apply digits_exact; [lia | simpl; lia]).
      rewrite Hdq.
      assert (Hn2 : fexp prec emax (53 + e1) - e1 = 0).
      { unfold fexp, emin, prec, emax. lia. }
      rewrite Hn2. cbn [shr shr_m r2].
      replace (e1 <=? emax - prec) with true
        by (unfold emax, prec; symmetry; apply Z.leb_le; lia).
      exists q, e1. split; [reflexivity|]. split; [lia|].
      replace (e1 - E) with k by lia. exact Herr.
    + (* the rounding carried into a 54th digit *)
      assert (Hq53 : Zpos q = 2 ^ 53) by lia.
      assert (Hdq : Zpos (digits2_pos q) = 54)
        by (apply digits_exact; [lia | simpl; lia]).
      rewrite Hdq.
      assert (Hn2 : fexp prec emax (54 + e1) - e1 = 1).
      { unfold fexp, emin, prec, emax. lia. }
      rewrite Hn2.
      destruct (shr_spec r2 e1 1) as [Hm3 He3]; [simpl; lia|].
      destruct (shr r2 e1 1) as [r3 e3]. cbn [fst snd] in Hm3, He3.
      change (shr_m r2) with (Zpos q) in Hm3.
      change (Z.max 0 1) with 1 in Hm3, He3.
      rewrite Hq53 in Hm3. change (2 ^ 53 / 2 ^ 1) with (2 ^ 52) in Hm3.
      rewrite Hm3. change (2 ^ 52) with (Zpos (2 ^ 52)%positive) at 1.
      cbv iota.
      replace (e3 <=? emax - prec) with true
        by (unfold emax, prec; symmetry; apply Z.leb_le; lia).
      eexists; exists e3. split; [reflexivity|]. split; [lia|].
      replace (e3 - E) with (Z.succ k) by lia.
      rewrite Z.pow_succ_r by lia. fold P.
      replace (Zpos (2 ^ 52)%positive * (2 * P)) with (Zpos q * P)
        by (rewrite Hq53; change (Zpos (2 ^ 52)%positive) with (2 ^ 52);
            change (2 ^ 53) with (2 * 2 ^ 52); ring).
      exact Herr.
Qed.

(** ** The error of an addition *)

Lemma iter_xO m k : Zpos (Pos.iter xO m k) = Zpos m * 2 ^ Zpos k.
Proof.
  induction k as [|k IH] using Pos.peano_ind.
  - change (Pos.iter xO m 1) with (m~0)%positive. change (2 ^ 1) with 2. lia.
  - rewrite Pos.iter_succ, Pos2Z.inj_xO, IH, Pos2Z.inj_succ, Z.pow_succ_r
      by lia. ring.
Qed.

(** Aligning a mantissa to a smaller exponent keeps the value. *)
Lemma shl_align_spec m e e' :
  Zpos (fst (shl_align m e e')) = Zpos m * 2 ^ Z.max 0 (e - e')
  /\ snd (shl_align m e e') = Z.min e e'.
Proof.
  unfold shl_align. destruct (e' - e) as [|d|d] eqn:Ed; cbn [fst snd].
  - replace (Z.max 0 (e - e')) with 0 by lia. rewrite Z.mul_1_r. lia.
  - replace (Z.max 0 (e - e')) with 0 by lia. rewrite Z.mul_1_r. lia.
  - rewrite iter_xO. replace (Z.max 0 (e - e')) with (Zpos d) by lia.
    split; [reflexivity | lia].
Qed.

Lemma pow2_lt_exp a b : 2 ^ a < 2 ^ b -> 0 <= b -> a < b.
Proof.
  intros Hlt Hb. destruct (Z.lt_ge_cases a b) as [|Hge]; auto.
  assert (2 ^ b <= 2 ^ a) by (apply Z.pow_le_mono_r; lia). lia.
Qed.

(** Rounding a positive number below [2 ^ 10], given by a mantissa and an
    exponent of at least [- scale]. *)
Lemma round_val M E :
  - scale <= E -> Zpos M * 2 ^ (E + scale) < 2 ^ (10 + scale) ->
  exists m' e',
    binary_round_aux prec emax false (Zpos M) E loc_Exact
    = S754_finite false m' e'
    /\ E <= e'
    /\ (2 ^ 52 - 1) * Z.abs (Zpos m' * 2 ^ (e' + scale)
                             - Zpos M * 2 ^ (E + scale))
       <= Zpos M * 2 ^ (E + scale).
Proof.
  unfold scale; intros HE Hval.
  pose proof (digits_bounds M) as [Hlo _].
  set (d := Zpos (digits2_pos M)) in *.
  assert (Hd : 1 <= d) by (unfold d; lia).
  assert (Hp : 0 < 2 ^ (E + 300)) by (apply Z.pow_pos_nonneg; lia).
  assert (Hsum : d + E < 11).
  { assert (Hlt : 2 ^ (d - 1 + (E + 300)) < 2 ^ (10 + 300)).
    { rewrite Z.pow_add_r by lia. nia. }
    apply pow2_lt_exp in Hlt; lia. }
  destruct (round_aux_error false M E) as (m' & e' & Er & He' & Herr);
    [fold d; lia | lia |].
  exists m', e'. split; [exact Er|]. split; [exact He'|].
  replace (e' + 300) with ((e' - E) + (E + 300)) by lia.
  rewrite Z.pow_add_r by lia.
  replace (Zpos m' * (2 ^ (e' - E) * 2 ^ (E + 300)) - Zpos M * 2 ^ (E + 300))
    with ((Zpos m' * 2 ^ (e' - E) - Zpos M) * 2 ^ (E + 300)) by ring.
  rewrite Z.abs_mul, (Z.abs_eq (2 ^ (E + 300))) by lia.
  nia.
Qed.

(** The sum of two numbers that are zero or positive, below [2 ^ 10]
    together: it is zero or positive, and within one part in [2 ^ 52 - 1]
    of the exact sum. *)
Lemma fadd_error b x y :
  -248 <= b -> nonneg b x -> nonneg b y ->
  val x + val y < 2 ^ (10 + scale) ->
  nonneg (b - 52) (fadd x y)
  /\ (2 ^ 52 - 1) * Z.abs (val (fadd x y) - (val x + val y))
     <= val x + val y.
Proof.
  intros Hb [-> | (mx & ex & -> & Hx)] [-> | (my & ey & -> & Hy)] Hsum.
  - split; [left; reflexivity | simpl; lia].
  - split; [right; exists my, ey; split; auto; lia|].
    change (fadd (S754_zero false) (S754_finite false my ey))
      with (S754_finite false my ey).
    cbn [val] in *. rewrite Z.add_0_l, Z.sub_diag. simpl Z.abs. lia.
  - split; [right; exists mx, ex; split; auto; lia|].
    change (fadd (S754_finite false mx ex) (S754_zero false))
      with (S754_finite false mx ex).
    cbn [val] in *. rewrite Z.add_0_r, Z.sub_diag. simpl Z.abs. lia.
  - cbn [val] in Hsum |- *. unfold fadd, SFadd, binary_normalize.
    cbn [cond_Zopp].
    set (ez := Z.min ex ey).
    assert (Hez0 : b <= ez /\ ez <= ex /\ ez <= ey) by (unfold ez; lia).
    destruct (shl_align_spec mx ex ez) as [Hax _].
    destruct (shl_align_spec my ey ez) as [Hay _].
    set (ax := fst (shl_align mx ex ez)) in *.
    set (ay := fst (shl_align my ey ez)) in *.
    change (Zpos ax + Zpos ay) with (Zpos (ax + ay)).
    unfold binary_round.
    set (P := (ax + ay)%positive).
    set (ef := fexp prec emax (Zpos (digits2_pos P) + ez)).
    destruct (shl_align_spec P ez ef) as [Hmz Hez].
    destruct (shl_align P ez ef) as [mz ez']. cbn [fst snd] in Hmz, Hez.
    assert (Hef : ez - 52 <= ef).
    { unfold ef, fexp, emin, prec, emax.
      pose proof (Pos2Z.is_pos (digits2_pos P)). lia. }
    assert (Hez' : b - 52 <= ez' <= ez) by lia.
    (* the value of the aligned sum *)
    assert (HP : Zpos P * 2 ^ (ez + scale)
                 = Zpos mx * 2 ^ (ex + scale) + Zpos my * 2 ^ (ey + scale)).
    { unfold P. rewrite Pos2Z.inj_add, Hax, Hay.
      replace (ex + scale) with (Z.max 0 (ex - ez) + (ez + scale))
        by (unfold scale; lia).
      replace (ey + scale) with (Z.max 0 (ey - ez) + (ez + scale))
        by (unfold scale; lia).
      rewrite (Z.pow_add_r 2 (Z.max 0 (ex - ez)) (ez + scale)),
              (Z.pow_add_r 2 (Z.max 0 (ey - ez)) (ez + scale))
        by (unfold scale; lia).
      ring. }
    assert (Hmzv : Zpos mz * 2 ^ (ez' + scale) = Zpos P * 2 ^ (ez + scale)).
    { rewrite Hmz.
      replace (ez + scale) with (Z.max 0 (ez - ef) + (ez' + scale))
        by (unfold scale; lia).
      rewrite (Z.pow_add_r 2 (Z.max 0 (ez - ef)) (ez' + scale))
        by (unfold scale; lia).
      ring. }
    destruct (round_val mz ez') as (m' & e' & Er & He' & Herr).
    + unfold scale; lia.
    + rewrite Hmzv, HP. exact Hsum.
    + rewrite Er. split.
      * right; exists m', e'; split; [reflexivity|].
        clear - He' Hez'. lia.
      * cbn [val]. rewrite Hmzv, HP in Herr. exact Herr.
Qed.

(** ** The products of the grayscale formula *)

Lemma byteValues_spec x : 0 <= x <= 255 -> In x byteValues.
Proof.
  intros Hx. unfold byteValues. apply in_map_iff.
  exists (Z.to_nat x); split; [lia | apply in_seq; lia].
Qed.

Lemma products_299 : forallb (productCheck 299) byteValues = true.
Proof. vm_compute; reflexivity. Qed.

Lemma products_587 : forallb (productCheck 587) byteValues = true.
Proof. vm_compute; reflexivity. Qed.

Lemma products_114 : forallb (productCheck 114) byteValues = true.
Proof. vm_compute; reflexivity. Qed.

Lemma product_spec k x :
  forallb (productCheck k) byteValues = true -> 0 <= x <= 255 ->
  nonneg (-120) (fmul (lit k 1000) (num x))
  /\ Z.abs (1000 * val (fmul (lit k 1000) (num x)) - k * x * oneUnit)
     <= 2 ^ (scale - 30).
Proof.
  intros Htab Hx. rewrite forallb_forall in Htab.
  specialize (Htab x (byteValues_spec x Hx)). unfold productCheck in Htab.
  apply andb_true_iff in Htab. destruct Htab as [Hshape Herr].
  apply Z.leb_le in Herr. split; [|exact Herr].
  destruct (fmul (lit k 1000) (num x)) as [[|]|[|]| |[|] m e];
    try discriminate.
  - left; reflexivity.
  - right; exists m, e; split; [reflexivity | apply Z.leb_le; exact Hshape].
Qed.

(** ** The conversion to a byte *)

(** The byte stored for a number that is zero or positive and below 255.5
    is one of the integers nearest to it, the even one when there are
    two. *)
Lemma toUint8Clamp_nearest b x :
  - scale <= b -> nonneg b x -> 2 * val x < 511 * oneUnit ->
  0 <= toUint8Clamp x <= 255
  /\ 2 * Z.abs (toUint8Clamp x * oneUnit - val x) <= oneUnit
  /\ (2 * Z.abs (toUint8Clamp x * oneUnit - val x) = oneUnit ->
      Z.even (toUint8Clamp x) = true).
Proof.
  intros Hb Hx Hlt.
  assert (HU : 0 < oneUnit) by (unfold oneUnit; apply Z.pow_pos_nonneg;
                                unfold scale; lia).
  destruct Hx as [-> | (m & e & -> & He)].
  - cbn [toUint8Clamp val]. rewrite Z.mul_0_l, Z.sub_diag.
    simpl Z.abs. repeat split; lia.
  - cbn [toUint8Clamp val] in *.
    destruct (Z.leb_spec 0 e) as [Hpos | Hneg].
    + (* an integer *)
      rewrite Z.shiftl_mul_pow2 by lia.
      assert (Hv : Zpos m * 2 ^ (e + scale) = Zpos m * 2 ^ e * oneUnit).
      { unfold oneUnit. rewrite Z.pow_add_r by (unfold scale; lia). ring. }
      rewrite Hv in *.
      assert (Hp : 0 < 2 ^ e) by (apply Z.pow_pos_nonneg; lia).
      assert (Hi : 0 < Zpos m * 2 ^ e) by lia.
      assert (Hle : Zpos m * 2 ^ e <= 255) by nia.
      rewrite Z.min_r by lia.
      rewrite Z.sub_diag. simpl Z.abs. repeat split; lia.
    + (* a fraction: quotient and remainder by [2 ^ (- e)] *)
      cbv zeta. rewrite Z.shiftl_1_l.
      set (d := 2 ^ (- e)).
      set (T := 2 ^ (e + scale)).
      assert (Hd : 0 < d) by (apply Z.pow_pos_nonneg; lia).
      assert (HT : 0 < T) by (apply Z.pow_pos_nonneg; unfold scale in *; lia).
      assert (HdT : oneUnit = d * T).
      { unfold oneUnit, d, T. rewrite <- Z.pow_add_r by (unfold scale in *; lia).
        f_equal; lia. }
      pose proof (Z.div_mod (Zpos m) d ltac:(lia)) as Hdm.
      pose proof (Z.mod_pos_bound (Zpos m) d Hd) as Hr.
      set (q := Zpos m / d) in *. set (r := Zpos m mod d) in *.
      assert (Hq : 0 <= q) by (unfold q; apply Z.div_pos; lia).
      set (g := match 2 * r ?= d with
                | Eq => if Z.even q then q else q + 1
                | Lt => q
                | Gt => q + 1
                end).
      assert (Hg : 0 <= g /\ 2 * Z.abs (g * d - Zpos m) <= d
                   /\ (2 * Z.abs (g * d - Zpos m) = d -> Z.even g = true)).
      { unfold g. destruct (Z.compare_spec (2 * r) d) as [Heq | Hlt2 | Hgt2].
        - destruct (Z.even q) eqn:Eq.
          + repeat split; auto; lia.
          + repeat split; try lia. intros _.
            rewrite Z.add_1_r, Z.even_succ, <- Z.negb_even, Eq. reflexivity.
        - repeat split; lia.
        - repeat split; lia. }
      destruct Hg as (Hg0 & Hgn & Hgt).
      assert (Hg255 : g <= 255).
      { destruct (Z.le_gt_cases g 255) as [|Hbig]; auto. exfalso.
        assert (Hm : 511 * d <= 2 * Zpos m) by nia.
        rewrite HdT in Hlt. nia. }
      rewrite Z.min_r by lia.
      assert (Hfac : g * oneUnit - Zpos m * T = (g * d - Zpos m) * T)
        by (rewrite HdT; ring).
      rewrite Hfac, Z.abs_mul, (Z.abs_eq T) by lia.
      split; [lia|]. split.
      * rewrite HdT. nia.
      * intros Htie. apply Hgt. rewrite HdT in Htie. nia.
Qed.

(** ** The gray value of a pixel *)

(** The byte stored for the colour [(r, g, b)] is the integer nearest to
    the binary64 value of the formula, the even one on a tie, and it is
    within a half of the exact value [(299 r + 587 g + 114 b) / 1000]. *)
Lemma grayOf_nearest r g b :
  0 <= r <= 255 -> 0 <= g <= 255 -> 0 <= b <= 255 ->
  let s := luminance (num r) (num g) (num b) in
  0 <= grayOf r g b <= 255
  /\ Z.abs (1000 * grayOf r g b - (299 * r + 587 * g + 114 * b)) <= 500
  /\ 2 * Z.abs (grayOf r g b * oneUnit - val s) <= oneUnit
  /\ (2 * Z.abs (grayOf r g b * oneUnit - val s) = oneUnit ->
      Z.even (grayOf r g b) = true).
Proof.
  intros Hr Hg Hb. cbv zeta. unfold grayOf, luminance.
  destruct (product_spec 299 r products_299 Hr) as [N1 E1].
  destruct (product_spec 587 g products_587 Hg) as [N2 E2].
  destruct (product_spec 114 b products_114 Hb) as [N3 E3].
  set (p1 := fmul (lit 299 1000) (num r)) in *.
  set (p2 := fmul (lit 587 1000) (num g)) in *.
  set (p3 := fmul (lit 114 1000) (num b)) in *.
  assert (HU : oneUnit = 2 ^ 300) by reflexivity.
  assert (HT : 2 ^ (scale - 30) = 2 ^ 270) by reflexivity.
  assert (HS : 2 ^ (10 + scale) = 1024 * 2 ^ 300) by reflexivity.
  rewrite HT in E1, E2, E3.
  assert (P1 : 0 <= val p1) by (destruct N1 as [-> | (m & e & -> & _)];
                                cbn [val]; [lia | apply Z.mul_nonneg_nonneg;
                                [lia | apply Z.pow_nonneg; lia]]).
  assert (P2 : 0 <= val p2) by (destruct N2 as [-> | (m & e & -> & _)];
                                cbn [val]; [lia | apply Z.mul_nonneg_nonneg;
                                [lia | apply Z.pow_nonneg; lia]]).
  assert (P3 : 0 <= val p3) by (destruct N3 as [-> | (m & e & -> & _)];
                                cbn [val]; [lia | apply Z.mul_nonneg_nonneg;
                                [lia | apply Z.pow_nonneg; lia]]).
  destruct (fadd_error (-120) p1 p2) as [N12 E12];
    [lia | exact N1 | exact N2 | rewrite HS; lia |].
  set (s1 := fadd p1 p2) in *.
  assert (N3' : nonneg (-120 - 52) p3).
  { destruct N3 as [-> | (m & e & -> & He)]; [left; auto|].
    right; exists m, e; split; auto; lia. }
  destruct (fadd_error (-120 - 52) s1 p3) as [N123 E123];
    [lia | exact N12 | exact N3' | rewrite HS; lia |].
  set (s := fadd s1 p3) in *.
  assert (Hclose : Z.abs (1000 * val s
                          - (299 * r + 587 * g + 114 * b) * oneUnit)
                   <= 2 ^ 280).
  { rewrite HU. lia. }
  destruct (toUint8Clamp_nearest (-120 - 52 - 52) s) as (Hrange & Hnear & Htie);
    [unfold scale; lia | exact N123 | rewrite HU in *; lia |].
  split; [exact Hrange|]. split; [|split; [exact Hnear | exact Htie]].
  rewrite HU in *. lia.
Qed.

Lemma byteAt_byte d i : bytes d -> 0 <= byteAt d i <= 255.
Proof.
  intros Hd. unfold byteAt.
  destruct (nth_in_or_default (Z.to_nat i) d 0) as [Hin | ->]; [|lia].
  unfold bytes in Hd. rewrite Forall_forall in Hd. apply Hd; exact Hin.
Qed.

(** C8 (amended): for every pixel of a well-formed buffer the grayscale
    stage stores the binary64 value of [0.299 R + 0.587 G + 0.114 B]
    converted to a byte: the nearest integer, the even one on a tie.  The
    alpha byte plays no part; the stored value lies in [0, 255] and within
    a half of the exact [(299 R + 587 G + 114 B) / 1000]. *)
Theorem grayscale_value img k :
  wellFormed img -> bytes (data img) ->
  0 <= k < width img * height img ->
  let r := byteAt (data img) (4 * k) in
  let g := byteAt (data img) (4 * k + 1) in
  let b := byteAt (data img) (4 * k + 2) in
  let s := luminance (num r) (num g) (num b) in
  exists v,
    aget (grayscale img) k = Some v
    /\ v = toUint8Clamp s
    /\ 0 <= v <= 255
    /\ Z.abs (1000 * v - (299 * r + 587 * g + 114 * b)) <= 500
    /\ 2 * Z.abs (v * oneUnit - val s) <= oneUnit
    /\ (2 * Z.abs (v * oneUnit - val s) = oneUnit -> Z.even v = true).
Proof.
  intros Hwf Hbytes Hk. cbv zeta.
  exists (grayAt (data img) k). split; [apply grayscale_get; auto|].
  split; [reflexivity|].
  exact (grayOf_nearest _ _ _ (byteAt_byte _ (4 * k) Hbytes)
           (byteAt_byte _ (4 * k + 1) Hbytes)
           (byteAt_byte _ (4 * k + 2) Hbytes)).
Qed.

Lemma grayscale_value_witness :
  exists v,
    aget (grayscale bluePixel) 0 = Some v
    /\ 0 <= v <= 255
    /\ Z.abs (1000 * v - 28500) <= 500.
Proof.
  destruct (grayscale_value bluePixel 0) as (v & Hv & _ & Hr & He & _).
  - unfold wellFormed. split; [reflexivity|]. split; [reflexivity|].
    apply (uniform_length 1 1 0 0 250 255). lia.
  - repeat constructor; lia.
  - simpl; lia.
  - exists v. split; [exact Hv|]. split; [exact Hr | exact He].
Defined.

(** C8, refuted as stated: the colour (0, 0, 250) has the luminance 28.5,
    exactly so in binary64; ordinary rounding gives 29, the stage stores
    28. *)
Lemma gray_tie_goes_to_even :
  luminance (num 0) (num 0) (num 250)
    = S754_finite false 8022036836253696 (-48)
  /\ 2 * (8022036836253696 * 2 ^ (-48 + scale)) = 57 * oneUnit
  /\ aget (grayscale bluePixel) 0 = Some 28
  /\ specGray 0 0 250 = 29.
Proof. repeat split; vm_compute; reflexivity. Qed.
(** ** Flood fill: the shape of what a call collects *)

Lemma linked_incl region region' a p :
  incl region region' -> linked region a p -> linked region' a p.
Proof.
  intros Hi Hl; induction Hl.
  - apply linked_here; auto.
  - eapply linked_step; eauto.
Qed.

Lemma linked_in region a p : linked region a p -> In p region.
Proof. intros Hl; destruct Hl; auto. Qed.

Section ShapeFacts.

Variables (W H : Z) (binary vis0 : list Z) (start : Z * Z).

Lemma fillStart_shape :
  fillShape start (fillStart vis0 (fst start) (snd start)).
Proof.
  constructor; cbn [fillStart stack visited pixels minX maxX minY maxY];
    auto.
  - constructor.
  - intros p [].
  - intros q [<-|[]]; left; destruct start; reflexivity.
Qed.

(** Each round of the loop keeps the shape. *)
Lemma fillStep_shape p rest st :
  fillInvariant W H binary vis0 start st ->
  fillShape start st ->
  stack st = p :: rest ->
  fillShape start (fillStep W H binary p rest st).
Proof.
  intros Hinv [Hnd Hfirst Hlink Hstk HminX HmaxX HminY HmaxY] Hstack.
  assert (Hp : p = start \/ exists q, In q (pixels st) /\ In p (neighbours q)).
  { apply Hstk; rewrite Hstack; left; reflexivity. }
  assert (Hempty : pixels st = [] -> p = start).
  { intros E. destruct Hp as [|(q & Hq & _)]; auto.
    rewrite E in Hq; destruct Hq. }
  destruct (fillStep_cases W H binary p rest st)
    as [[-> Hskip]
       | (Ho & Hv & Hb & Es & Ev & Ep & EminX & EmaxX & EminY & EmaxY)].
  - (* the cell is skipped *)
    constructor; simpl; auto.
    intros q Hq; apply Hstk; rewrite Hstack; right; exact Hq.
  - (* the cell is collected *)
    assert (Hfresh : ~ In p (pixels st)).
    { intros Hin.
      destruct (inv_pixels _ _ _ _ _ _ Hinv p Hin) as (_ & _ & Hm & _).
      unfold marked in Hm; congruence. }
    assert (Hincl : incl (pixels st) (p :: pixels st))
      by (intros q Hq; right; exact Hq).
    constructor.
    + rewrite Ep; constructor; auto.
    + rewrite Ep; right. destruct Hfirst as [E | (l & E)].
      * exists []. rewrite E, (Hempty E); reflexivity.
      * exists (p :: l). rewrite E; reflexivity.
    + rewrite Ep; intros q [<- | Hq].
      * destruct Hp as [-> | (q & Hq & Hn)].
        -- apply linked_here; left; reflexivity.
        -- apply (linked_step _ _ q); [|exact Hn | left; reflexivity].
           apply (linked_incl (pixels st)); auto.
      * apply (linked_incl (pixels st)); auto.
    + rewrite Es, Ep; intros q Hq.
      assert (Hq' : In q (neighbours p) \/ In q rest).
      { unfold neighbours; simpl in Hq |- *.
        destruct Hq as [<-|[<-|[<-|[<-|Hq]]]]; auto 10. }
      destruct Hq' as [Hn | Hr].
      * right; exists p; split; [left; reflexivity | exact Hn].
      * destruct (Hstk q) as [-> | (q' & Hq' & Hn')]; auto.
        -- rewrite Hstack; right; exact Hr.
        -- right; exists q'; split; [right; exact Hq' | exact Hn'].
    + right; rewrite Ep, EminX.
      destruct (Z.ltb_spec (fst p) (minX st)).
      * exists p; split; [left|]; reflexivity.
      * destruct HminX as [(E & Em) | (q & Hq & Eq)].
        -- exists p; split; [left; reflexivity|].
           rewrite Em, (Hempty E); reflexivity.
        -- exists q; split; [right; exact Hq | exact Eq].
    + right; rewrite Ep, EmaxX.
      destruct (Z.ltb_spec (maxX st) (fst p)).
      * exists p; split; [left|]; reflexivity.
      * destruct HmaxX as [(E & Em) | (q & Hq & Eq)].
        -- exists p; split; [left; reflexivity|].
           rewrite Em, (Hempty E); reflexivity.
        -- exists q; split; [right; exact Hq | exact Eq].
    + right; rewrite Ep, EminY.
      destruct (Z.ltb_spec (snd p) (minY st)).
      * exists p; split; [left|]; reflexivity.
      * destruct HminY as [(E & Em) | (q & Hq & Eq)].
        -- exists p; split; [left; reflexivity|].
           rewrite Em, (Hempty E); reflexivity.
        -- exists q; split; [right; exact Hq | exact Eq].
    + right; rewrite Ep, EmaxY.
      destruct (Z.ltb_spec (maxY st) (snd p)).
      * exists p; split; [left|]; reflexivity.
      * destruct HmaxY as [(E & Em) | (q & Hq & Eq)].
        -- exists p; split; [left; reflexivity|].
           rewrite Em, (Hempty E); reflexivity.
        -- exists q; split; [right; exact Hq | exact Eq].
Qed.

End ShapeFacts.

(** ** The scan, position by position *)

Section ScanOrder.

Variable hypot : f64 -> f64 -> f64.
Variable acos : f64 -> f64.
Variables (W H : Z) (binary : list Z).

(** [Q x y s]: what holds of the state [s] when the scan is about to look
    at the cell [(x, y)]. *)
Variable Q : Z -> Z -> ScanState -> Prop.

Hypothesis Q_skip :
  forall s x y,
    0 <= x < W -> 0 <= y < H ->
    length (sc_visited s) = Z.to_nat (W * H) ->
    Q x y s ->
    same (aget binary (getIndex W x y)) 255
      && negb (truthy (aget (sc_visited s) (getIndex W x y))) = false ->
    Q (x + 1) y s.

Hypothesis Q_fill :
  forall s x y vis' shape,
    0 <= x < W -> 0 <= y < H ->
    length (sc_visited s) = Z.to_nat (W * H) ->
    Q x y s ->
    same (aget binary (getIndex W x y)) 255 = true ->
    truthy (aget (sc_visited s) (getIndex W x y)) = false ->
    floodFill hypot acos W H binary (sc_visited s) x y = Some (vis', shape) ->
    Q (x + 1) y (afterFill s vis' shape).

Hypothesis Q_row :
  forall s y, 0 <= y < H -> Q (Z.max 0 W) y s -> Q 0 (y + 1) s.

Lemma scanRow_at n : forall x y s,
  0 <= x -> 0 <= y < H ->
  (forall k, (k < n)%nat -> x + Z.of_nat k < W) ->
  length (sc_visited s) = Z.to_nat (W * H) ->
  Q x y s ->
  exists s',
    scanRow hypot acos W H binary n x y s = Some s'
    /\ length (sc_visited s') = Z.to_nat (W * H)
    /\ Q (x + Z.of_nat n) y s'.
Proof.
  induction n as [|n IH]; intros x y s Hx Hy Hn Hlen HQ.
  - exists s; simpl. replace (x + 0) with x by lia. auto.
  - assert (Hx' : 0 <= x < W) by (specialize (Hn O); lia).
    assert (Hnext : forall k, (k < n)%nat -> x + 1 + Z.of_nat k < W).
    { intros k Hk; specialize (Hn (S k)); lia. }
    replace (x + Z.of_nat (S n)) with (x + 1 + Z.of_nat n) by lia.
    cbn [scanRow].
    destruct (same (aget binary (getIndex W x y)) 255
              && negb (truthy (aget (sc_visited s) (getIndex W x y))))
      eqn:Hc.
    + apply andb_true_iff in Hc. destruct Hc as [Hfg Hv].
      apply negb_true_iff in Hv.
      destruct (floodFill_returns hypot acos W H binary (sc_visited s) x y Hlen)
        as (vis' & shape & E & Hl).
      rewrite E.
      apply (IH (x + 1) y (afterFill s vis' shape)); auto; lia.
    + apply IH; auto; try lia.
Qed.

Lemma scanRows_at n : forall y s,
  0 <= y ->
  (forall k, (k < n)%nat -> y + Z.of_nat k < H) ->
  length (sc_visited s) = Z.to_nat (W * H) ->
  Q 0 y s ->
  exists s',
    scanRows hypot acos W H binary n y s = Some s'
    /\ length (sc_visited s') = Z.to_nat (W * H)
    /\ Q 0 (y + Z.of_nat n) s'.
Proof.
  induction n as [|n IH]; intros y s Hy Hn Hlen HQ.
  - exists s; simpl. replace (y + 0) with y by lia. auto.
  - assert (Hy' : 0 <= y < H) by (specialize (Hn O); lia).
    replace (y + Z.of_nat (S n)) with (y + 1 + Z.of_nat n) by lia.
    cbn [scanRows].
    destruct (scanRow_at (Z.to_nat W) 0 y s) as (s1 & E & Hl & HQ1);
      auto; try lia.
    rewrite E. apply IH; auto; try lia.
    + intros k Hk; specialize (Hn (S k)); lia.
    + apply Q_row; auto.
      replace (Z.max 0 W) with (0 + Z.of_nat (Z.to_nat W)) by lia.
      exact HQ1.
Qed.

Lemma scan_at :
  Q 0 0 {| sc_visited := repeat 0 (Z.to_nat (W * H)); sc_found := [] |} ->
  exists s,
    scan hypot acos W H binary = Some s
    /\ length (sc_visited s) = Z.to_nat (W * H)
    /\ Q 0 (Z.max 0 H) s.
Proof.
  intros HQ; unfold scan.
  replace (Z.max 0 H) with (0 + Z.of_nat (Z.to_nat H)) by lia.
  apply scanRows_at; auto; try lia.
  simpl; apply repeat_length.
Qed.

End ScanOrder.

(** ** The books of the scan *)

Lemma inScanOrder_app l p :
  inScanOrder l -> Forall (fun q => before (fst p) (snd p) q) l ->
  inScanOrder (l ++ [p]).
Proof.
  induction l as [|a l IH]; simpl.
  - intros _ _; split; [constructor | exact I].
  - intros [Ha Hl] Hall. inversion Hall as [|? ? Hap Hlp]; subst.
    split; [|apply IH; auto].
    apply Forall_app; split; auto.
Qed.

Lemma allPixels_app rs r :
  allPixels (rs ++ [r]) = allPixels rs ++ r_pixels r.
Proof.
  unfold allPixels. rewrite map_app, concat_app; simpl.
  rewrite app_nil_r; reflexivity.
Qed.

Lemma concat_app_single (l : list (list (Z * Z))) a :
  concat (l ++ [a]) = concat l ++ a.
Proof. rewrite concat_app; simpl; rewrite app_nil_r; reflexivity. Qed.

Section LedgerFacts.

Variable hypot : f64 -> f64 -> f64.
Variable acos : f64 -> f64.
Variables (W H : Z) (binary : list Z).
Variable P : Region -> Prop.
Variable D : list (Z * Z) -> Prop.

Hypothesis P_kept :
  forall vis0 start st,
    fillRun W H binary vis0 start st ->
    tooSmall W H (Z.of_nat (length (pixels st))) = false ->
    P (measure hypot acos W H binary st).

Hypothesis D_dropped :
  forall vis0 start st,
    fillRun W H binary vis0 start st ->
    tooSmall W H (Z.of_nat (length (pixels st))) = true ->
    D (rev (pixels st)).

(** The first pixel of what a flood fill collects is the cell it started
    from. *)
Lemma fillRun_first vis0 start st :
  fillRun W H binary vis0 start st ->
  exists l, rev (pixels st) = start :: l.
Proof.
  intros R.
  pose proof (final_start W H binary vis0 start st
                (run_invariant _ _ _ _ _ _ R) (run_done _ _ _ _ _ _ R)) as Hs.
  destruct (shp_first _ _ (run_shape _ _ _ _ _ _ R)) as [E | (l & E)].
  - rewrite E in Hs; destruct Hs.
  - exists (rev l). rewrite E, rev_app_distr; reflexivity.
Qed.

(** A flood fill from a white cell that the scan has not marked runs to
    its end. *)
Lemma floodFill_run s x y vis' shape :
  0 <= x < W -> 0 <= y < H ->
  length (sc_visited s) = Z.to_nat (W * H) ->
  closed W H binary (sc_visited s) ->
  (forall q, inside W H q -> before x y q -> white W binary q ->
     marked W (sc_visited s) q) ->
  same (aget binary (getIndex W x y)) 255 = true ->
  truthy (aget (sc_visited s) (getIndex W x y)) = false ->
  floodFill hypot acos W H binary (sc_visited s) x y = Some (vis', shape) ->
  exists st,
    fillRun W H binary (sc_visited s) (x, y) st
    /\ vis' = visited st
    /\ shape = (if tooSmall W H (Z.of_nat (length (pixels st))) then None
                else Some (measure hypot acos W H binary st)).
Proof.
  intros Hx Hy Hl Hc Hb Hfg Hv E.
  assert (Hin : inside W H (x, y)) by (split; assumption).
  assert (Hfg' : foreground W binary (x, y))
    by (apply same_255_foreground; exact Hfg).
  assert (Hnew : ~ marked W (sc_visited s) (x, y))
    by (unfold marked; simpl; congruence).
  destruct (floodFill_invariant hypot acos W H binary
              (fun st => fillInvariant W H binary (sc_visited s) (x, y) st
                         /\ fillShape (x, y) st)
              (sc_visited s) x y) as (st & _ & [Hinv Hshp] & Hst & _ & E').
  - intros p rest s' Hl' [Hi Hsh] Hs'. split.
    + apply fillStep_invariant; auto.
    + eapply fillStep_shape; eauto.
  - exact Hl.
  - split.
    + apply (fillStart_invariant W H binary (sc_visited s) (x, y)); auto.
    + apply (fillStart_shape (sc_visited s) (x, y)).
  - rewrite E in E'; injection E' as -> ->.
    exists st; split; [|split; reflexivity].
    constructor; auto.
Qed.

Lemma ledger_skip s x y dropped :
  0 <= x < W -> 0 <= y < H ->
  scanLedger W H binary P D x y s dropped ->
  same (aget binary (getIndex W x y)) 255
    && negb (truthy (aget (sc_visited s) (getIndex W x y))) = false ->
  scanLedger W H binary P D (x + 1) y s dropped.
Proof.
  intros Hx Hy [Hc Hb Hf Hd Hm Hp Ha Hn Hcnt Ho Hs] Hcell.
  constructor; auto.
  - intros q Hq [Hlt | [Ey Hlt]] Hw.
    + apply Hb; auto. left; exact Hlt.
    + destruct (Z.eq_dec (fst q) x) as [Ex | Ex].
      * destruct q as [qx qy]; simpl in Ex, Ey; subst qx qy.
        unfold white in Hw; simpl in Hw. rewrite Hw in Hcell.
        simpl in Hcell. apply negb_false_iff in Hcell. exact Hcell.
      * apply Hb; auto. right; split; [exact Ey | lia].
  - eapply Forall_impl; [|exact Hs].
    intros r [Hlt | [Ey Hlt]]; [left; exact Hlt | right; split; [exact Ey | lia]].
Qed.

Lemma ledger_row s y dropped :
  scanLedger W H binary P D (Z.max 0 W) y s dropped ->
  scanLedger W H binary P D 0 (y + 1) s dropped.
Proof.
  intros [Hc Hb Hf Hd Hm Hp Ha Hn Hcnt Ho Hs].
  constructor; auto.
  - intros q Hq [Hlt | [Ey Hlt]] Hw; [|destruct Hq; lia].
    apply Hb; auto. destruct Hq as [Hqx Hqy].
    destruct (Z.eq_dec (snd q) y) as [Ey | Ey].
    + right; split; [exact Ey | lia].
    + left; lia.
  - eapply Forall_impl; [|exact Hs].
    intros r [Hlt | [Ey Hlt]]; left; lia.
Qed.

Lemma ledger_fill s x y vis' shape dropped :
  0 <= x < W -> 0 <= y < H ->
  length (sc_visited s) = Z.to_nat (W * H) ->
  scanLedger W H binary P D x y s dropped ->
  same (aget binary (getIndex W x y)) 255 = true ->
  truthy (aget (sc_visited s) (getIndex W x y)) = false ->
  floodFill hypot acos W H binary (sc_visited s) x y = Some (vis', shape) ->
  exists dropped',
    scanLedger W H binary P D (x + 1) y (afterFill s vis' shape) dropped'.
Proof.
  intros Hx Hy Hl [Hc Hb Hf Hd Hm Hp Ha Hn Hcnt Ho Hs] Hfg Hv E.
  destruct (floodFill_run s x y vis' shape Hx Hy Hl Hc Hb Hfg Hv E)
    as (st & R & -> & ->).
  pose proof (run_invariant _ _ _ _ _ _ R) as Hinv.
  pose proof (run_done _ _ _ _ _ _ R) as Hdone.
  pose proof (run_shape _ _ _ _ _ _ R) as Hshp.
  pose proof (final_start W H binary _ _ st Hinv Hdone) as Hstart.
  assert (Hpix : forall q, In q (rev (pixels st)) ->
            inside W H q /\ marked W (visited st) q
            /\ ~ marked W (sc_visited s) q).
  { intros q Hq. apply in_rev in Hq.
    destruct (inv_pixels _ _ _ _ _ _ Hinv q Hq) as (Hi & _ & Hmk & Hnew).
    auto. }
  assert (Hold : forall q, In q (allPixels (sc_found s)) \/ In q (concat dropped) ->
            inside W H q /\ marked W (visited st) q).
  { intros q Hq. destruct (Hp q Hq) as [Hi Hmk]. split; auto.
    apply (inv_old _ _ _ _ _ _ Hinv); auto. }
  assert (Hbefore : forall q, inside W H q -> before (x + 1) y q ->
            white W binary q -> marked W (visited st) q).
  { intros q Hq Hbq Hw.
    assert (Hcase : before x y q \/ q = (x, y)).
    { destruct Hbq as [Hlt | [Ey Hlt]]; [left; left; exact Hlt|].
      destruct (Z.eq_dec (fst q) x) as [Ex | Ex].
      - right; destruct q; simpl in *; congruence.
      - left; right; split; [exact Ey | lia]. }
    destruct Hcase as [Hbq' | ->].
    - apply (inv_old _ _ _ _ _ _ Hinv); auto.
    - destruct (inv_pixels _ _ _ _ _ _ Hinv _ Hstart) as (_ & _ & Hmk & _).
      exact Hmk. }
  assert (Hstarts : Forall (fun r => before (x + 1) y (firstPixel r))
                      (sc_found s)).
  { eapply Forall_impl; [|exact Hs].
    intros r [Hlt | [Ey Hlt]];
      [left; exact Hlt | right; split; [exact Ey | lia]]. }
  pose proof (inv_count _ _ _ _ _ _ Hinv) as Hcount.
  destruct (tooSmall W H (Z.of_nat (length (pixels st)))) eqn:Hsmall.
  - (* the fill is dropped *)
    exists (dropped ++ [rev (pixels st)]).
    constructor; cbn [afterFill sc_visited sc_found]; auto.
    + eapply final_closed; eauto.
    + apply Forall_app; split; auto. constructor; [|constructor].
      eapply D_dropped; eauto.
    + intros q Hq Hmk. rewrite concat_app_single.
      destruct (inv_new _ _ _ _ _ _ Hinv q Hq Hmk) as [Hmk0 | Hin].
      * destruct (Hm q Hq Hmk0) as [Hin | Hin]; auto.
        right; apply in_or_app; auto.
      * right; apply in_or_app; right. apply in_rev in Hin; exact Hin.
    + intros q. rewrite concat_app_single. intros [Hq | Hq].
      * apply Hold; auto.
      * apply in_app_or in Hq. destruct Hq as [Hq | Hq].
        -- apply Hold; auto.
        -- destruct (Hpix q Hq) as (Hi & Hmk & _); auto.
    + intros q Hq. rewrite concat_app_single. intros Hq'.
      apply in_app_or in Hq'. destruct Hq' as [Hq' | Hq'].
      * exact (Ha q Hq Hq').
      * destruct (Hpix q Hq') as (_ & _ & Hnew). apply Hnew.
        apply Hp; auto.
    + lia.
  - (* the fill is kept *)
    exists dropped.
    assert (HP : P (measure hypot acos W H binary st))
      by (eapply P_kept; eauto).
    assert (Hr : r_pixels (measure hypot acos W H binary st) = rev (pixels st))
      by reflexivity.
    assert (Hfp : firstPixel (measure hypot acos W H binary st) = (x, y)).
    { unfold firstPixel. rewrite Hr.
      destruct (fillRun_first _ _ _ R) as (l & ->). reflexivity. }
    constructor; cbn [afterFill sc_visited sc_found];
      rewrite ?allPixels_app, ?Hr; auto.
    + eapply final_closed; eauto.
    + apply Forall_app; split; auto.
    + intros q Hq Hmk.
      destruct (inv_new _ _ _ _ _ _ Hinv q Hq Hmk) as [Hmk0 | Hin].
      * destruct (Hm q Hq Hmk0) as [Hin | Hin]; auto.
        left; apply in_or_app; auto.
      * left; apply in_or_app; right. apply in_rev in Hin; exact Hin.
    + intros q [Hq | Hq].
      * apply in_app_or in Hq. destruct Hq as [Hq | Hq].
        -- apply Hold; auto.
        -- destruct (Hpix q Hq) as (Hi & Hmk & _); auto.
      * apply Hold; auto.
    + intros q Hq Hq'. apply in_app_or in Hq. destruct Hq as [Hq | Hq].
      * exact (Ha q Hq Hq').
      * destruct (Hpix q Hq) as (_ & _ & Hnew). apply Hnew.
        apply Hp; auto.
    + apply NoDup_app; auto.
      * apply NoDup_rev. exact (shp_nodup _ _ Hshp).
      * intros q Hq Hq'. destruct (Hpix q Hq') as (_ & _ & Hnew).
        apply Hnew. apply Hp; auto.
    + rewrite length_app, length_rev. lia.
    + rewrite map_app. apply inScanOrder_app; auto.
      cbn [map]. rewrite Hfp. apply Forall_map. exact Hs.
    + apply Forall_app; split; auto. constructor; [|constructor].
      rewrite Hfp. right; simpl; lia.
Qed.

(** The scan ends, and its books are in order. *)
Lemma scan_ledger :
  exists s dropped,
    scan hypot acos W H binary = Some s
    /\ length (sc_visited s) = Z.to_nat (W * H)
    /\ scanLedger W H binary P D 0 (Z.max 0 H) s dropped.
Proof.
  destruct (scan_at hypot acos W H binary
              (fun x y s => exists dropped,
                   scanLedger W H binary P D x y s dropped))
    as (s & E & Hl & dropped & Hs).
  - intros s x y Hx Hy _ [dropped Hs] Hcell.
    exists dropped; apply ledger_skip; auto.
  - intros s x y vis' shape Hx Hy Hl [dropped Hs] Hfg Hv E.
    eapply ledger_fill; eauto.
  - intros s y _ [dropped Hs]. exists dropped; apply ledger_row; auto.
  - exists []. constructor; cbn [sc_visited sc_found allPixels map concat];
      auto.
    + intros p n _ Hm. destruct (nothing_marked W _ _ Hm).
    + intros q [Hqx Hqy] [Hlt | [_ Hlt]]; lia.
    + intros q _ Hm. destruct (nothing_marked W _ _ Hm).
    + intros q [[] | []].
    + constructor.
    + rewrite unvisited_repeat; simpl; lia.
    + exact I.
  - exists s, dropped; auto.
Qed.

End LedgerFacts.

(** ** What a flood fill collects is a component *)

Section RunFacts.

Variable hypot : f64 -> f64 -> f64.
Variable acos : f64 -> f64.
Variables (W H : Z) (binary : list Z).

Hypothesis Hmask : isMask W H binary.

(** In a mask, a cell of the image that is not 0 is 255. *)
Lemma foreground_white p :
  inside W H p -> foreground W binary p -> white W binary p.
Proof.
  intros [Hx Hy] Hfg. destruct Hmask as [Hl Hv].
  pose proof (index_range W H _ _ Hx Hy) as Hi.
  destruct (aget_in_range binary (getIndex W (fst p) (snd p))) as [v E];
    [lia|].
  unfold foreground, white in *. rewrite E in Hfg |- *. simpl in *.
  unfold aget in E. destruct (_ <? 0); [discriminate|].
  apply nth_error_In in E.
  rewrite Forall_forall in Hv. destruct (Hv v E) as [-> | ->];
    [discriminate | reflexivity].
Qed.

Lemma white_foreground p : white W binary p -> foreground W binary p.
Proof. apply same_255_foreground. Qed.

Section OneRun.

Variables (vis0 : list Z) (start : Z * Z) (st : FillState).
Hypothesis R : fillRun W H binary vis0 start st.

Lemma fillRun_maximal p n :
  In p (pixels st) -> In n (neighbours p) -> inside W H n ->
  foreground W binary n -> In n (pixels st).
Proof.
  intros Hp Hn Hni Hnf.
  pose proof (run_invariant _ _ _ _ _ _ R) as Hinv.
  destruct (inv_pixels _ _ _ _ _ _ Hinv p Hp) as (Hpi & Hpf & Hpm & Hp0).
  assert (Hnm : marked W (visited st) n).
  { apply (final_closed W H binary vis0 start st Hinv
             (run_done _ _ _ _ _ _ R) p); auto. }
  destruct (inv_new _ _ _ _ _ _ Hinv _ Hni Hnm) as [Hold | Hnew]; auto.
  exfalso; apply Hp0.
  apply (run_closed _ _ _ _ _ _ R n p); auto.
  apply (neighbours_sym W H vis0 (run_length _ _ _ _ _ _ R)); exact Hn.
Qed.

Lemma fillRun_component : isComponent W H binary (rev (pixels st)).
Proof.
  pose proof (run_invariant _ _ _ _ _ _ R) as Hinv.
  pose proof (run_shape _ _ _ _ _ _ R) as Hshp.
  destruct (fillRun_first W H binary vis0 start st R) as (l & E).
  assert (Hstart : In start (rev (pixels st))) by (rewrite E; left; reflexivity).
  constructor; rewrite ?E; cbn [hd]; rewrite <- ?E; auto.
  - apply NoDup_rev. exact (shp_nodup _ _ Hshp).
  - intros p Hp. apply in_rev in Hp.
    destruct (inv_pixels _ _ _ _ _ _ Hinv p Hp) as (Hpi & Hpf & _).
    split; auto. apply foreground_white; auto.
  - intros p Hp. apply in_rev in Hp.
    apply (linked_incl (pixels st)); [|exact (shp_linked _ _ Hshp p Hp)].
    intros q Hq; apply in_rev; rewrite rev_involutive; exact Hq.
  - intros p n Hp Hn Hni Hnw. apply in_rev in Hp. apply in_rev.
    rewrite rev_involutive.
    apply (fillRun_maximal p n); auto. apply white_foreground; exact Hnw.
  - intros p Hp Hb. apply in_rev in Hp.
    destruct (inv_pixels _ _ _ _ _ _ Hinv p Hp) as (Hpi & Hpf & _ & Hp0).
    apply Hp0. apply (run_before _ _ _ _ _ _ R); auto.
    apply foreground_white; auto.
Qed.

Lemma fillRun_region :
  tooSmall W H (Z.of_nat (length (pixels st))) = false ->
  regionFacts W H binary (measure hypot acos W H binary st).
Proof.
  intros Hbig.
  pose proof (run_invariant _ _ _ _ _ _ R) as Hinv.
  pose proof (run_shape _ _ _ _ _ _ R) as Hshp.
  pose proof (final_start W H binary vis0 start st Hinv
                (run_done _ _ _ _ _ _ R)) as Hstart.
  assert (Hne : pixels st <> [])
    by (intros E; rewrite E in Hstart; destruct Hstart).
  assert (Hback : forall p, In p (pixels st) -> In p (rev (pixels st)))
    by (intros p Hp; apply in_rev; rewrite rev_involutive; exact Hp).
  constructor.
  - exact fillRun_component.
  - reflexivity.
  - cbn [measure r_area]. rewrite length_rev; exact Hbig.
  - split; reflexivity.
  - intros p Hp. apply in_rev in Hp. exact (inv_box _ _ _ _ _ _ Hinv p Hp).
  - exact (inv_bounds _ _ _ _ _ _ Hinv).
  - destruct (shp_minX _ _ Hshp) as [[E _] | (p & Hp & Ep)]; [contradiction|].
    exists p; split; [apply Hback; exact Hp | exact Ep].
  - destruct (shp_maxX _ _ Hshp) as [[E _] | (p & Hp & Ep)]; [contradiction|].
    exists p; split; [apply Hback; exact Hp | exact Ep].
  - destruct (shp_minY _ _ Hshp) as [[E _] | (p & Hp & Ep)]; [contradiction|].
    exists p; split; [apply Hback; exact Hp | exact Ep].
  - destruct (shp_maxY _ _ Hshp) as [[E _] | (p & Hp & Ep)]; [contradiction|].
    exists p; split; [apply Hback; exact Hp | exact Ep].
  - reflexivity.
  - reflexivity.
  - exact (proj2 (measure_border hypot acos W H binary vis0 start st
                    (run_length _ _ _ _ _ _ R) (run_closed _ _ _ _ _ _ R)
                    (run_inside _ _ _ _ _ _ R)
                    (white_foreground _ (run_white _ _ _ _ _ _ R))
                    (run_new _ _ _ _ _ _ R) Hinv (run_done _ _ _ _ _ _ R))).
  - reflexivity.
  - reflexivity.
Qed.

Lemma fillRun_small :
  tooSmall W H (Z.of_nat (length (pixels st))) = true ->
  smallComponent W H binary (rev (pixels st)).
Proof.
  intros Hsmall; split; [exact fillRun_component|].
  rewrite length_rev; exact Hsmall.
Qed.

End OneRun.

(** The scan ends with every white cell of the mask in one component:
    a region that it keeps, or a component that the area filter turned
    down. *)
Lemma scan_components :
  exists s dropped,
    scan hypot acos W H binary = Some s
    /\ length (sc_visited s) = Z.to_nat (W * H)
    /\ scanLedger W H binary (regionFacts W H binary)
         (smallComponent W H binary) 0 (Z.max 0 H) s dropped.
Proof.
  apply scan_ledger.
  - intros vis0 start st R Hbig. apply (fillRun_region vis0 start st R Hbig).
  - intros vis0 start st R Hsmall. apply (fillRun_small vis0 start st R Hsmall).
Qed.

End RunFacts.

(** ** The area filter *)

Lemma shr_nonneg r e n : 0 <= shr_m r -> 0 <= shr_m (fst (shr r e n)).
Proof.
  intros Hr; destruct n; simpl; auto using iter_shr_nonneg.
Qed.

Lemma shr_record_of_loc_m m l : shr_m (shr_record_of_loc m l) = m.
Proof. destruct l as [|[| |]]; reflexivity. Qed.

Lemma shr_fexp_nonneg m e l :
  0 <= m -> 0 <= shr_m (fst (shr_fexp prec emax m e l)).
Proof.
  intros Hm; unfold shr_fexp. apply shr_nonneg.
  rewrite shr_record_of_loc_m; exact Hm.
Qed.

(** Rounding a mantissa that is not negative never gives NaN. *)
Lemma round_aux_not_nan s m e l :
  0 <= m -> is_nan (binary_round_aux prec emax s m e l) = false.
Proof.
  intros Hm; unfold binary_round_aux.
  pose proof (shr_fexp_nonneg m e l Hm) as H1.
  destruct (shr_fexp prec emax m e l) as [mrs' e'].
  cbn [fst] in H1.
  pose proof (round_nearest_even_bounds (shr_m mrs') (loc_of_shr_record mrs'))
    as Hr.
  pose proof (shr_fexp_nonneg
                (round_nearest_even (shr_m mrs') (loc_of_shr_record mrs'))
                e' loc_Exact ltac:(lia)) as H2.
  destruct (shr_fexp prec emax _ e' loc_Exact) as [mrs'' e''].
  cbn [fst] in H2.
  destruct (shr_m mrs'') as [|p|p]; [reflexivity | | lia].
  destruct (e'' <=? emax - prec); reflexivity.
Qed.

(** A quotient of two finite numbers is never NaN. *)
Lemma fdiv_finite_not_nan sx mx ex sy my ey :
  is_nan (fdiv (S754_finite sx mx ex) (S754_finite sy my ey)) = false.
Proof.
  unfold fdiv, SFdiv, SFdiv_core_binary.
  set (e' := Z.min _ _). set (m' := match ex - ey - e' with
                                    | 0 => Zpos mx
                                    | Zpos _ => Z.shiftl (Zpos mx) (ex - ey - e')
                                    | Zneg _ => 0
                                    end).
  assert (Hm : 0 <= m').
  { unfold m'. destruct (ex - ey - e'); try lia.
    apply Z.shiftl_nonneg; lia. }
  pose proof (Z_div_mod m' (Zpos my) ltac:(lia)) as Hdiv.
  destruct (Z.div_eucl m' (Zpos my)) as [q r].
  apply round_aux_not_nan. destruct Hdiv as [Hq Hr]. nia.
Qed.

Lemma num_shape z :
  0 <= z ->
  num z = S754_zero false
  \/ (exists m e, num z = S754_finite false m e)
  \/ num z = S754_infinity false.
Proof.
  intros Hz. destruct (Z.eq_dec z 0) as [-> | Hne]; [left; reflexivity|].
  destruct (num_positive z ltac:(lia)) as [(m & e & -> & _) | ->]; eauto.
Qed.

(** The bound of the area filter is a number, and it is at least 50. *)
Lemma area_bound n :
  0 <= n ->
  fleb (num 50) (fmax (num 50) (fdiv (num n) (num 15000))) = true.
Proof.
  intros Hn.
  assert (Hq : is_nan (fdiv (num n) (num 15000)) = false).
  { change (num 15000) with (S754_finite false 8246337208320000 (-39)).
    destruct (num_shape n Hn) as [-> | [(m & e & ->) | ->]];
      [reflexivity | apply fdiv_finite_not_nan | reflexivity]. }
  set (q := fdiv (num n) (num 15000)) in *.
  unfold fmax. change (is_nan (num 50)) with false. rewrite Hq.
  cbn [orb].
  destruct (fltb (num 50) q) eqn:E1.
  - apply fleb_key. apply fltb_key in E1. tauto.
  - destruct (fltb q (num 50)); reflexivity.
Qed.

Lemma smallAreas_spec a : 0 <= a < 50 -> In a smallAreas.
Proof.
  intros Ha. unfold smallAreas.
  replace a with (Z.of_nat (Z.to_nat a)) by lia.
  apply in_map, in_seq; lia.
Qed.

Lemma smallAreas_below :
  forallb (fun a => fltb (num a) (num 50)) smallAreas = true.
Proof. vm_compute; reflexivity. Qed.

(** An area that passes the filter is at least 50. *)
Lemma tooSmall_false W H a :
  0 <= W * H -> 0 <= a -> tooSmall W H a = false -> 50 <= a.
Proof.
  intros Hn Ha Hf.
  destruct (Z.lt_ge_cases a 50) as [Hlt | Hge]; [exfalso | exact Hge].
  pose proof smallAreas_below as Hs. rewrite forallb_forall in Hs.
  specialize (Hs a (smallAreas_spec a ltac:(lia))).
  unfold tooSmall in Hf.
  rewrite (fltb_fleb_trans _ _ _ Hs (area_bound (W * H) Hn)) in Hf.
  discriminate.
Qed.

(** ** The regions of an image *)

Lemma maskOf_isMask img : isMask (width img) (height img) (maskOf img).
Proof.
  unfold isMask, maskOf. split.
  - rewrite binarize_length; apply grayscale_length.
  - unfold binarize. apply Forall_map, Forall_forall. intros g _.
    destruct (g <? _); auto.
Qed.

Section ImageFacts.

Variable hypot : f64 -> f64 -> f64.
Variable acos : f64 -> f64.

(** A call that returns has scanned the mask to its end, and the regions
    it returns are those in the books of the scan. *)
Lemma detectRegions_ledger img rs :
  detectRegions hypot acos img = Returned rs ->
  0 <= width img * height img
  /\ exists s dropped,
       rs = sc_found s
       /\ scanLedger (width img) (height img) (maskOf img)
            (regionFacts (width img) (height img) (maskOf img))
            (smallComponent (width img) (height img) (maskOf img))
            0 (Z.max 0 (height img)) s dropped.
Proof.
  rewrite detectRegions_scan.
  destruct (badLength_cases (width img * height img)) as [[-> _] | [-> [H0 _]]];
    [discriminate|].
  destruct (scan_components hypot acos (width img) (height img) (maskOf img)
              (maskOf_isMask img)) as (s & dropped & -> & _ & Hs).
  intros [= <-]. split; [assumption|]. exists s, dropped; auto.
Qed.

Lemma detectRegions_facts img rs r :
  detectRegions hypot acos img = Returned rs -> In r rs ->
  0 <= width img * height img
  /\ regionFacts (width img) (height img) (maskOf img) r.
Proof.
  intros E Hr. destruct (detectRegions_ledger img rs E)
    as (Hn & s & dropped & -> & Hs).
  split; [exact Hn|].
  pose proof (led_found _ _ _ _ _ _ _ _ _ Hs) as Hf.
  rewrite Forall_forall in Hf; auto.
Qed.

(** The shapes of a result are the regions of the image, in the same
    order. *)
Lemma detectShapes_regions img world res :
  fst (detectShapes hypot acos img world) = Returned res ->
  exists rs,
    detectRegions hypot acos img = Returned rs
    /\ shapes res = map toShape rs
    /\ imageWidth res = width img /\ imageHeight res = height img.
Proof.
  rewrite detectShapes_unfold.
  destruct (detectRegions hypot acos img) as [rs| |]; simpl;
    [|discriminate|discriminate].
  intros [= <-]; exists rs; auto.
Qed.

End ImageFacts.

(** ** Counting the cells of a box *)

Lemma boxCells_in x0 y0 w h p :
  x0 <= fst p < x0 + Z.of_nat w -> y0 <= snd p < y0 + Z.of_nat h ->
  In p (boxCells x0 y0 w h).
Proof.
  intros Hx Hy. destruct p as [x y]; simpl in *. apply in_prod.
  - apply in_map_iff. exists (Z.to_nat (x - x0)); split; [lia|].
    apply in_seq; lia.
  - apply in_map_iff. exists (Z.to_nat (y - y0)); split; [lia|].
    apply in_seq; lia.
Qed.

(** Distinct cells of a box are no more than the box has. *)
Lemma box_count (l : list (Z * Z)) x0 x1 y0 y1 :
  NoDup l ->
  (forall p, In p l -> x0 <= fst p <= x1 /\ y0 <= snd p <= y1) ->
  l <> [] ->
  Z.of_nat (length l) <= (x1 - x0 + 1) * (y1 - y0 + 1).
Proof.
  intros Hnd Hbox Hne.
  assert (Hw : 0 <= x1 - x0 /\ 0 <= y1 - y0).
  { destruct l as [|p l]; [congruence|].
    destruct (Hbox p (or_introl eq_refl)); lia. }
  pose proof (NoDup_incl_length (l' := boxCells x0 y0 (Z.to_nat (x1 - x0 + 1))
                                         (Z.to_nat (y1 - y0 + 1))) Hnd) as Hlen.
  unfold boxCells in Hlen at 2.
  rewrite length_prod, !length_map, !length_seq in Hlen.
  assert (Hincl : incl l (boxCells x0 y0 (Z.to_nat (x1 - x0 + 1))
                            (Z.to_nat (y1 - y0 + 1)))).
  { intros p Hp. destruct (Hbox p Hp). apply boxCells_in; lia. }
  specialize (Hlen Hincl). nia.
Qed.

(** ** Shapes and regions of the result *)

Lemma white_value W binary p :
  white W binary p ->
  aget binary (getIndex W (fst p) (snd p)) = Some 255.
Proof.
  unfold white. destruct (aget binary _) as [v|]; simpl; [|discriminate].
  intros Hv; apply Z.eqb_eq in Hv; congruence.
Qed.

Lemma totalArea_regions rs :
  (forall r, In r rs -> r_area r = Z.of_nat (length (r_pixels r))) ->
  totalArea (map toShape rs) = Z.of_nat (length (allPixels rs)).
Proof.
  induction rs as [|r rs IH]; intros Ha; [reflexivity|].
  unfold allPixels in *. cbn [map concat totalArea fold_right toShape area].
  fold (totalArea (map toShape rs)).
  rewrite length_app, IH by (intros; apply Ha; right; assumption).
  rewrite (Ha r (or_introl eq_refl)). lia.
Qed.

Lemma length_allPixels_min rs n :
  (forall r, In r rs -> n <= Z.of_nat (length (r_pixels r))) ->
  n * Z.of_nat (length rs) <= Z.of_nat (length (allPixels rs)).
Proof.
  induction rs as [|r rs IH]; intros Ha; [simpl; lia|].
  unfold allPixels in *. cbn [map concat length].
  rewrite length_app.
  specialize (Ha r (or_introl eq_refl)) as Hr.
  specialize (IH (fun r' Hr' => Ha r' (or_intror Hr'))). lia.
Qed.

Lemma in_allPixels rs r p : In r rs -> In p (r_pixels r) -> In p (allPixels rs).
Proof.
  intros Hr Hp. unfold allPixels. apply in_concat.
  exists (r_pixels r); split; [apply in_map; exact Hr | exact Hp].
Qed.

Lemma allPixels_in rs p :
  In p (allPixels rs) -> exists r, In r rs /\ In p (r_pixels r).
Proof.
  unfold allPixels. intros Hp. apply in_concat in Hp.
  destruct Hp as (l & Hl & Hp). apply in_map_iff in Hl.
  destruct Hl as (r & <- & Hr). exists r; auto.
Qed.

Lemma nondecreasing_scan (rs : list Region) (f : Region -> Z) :
  inScanOrder (map firstPixel rs) ->
  (forall r, In r rs -> f r = snd (firstPixel r)) ->
  nondecreasing (map f rs).
Proof.
  induction rs as [|r rs IH]; intros Ho Hf; [exact I|].
  cbn [map inScanOrder nondecreasing] in *. destruct Ho as [Hr Ho].
  split; [|apply IH; auto; intros; apply Hf; right; auto].
  apply Forall_map. rewrite Forall_map in Hr.
  apply Forall_forall. intros r' Hr'. rewrite Forall_forall in Hr.
  specialize (Hr r' Hr').
  rewrite (Hf r) by (left; reflexivity).
  rewrite (Hf r') by (right; exact Hr').
  destruct Hr as [Hlt | [Eq _]]; lia.
Qed.

Section ShapeProperties.

Variable hypot : f64 -> f64 -> f64.
Variable acos : f64 -> f64.

(** The top of the bounding box of a region is the row of its first
    pixel. *)
Lemma region_top W H binary r :
  regionFacts W H binary r -> r_minY r = snd (firstPixel r).
Proof.
  intros F. pose proof (reg_component _ _ _ _ F) as C.
  destruct (reg_top _ _ _ _ F) as (p & Hp & Ep).
  pose proof (cmp_top _ _ _ _ C p Hp) as Hnb.
  pose proof (reg_box _ _ _ _ F _ (cmp_first _ _ _ _ C)) as Hb.
  unfold firstPixel, before in *. lia.
Qed.

(** X1: the bounding box of every returned shape lies within the image
    and is at least one pixel wide and one pixel high. *)
Theorem bounding_box_within_image img world res s :
  fst (detectShapes hypot acos img world) = Returned res ->
  In s (shapes res) ->
  0 <= bb_x (boundingBox s) /\ 0 <= bb_y (boundingBox s)
  /\ 1 <= bb_width (boundingBox s) /\ 1 <= bb_height (boundingBox s)
  /\ bb_x (boundingBox s) + bb_width (boundingBox s) <= imageWidth res
  /\ bb_y (boundingBox s) + bb_height (boundingBox s) <= imageHeight res.
Proof.
  intros E Hs.
  destruct (detectShapes_regions hypot acos img world res E)
    as (rs & Er & Es & -> & ->).
  rewrite Es in Hs. apply in_map_iff in Hs. destruct Hs as (r & <- & Hr).
  destruct (detectRegions_facts hypot acos img rs r Er Hr) as [_ F].
  pose proof (reg_component _ _ _ _ F) as C.
  pose proof (reg_box _ _ _ _ F _ (cmp_first _ _ _ _ C)) as Hb.
  pose proof (reg_bounds _ _ _ _ F) as Hbd.
  destruct (reg_size _ _ _ _ F) as [Ew Eh].
  cbn [toShape boundingBox bb_x bb_y bb_width bb_height].
  rewrite Ew, Eh. lia.
Qed.

(** X2: every returned shape has an area of at least 50 pixels, and of no
    more than the area of its bounding box. *)
Theorem shape_area_bounds img world res s :
  fst (detectShapes hypot acos img world) = Returned res ->
  In s (shapes res) ->
  50 <= area s <= bb_width (boundingBox s) * bb_height (boundingBox s).
Proof.
  intros E Hs.
  destruct (detectShapes_regions hypot acos img world res E)
    as (rs & Er & Es & _).
  rewrite Es in Hs. apply in_map_iff in Hs. destruct Hs as (r & <- & Hr).
  destruct (detectRegions_facts hypot acos img rs r Er Hr) as [Hn F].
  pose proof (reg_component _ _ _ _ F) as C.
  destruct (reg_size _ _ _ _ F) as [Ew Eh].
  cbn [toShape boundingBox bb_x bb_y bb_width bb_height area].
  split.
  - apply (tooSmall_false (width img) (height img)); auto.
    + rewrite (reg_area _ _ _ _ F); lia.
    + exact (reg_large _ _ _ _ F).
  - rewrite Ew, Eh, (reg_area _ _ _ _ F).
    apply box_count.
    + exact (cmp_nodup _ _ _ _ C).
    + exact (reg_box _ _ _ _ F).
    + intros E0. pose proof (cmp_first _ _ _ _ C) as Hf.
      rewrite E0 in Hf; destruct Hf.
Qed.

(** X3: the pixels of a returned region are distinct cells of the image,
    each of them 255 in the binary mask, and the area of the region is their
    number. *)
Theorem region_pixels img rs r :
  detectRegions hypot acos img = Returned rs -> In r rs ->
  NoDup (r_pixels r)
  /\ r_area r = Z.of_nat (length (r_pixels r))
  /\ forall p, In p (r_pixels r) ->
       inside (width img) (height img) p
       /\ aget (maskOf img) (getIndex (width img) (fst p) (snd p)) = Some 255.
Proof.
  intros E Hr.
  destruct (detectRegions_facts hypot acos img rs r E Hr) as [_ F].
  pose proof (reg_component _ _ _ _ F) as C.
  split; [exact (cmp_nodup _ _ _ _ C)|].
  split; [exact (reg_area _ _ _ _ F)|].
  intros p Hp. destruct (cmp_white _ _ _ _ C p Hp) as [Hi Hw].
  split; [exact Hi | apply white_value; exact Hw].
Qed.

(** X4: a returned region is 4-connected: every pixel of it is reached
    from its first pixel by steps between 4-neighbours that stay in the
    region. *)
Theorem region_connected img rs r p :
  detectRegions hypot acos img = Returned rs -> In r rs ->
  In p (r_pixels r) ->
  linked (r_pixels r) (firstPixel r) p.
Proof.
  intros E Hr Hp.
  destruct (detectRegions_facts hypot acos img rs r E Hr) as [_ F].
  exact (cmp_linked _ _ _ _ (reg_component _ _ _ _ F) p Hp).
Qed.

(** X5: a returned region is a whole component: a cell of the image that
    is 255 in the mask and a 4-neighbour of a pixel of the region is a pixel
    of the region. *)
Theorem region_maximal img rs r p n :
  detectRegions hypot acos img = Returned rs -> In r rs ->
  In p (r_pixels r) -> In n (neighbours p) ->
  inside (width img) (height img) n ->
  aget (maskOf img) (getIndex (width img) (fst n) (snd n)) = Some 255 ->
  In n (r_pixels r).
Proof.
  intros E Hr Hp Hn Hi Hw.
  destruct (detectRegions_facts hypot acos img rs r E Hr) as [_ F].
  apply (cmp_maximal _ _ _ _ (reg_component _ _ _ _ F) p n); auto.
  unfold white. rewrite Hw. reflexivity.
Qed.

(** X6: the bounding box of a returned shape is the smallest rectangle
    that holds the pixels of its region: every pixel is in it, and each of
    its four sides holds a pixel. *)
Theorem bounding_box_tight img rs r :
  detectRegions hypot acos img = Returned rs -> In r rs ->
  let b := boundingBox (toShape r) in
  (forall p, In p (r_pixels r) ->
     bb_x b <= fst p < bb_x b + bb_width b
     /\ bb_y b <= snd p < bb_y b + bb_height b)
  /\ (exists p, In p (r_pixels r) /\ fst p = bb_x b)
  /\ (exists p, In p (r_pixels r) /\ fst p = bb_x b + bb_width b - 1)
  /\ (exists p, In p (r_pixels r) /\ snd p = bb_y b)
  /\ (exists p, In p (r_pixels r) /\ snd p = bb_y b + bb_height b - 1).
Proof.
  intros E Hr.
  destruct (detectRegions_facts hypot acos img rs r E Hr) as [_ F].
  destruct (reg_size _ _ _ _ F) as [Ew Eh].
  cbn [toShape boundingBox bb_x bb_y bb_width bb_height].
  rewrite Ew, Eh.
  split; [intros p Hp; pose proof (reg_box _ _ _ _ F p Hp); lia|].
  split; [exact (reg_left _ _ _ _ F)|].
  split.
  - destruct (reg_right _ _ _ _ F) as (p & Hp & Ep). exists p; split; [auto|lia].
  - split; [exact (reg_top _ _ _ _ F)|].
    destruct (reg_bottom _ _ _ _ F) as (p & Hp & Ep). exists p; split; [auto|lia].
Qed.

(** X7: the returned regions do not overlap: no cell is a pixel of two
    regions, or twice a pixel of one. *)
Theorem regions_disjoint img rs :
  detectRegions hypot acos img = Returned rs -> NoDup (allPixels rs).
Proof.
  intros E. destruct (detectRegions_ledger hypot acos img rs E)
    as (_ & s & dropped & -> & Hs).
  exact (led_nodup _ _ _ _ _ _ _ _ _ Hs).
Qed.

(** X8: the areas of the returned shapes add up to no more than the number
    of pixels of the image, so that there are at most [width * height / 50]
    shapes. *)
Theorem total_area_bounded img world res :
  fst (detectShapes hypot acos img world) = Returned res ->
  totalArea (shapes res) <= imageWidth res * imageHeight res
  /\ 50 * Z.of_nat (length (shapes res)) <= imageWidth res * imageHeight res.
Proof.
  intros E.
  destruct (detectShapes_regions hypot acos img world res E)
    as (rs & Er & -> & -> & ->).
  destruct (detectRegions_ledger hypot acos img rs Er)
    as (Hn & s & dropped & -> & Hs).
  pose proof (led_count _ _ _ _ _ _ _ _ _ Hs) as Hc.
  pose proof (led_found _ _ _ _ _ _ _ _ _ Hs) as Hf.
  rewrite Forall_forall in Hf.
  rewrite totalArea_regions
    by (intros r Hr; exact (reg_area _ _ _ _ (Hf r Hr))).
  split; [lia|].
  rewrite length_map.
  pose proof (length_allPixels_min (sc_found s) 50) as Hmin.
  assert (Hall : forall r, In r (sc_found s) ->
            50 <= Z.of_nat (length (r_pixels r))).
  { intros r Hr. rewrite <- (reg_area _ _ _ _ (Hf r Hr)).
    apply (tooSmall_false (width img) (height img)); auto.
    - rewrite (reg_area _ _ _ _ (Hf r Hr)); lia.
    - exact (reg_large _ _ _ _ (Hf r Hr)). }
  specialize (Hmin Hall). lia.
Qed.

(** X9: the scan accounts for every cell that is 255 in the mask: it is a
    pixel of a returned region, or a cell of a 4-connected component of the
    mask that the area filter turned down. *)
Theorem white_cells_accounted img rs p :
  detectRegions hypot acos img = Returned rs ->
  inside (width img) (height img) p ->
  aget (maskOf img) (getIndex (width img) (fst p) (snd p)) = Some 255 ->
  (exists r, In r rs /\ In p (r_pixels r))
  \/ (exists l,
        In p l
        /\ isComponent (width img) (height img) (maskOf img) l
        /\ tooSmall (width img) (height img) (Z.of_nat (length l)) = true).
Proof.
  intros E Hi Hw.
  destruct (detectRegions_ledger hypot acos img rs E)
    as (_ & s & dropped & -> & Hs).
  assert (Hm : marked (width img) (sc_visited s) p).
  { apply (led_before _ _ _ _ _ _ _ _ _ Hs); auto.
    - left. destruct Hi as [_ Hy]. lia.
    - unfold white. rewrite Hw. reflexivity. }
  destruct (led_marked _ _ _ _ _ _ _ _ _ Hs p Hi Hm) as [Hf | Hd].
  - left. apply allPixels_in; exact Hf.
  - right. apply in_concat in Hd. destruct Hd as (l & Hl & Hp).
    pose proof (led_dropped _ _ _ _ _ _ _ _ _ Hs) as HD.
    rewrite Forall_forall in HD. destruct (HD l Hl) as [C Hsmall].
    exists l; auto.
Qed.

(** X10: the regions are returned in the order in which the row-major
    scan meets their first pixels, and the first pixel of a region is the
    one of its pixels that the scan meets first. *)
Theorem regions_in_scan_order img rs :
  detectRegions hypot acos img = Returned rs ->
  inScanOrder (map firstPixel rs)
  /\ forall r p, In r rs -> In p (r_pixels r) ->
       p = firstPixel r \/ before (fst p) (snd p) (firstPixel r).
Proof.
  intros E. destruct (detectRegions_ledger hypot acos img rs E)
    as (_ & s & dropped & -> & Hs).
  split; [exact (led_order _ _ _ _ _ _ _ _ _ Hs)|].
  intros r p Hr Hp.
  pose proof (led_found _ _ _ _ _ _ _ _ _ Hs) as Hf.
  rewrite Forall_forall in Hf.
  pose proof (cmp_top _ _ _ _ (reg_component _ _ _ _ (Hf r Hr)) p Hp) as Ht.
  fold (firstPixel r) in Ht. unfold before in *.
  destruct p as [px py], (firstPixel r) as [fx fy]; simpl in *.
  destruct (Z.eq_dec px fx), (Z.eq_dec py fy); subst; auto; right; lia.
Qed.

(** X11: the shapes are returned from top to bottom: the top sides of
    their bounding boxes never go up along the list. *)
Theorem shapes_sorted_by_top img world res :
  fst (detectShapes hypot acos img world) = Returned res ->
  nondecreasing (map (fun s => bb_y (boundingBox s)) (shapes res)).
Proof.
  intros E.
  destruct (detectShapes_regions hypot acos img world res E)
    as (rs & Er & -> & _).
  destruct (detectRegions_ledger hypot acos img rs Er)
    as (_ & s & dropped & -> & Hs).
  rewrite map_map. cbn [toShape boundingBox bb_y].
  apply nondecreasing_scan.
  - exact (led_order _ _ _ _ _ _ _ _ _ Hs).
  - intros r Hr. pose proof (led_found _ _ _ _ _ _ _ _ _ Hs) as Hf.
    rewrite Forall_forall in Hf.
    exact (region_top _ _ _ r (Hf r Hr)).
Qed.

End ShapeProperties.

(** *** The properties on an image with two blocks and a speck *)

Lemma bounding_box_within_image_witness :
  exists res s,
    fst (detectShapes sampleHypot sampleAcos twoBlocks sampleWorld)
      = Returned res
    /\ In s (shapes res)
    /\ 0 <= bb_x (boundingBox s) /\ 0 <= bb_y (boundingBox s)
    /\ 1 <= bb_width (boundingBox s) /\ 1 <= bb_height (boundingBox s)
    /\ bb_x (boundingBox s) + bb_width (boundingBox s) <= imageWidth res
    /\ bb_y (boundingBox s) + bb_height (boundingBox s) <= imageHeight res.
Proof.
  eexists; eexists.
  eassert (E : fst (detectShapes sampleHypot sampleAcos twoBlocks sampleWorld)
               = Returned _) by (vm_compute; reflexivity).
  split; [exact E|]. split; [left; reflexivity|].
  eapply (bounding_box_within_image sampleHypot sampleAcos twoBlocks
            sampleWorld); [exact E | left; reflexivity].
Defined.

Lemma shape_area_bounds_witness :
  exists res s,
    fst (detectShapes sampleHypot sampleAcos twoBlocks sampleWorld)
      = Returned res
    /\ In s (shapes res)
    /\ 50 <= area s <= bb_width (boundingBox s) * bb_height (boundingBox s).
Proof.
  eexists; eexists.
  eassert (E : fst (detectShapes sampleHypot sampleAcos twoBlocks sampleWorld)
               = Returned _) by (vm_compute; reflexivity).
  split; [exact E|]. split; [left; reflexivity|].
  eapply (shape_area_bounds sampleHypot sampleAcos twoBlocks sampleWorld);
    [exact E | left; reflexivity].
Defined.

Lemma region_pixels_witness :
  exists rs r,
    detectRegions sampleHypot sampleAcos twoBlocks = Returned rs
    /\ In r rs
    /\ NoDup (r_pixels r)
    /\ r_area r = Z.of_nat (length (r_pixels r))
    /\ forall p, In p (r_pixels r) ->
         inside (width twoBlocks) (height twoBlocks) p
         /\ aget (maskOf twoBlocks)
              (getIndex (width twoBlocks) (fst p) (snd p)) = Some 255.
Proof.
  eexists; eexists.
  eassert (E : detectRegions sampleHypot sampleAcos twoBlocks = Returned _)
    by (vm_compute; reflexivity).
  split; [exact E|]. split; [left; reflexivity|].
  eapply (region_pixels sampleHypot sampleAcos twoBlocks);
    [exact E | left; reflexivity].
Defined.

Lemma region_connected_witness :
  exists rs r p,
    detectRegions sampleHypot sampleAcos twoBlocks = Returned rs
    /\ In r rs /\ In p (r_pixels r)
    /\ linked (r_pixels r) (firstPixel r) p.
Proof.
  eexists; eexists; eexists.
  eassert (E : detectRegions sampleHypot sampleAcos twoBlocks = Returned _)
    by (vm_compute; reflexivity).
  split; [exact E|]. split; [left; reflexivity|].
  split; [right; left; reflexivity|].
  eapply (region_connected sampleHypot sampleAcos twoBlocks);
    [exact E | left; reflexivity | right; left; reflexivity].
Defined.

Lemma region_maximal_witness :
  exists rs r,
    detectRegions sampleHypot sampleAcos twoBlocks = Returned rs
    /\ In r rs /\ In (0, 0) (r_pixels r) /\ In (1, 0) (r_pixels r).
Proof.
  eexists; eexists.
  eassert (E : detectRegions sampleHypot sampleAcos twoBlocks = Returned _)
    by (vm_compute; reflexivity).
  split; [exact E|]. split; [left; reflexivity|].
  split; [left; reflexivity|].
  eapply (region_maximal sampleHypot sampleAcos twoBlocks _ _ (0, 0) (1, 0)).
  - exact E.
  - left; reflexivity.
  - left; reflexivity.
  - left; reflexivity.
  - unfold inside; simpl; lia.
  - vm_compute; reflexivity.
Defined.

Lemma bounding_box_tight_witness :
  exists rs r,
    detectRegions sampleHypot sampleAcos twoBlocks = Returned rs
    /\ In r rs
    /\ (forall p, In p (r_pixels r) ->
          bb_x (boundingBox (toShape r)) <= fst p
          < bb_x (boundingBox (toShape r)) + bb_width (boundingBox (toShape r)))
    /\ exists p, In p (r_pixels r) /\ fst p = bb_x (boundingBox (toShape r)).
Proof.
  eexists; eexists.
  eassert (E : detectRegions sampleHypot sampleAcos twoBlocks = Returned _)
    by (vm_compute; reflexivity).
  split; [exact E|]. split; [left; reflexivity|].
  edestruct (bounding_box_tight sampleHypot sampleAcos twoBlocks)
    as (Hin & Hleft & _); [exact E | left; reflexivity |].
  split; [|exact Hleft].
  intros p Hp. exact (proj1 (Hin p Hp)).
Defined.

Lemma regions_disjoint_witness :
  exists rs,
    detectRegions sampleHypot sampleAcos twoBlocks = Returned rs
    /\ length rs = 2%nat
    /\ NoDup (allPixels rs).
Proof.
  eexists.
  eassert (E : detectRegions sampleHypot sampleAcos twoBlocks = Returned _)
    by (vm_compute; reflexivity).
  split; [exact E|]. split; [reflexivity|].
  exact (regions_disjoint sampleHypot sampleAcos twoBlocks _ E).
Defined.

Lemma total_area_bounded_witness :
  exists res,
    fst (detectShapes sampleHypot sampleAcos twoBlocks sampleWorld)
      = Returned res
    /\ totalArea (shapes res) <= imageWidth res * imageHeight res
    /\ 50 * Z.of_nat (length (shapes res)) <= imageWidth res * imageHeight res.
Proof.
  eexists.
  eassert (E : fst (detectShapes sampleHypot sampleAcos twoBlocks sampleWorld)
               = Returned _) by (vm_compute; reflexivity).
  split; [exact E|].
  exact (total_area_bounded sampleHypot sampleAcos twoBlocks sampleWorld _ E).
Defined.

Lemma white_cells_accounted_witness :
  exists rs,
    detectRegions sampleHypot sampleAcos twoBlocks = Returned rs
    /\ ((exists r, In r rs /\ In (22, 0) (r_pixels r))
        \/ (exists l,
              In (22, 0) l
              /\ isComponent (width twoBlocks) (height twoBlocks)
                   (maskOf twoBlocks) l
              /\ tooSmall (width twoBlocks) (height twoBlocks)
                   (Z.of_nat (length l)) = true)).
Proof.
  eexists.
  eassert (E : detectRegions sampleHypot sampleAcos twoBlocks = Returned _)
    by (vm_compute; reflexivity).
  split; [exact E|].
  eapply (white_cells_accounted sampleHypot sampleAcos twoBlocks _ (22, 0)).
  - exact E.
  - unfold inside; simpl; lia.
  - vm_compute; reflexivity.
Defined.

Lemma regions_in_scan_order_witness :
  exists rs,
    detectRegions sampleHypot sampleAcos twoBlocks = Returned rs
    /\ map firstPixel rs = [(0, 0); (11, 0)]
    /\ inScanOrder (map firstPixel rs).
Proof.
  eexists.
  eassert (E : detectRegions sampleHypot sampleAcos twoBlocks = Returned _)
    by (vm_compute; reflexivity).
  split; [exact E|]. split; [reflexivity|].
  exact (proj1 (regions_in_scan_order sampleHypot sampleAcos twoBlocks _ E)).
Defined.

Lemma shapes_sorted_by_top_witness :
  exists res,
    fst (detectShapes sampleHypot sampleAcos twoBlocks sampleWorld)
      = Returned res
    /\ nondecreasing (map (fun s => bb_y (boundingBox s)) (shapes res)).
Proof.
  eexists.
  eassert (E : fst (detectShapes sampleHypot sampleAcos twoBlocks sampleWorld)
               = Returned _) by (vm_compute; reflexivity).
  split; [exact E|].
  exact (shapes_sorted_by_top sampleHypot sampleAcos twoBlocks sampleWorld _ E).
Defined.

(** ** The grayscale stage on any buffer *)

(** Induction on a buffer, one pixel of four bytes at a time; what is left
    at the end has one, two or three bytes. *)
Lemma by_pixels (P : list Z -> Prop) :
  P [] ->
  (forall d, (1 <= length d <= 3)%nat -> P d) ->
  (forall r g b a rest, P rest -> P (r :: g :: b :: a :: rest)) ->
  forall d, P d.
Proof.
  intros Hnil Hshort Hpixel d.
  assert (Hall : forall n d, (length d <= n)%nat -> P d).
  { clear d. induction n as [|n IH]; intros d Hd.
    - destruct d; [exact Hnil | simpl in Hd; lia].
    - destruct d as [|r [|g [|b [|a rest]]]];
        try exact Hnil; try (apply Hshort; simpl; lia).
      apply Hpixel, IH. simpl in Hd; lia. }
  apply (Hall (length d)); lia.
Qed.

Lemma upd_out_of_range n v a : (length a <= n)%nat -> upd n v a = a.
Proof.
  revert n; induction a as [|h t IH]; intros [|n] Hn; simpl in *;
    try reflexivity; try lia.
  rewrite IH by lia; reflexivity.
Qed.

(** A write beyond the end of a typed array changes nothing. *)
Lemma aset_out_of_range a i v : Z.of_nat (length a) <= i -> aset a i v = a.
Proof.
  intros Hi; unfold aset. destruct (Z.ltb_spec i 0); [reflexivity|].
  apply upd_out_of_range; lia.
Qed.

Lemma luminance_nan x y : luminance x y S754_nan = S754_nan.
Proof.
  unfold luminance.
  replace (fmul (lit 114 1000) S754_nan) with S754_nan
    by (vm_compute; reflexivity).
  destruct (fadd (fmul _ x) _); reflexivity.
Qed.

(** The loop writes a cell from the three colour bytes of its pixel, and
    from them only. *)
Lemma grayLoop_colours d1 : forall d2 k gray,
  length d1 = length d2 ->
  (forall i c, (c < 3)%nat ->
     nth_error d1 (4 * i + c) = nth_error d2 (4 * i + c)) ->
  grayLoop d1 k gray = grayLoop d2 k gray.
Proof.
  induction d1 as [| d1 Hshort | r g b a rest IH] using by_pixels;
    intros d2 k gray Hlen Hsame.
  - destruct d2; [reflexivity | discriminate].
  - assert (E : d1 = d2); [|rewrite E; reflexivity].
    pose proof (Hsame 0%nat 0%nat ltac:(lia)) as H0.
    pose proof (Hsame 0%nat 1%nat ltac:(lia)) as H1.
    pose proof (Hsame 0%nat 2%nat ltac:(lia)) as H2.
    destruct d1 as [|x1 [|x2 [|x3 [|x4 d1]]]]; simpl in Hshort; try lia;
      destruct d2 as [|y1 [|y2 [|y3 [|y4 d2]]]]; simpl in Hlen; try lia;
      simpl in H0, H1, H2; congruence.
  - destruct d2 as [|r' [|g' [|b' [|a' rest']]]]; simpl in Hlen; try lia.
    pose proof (Hsame 0%nat 0%nat ltac:(lia)) as H0.
    pose proof (Hsame 0%nat 1%nat ltac:(lia)) as H1.
    pose proof (Hsame 0%nat 2%nat ltac:(lia)) as H2.
    simpl in H0, H1, H2.
    injection H0 as <-; injection H1 as <-; injection H2 as <-.
    cbn [grayLoop]. apply IH; [lia|].
    intros i c Hc. specialize (Hsame (S i) c Hc).
    replace (4 * S i + c)%nat with (S (S (S (S (4 * i + c))))) in Hsame by lia.
    exact Hsame.
Qed.

(** Once the pixel index has reached the length of the gray array, the
    loop changes nothing more. *)
Lemma grayLoop_beyond d : forall k gray,
  Z.of_nat (length gray) <= k -> grayLoop d k gray = gray.
Proof.
  induction d as [| d Hshort | r g b a rest IH] using by_pixels;
    intros k gray Hk.
  - reflexivity.
  - destruct d as [|x1 [|x2 [|x3 [|x4 d]]]]; simpl in Hshort; try lia;
      cbn [grayLoop]; apply aset_out_of_range; exact Hk.
  - cbn [grayLoop]. rewrite aset_out_of_range by exact Hk.
    apply IH; lia.
Qed.

Lemma grayLoop_app n : forall d e k gray,
  length d = (4 * n)%nat ->
  grayLoop (d ++ e) k gray = grayLoop e (k + Z.of_nat n) (grayLoop d k gray).
Proof.
  induction n as [|n IH]; intros d e k gray Hlen.
  - destruct d; [|discriminate]. simpl. f_equal; lia.
  - destruct d as [|r [|g [|b [|a rest]]]]; simpl in Hlen; try lia.
    cbn [app grayLoop]. rewrite IH by lia. f_equal; lia.
Qed.

(** The loop writes no cell below the pixel index it starts from. *)
Lemma grayLoop_untouched_below d : forall k gray j,
  j < k -> aget (grayLoop d k gray) j = aget gray j.
Proof.
  induction d as [| d Hshort | r g b a rest IH] using by_pixels;
    intros k gray j Hj.
  - reflexivity.
  - destruct d as [|x1 [|x2 [|x3 [|x4 d]]]]; simpl in Hshort; try lia;
      cbn [grayLoop]; apply aget_aset_other; lia.
  - cbn [grayLoop]. rewrite IH by lia. apply aget_aset_other; lia.
Qed.

(** A cell whose pixel has fewer than three colour bytes in the buffer
    stays zero. *)
Lemma grayLoop_missing d : forall k gray j,
  k <= j -> Z.of_nat (length d) < 4 * (j - k) + 3 ->
  aget gray j = Some 0 ->
  aget (grayLoop d k gray) j = Some 0.
Proof.
  induction d as [| d Hshort | r g b a rest IH] using by_pixels;
    intros k gray j Hk Hlen Hj.
  - exact Hj.
  - pose proof (aget_range _ _ _ Hj) as Hr.
    destruct (Z.eq_dec j k) as [-> | Hne].
    + destruct d as [|x1 [|x2 [|x3 [|x4 d]]]]; cbn [length] in Hshort, Hlen;
        try lia; cbn [grayLoop nth_error jsnum];
        rewrite luminance_nan; apply aget_aset_same; exact Hr.
    + destruct d as [|x1 [|x2 [|x3 [|x4 d]]]]; simpl in Hshort; try lia;
        cbn [grayLoop]; rewrite aget_aset_other by auto; exact Hj.
  - cbn [grayLoop]. cbn [length] in Hlen. apply IH; try lia.
    rewrite aget_aset_other by lia. exact Hj.
Qed.

(** A cell whose pixel has its three colour bytes in the buffer gets the
    gray value of that pixel. *)
Lemma grayLoop_present d : forall k gray j,
  0 <= k <= j -> 4 * (j - k) + 3 <= Z.of_nat (length d) ->
  j < Z.of_nat (length gray) ->
  aget (grayLoop d k gray) j = Some (grayAt d (j - k)).
Proof.
  induction d as [| d Hshort | r g b a rest IH] using by_pixels;
    intros k gray j Hk Hlen Hj.
  - cbn [length] in Hlen; lia.
  - assert (j = k) by lia; subst j.
    destruct d as [|x1 [|x2 [|x3 [|x4 d]]]]; cbn [length] in Hshort, Hlen;
      try lia.
    cbn [grayLoop nth_error jsnum]. rewrite aget_aset_same by lia.
    replace (k - k) with 0 by lia. reflexivity.
  - cbn [grayLoop]. destruct (Z.eq_dec j k) as [-> | Hne].
    + rewrite grayLoop_untouched_below.
      * rewrite aget_aset_same by lia.
        replace (k - k) with 0 by lia. reflexivity.
      * lia.
    + rewrite IH; rewrite ?aset_length; cbn [length] in Hlen; try lia.
      unfold grayAt. rewrite !byteAt_skip4 by lia.
      f_equal. f_equal; (f_equal; lia).
Qed.

Section BufferFacts.

Variable hypot : f64 -> f64 -> f64.
Variable acos : f64 -> f64.

(** Two images of the same size and the same gray array give the same
    result against the same clock. *)
Lemma detectShapes_same_gray img1 img2 world :
  width img1 = width img2 -> height img1 = height img2 ->
  grayscale img1 = grayscale img2 ->
  detectShapes hypot acos img1 world = detectShapes hypot acos img2 world.
Proof.
  intros Ew Eh Eg. rewrite !detectShapes_unfold.
  unfold detectRegions. rewrite Ew, Eh, Eg. reflexivity.
Qed.

(** X12: the alpha channel is ignored: two images of the same size whose
    buffers have the same length and the same three colour bytes in every
    pixel give the same result. *)
Theorem alpha_ignored img1 img2 world :
  width img1 = width img2 -> height img1 = height img2 ->
  length (data img1) = length (data img2) ->
  (forall i c, (c < 3)%nat ->
     nth_error (data img1) (4 * i + c) = nth_error (data img2) (4 * i + c)) ->
  detectShapes hypot acos img1 world = detectShapes hypot acos img2 world.
Proof.
  intros Ew Eh El Hc. apply detectShapes_same_gray; auto.
  unfold grayscale. rewrite Ew, Eh. apply grayLoop_colours; auto.
Qed.

(** X13: the bytes of the buffer after the first [4 * width * height] are
    ignored. *)
Theorem surplus_bytes_ignored img extra world :
  Z.of_nat (length (data img)) = 4 * (width img * height img) ->
  detectShapes hypot acos (withData img (data img ++ extra)) world
  = detectShapes hypot acos img world.
Proof.
  intros Hlen. apply detectShapes_same_gray; try reflexivity.
  unfold grayscale, withData; cbn [width height data].
  rewrite (grayLoop_app (Z.to_nat (width img * height img))) by lia.
  apply grayLoop_beyond.
  rewrite grayLoop_length, repeat_length. lia.
Qed.

(** X14: a pixel of which the buffer holds fewer than three colour bytes
    is taken to be black: its gray value is 0. *)
Theorem missing_bytes_read_as_black img k :
  0 <= k < width img * height img ->
  Z.of_nat (length (data img)) < 4 * k + 3 ->
  aget (grayscale img) k = Some 0.
Proof.
  intros Hk Hlen. unfold grayscale. apply grayLoop_missing; try lia.
  apply aget_repeat; lia.
Qed.

(** X15: whatever the length of the buffer, a pixel of the image whose
    three colour bytes are in the buffer gets the gray value of these
    bytes. *)
Theorem present_bytes_give_gray img k :
  0 <= k < width img * height img ->
  4 * k + 3 <= Z.of_nat (length (data img)) ->
  aget (grayscale img) k = Some (grayAt (data img) k).
Proof.
  intros Hk Hlen. unfold grayscale.
  rewrite grayLoop_present; rewrite ?repeat_length; try lia.
  f_equal. f_equal. lia.
Qed.

End BufferFacts.

Lemma alpha_ignored_witness :
  detectShapes sampleHypot sampleAcos onePixel sampleWorld
  = detectShapes sampleHypot sampleAcos (uniform 1 1 0 0 0 7) sampleWorld.
Proof.
  apply (alpha_ignored sampleHypot sampleAcos onePixel (uniform 1 1 0 0 0 7)).
  - reflexivity.
  - reflexivity.
  - reflexivity.
  - intros i c Hc. destruct i as [|i].
    + destruct c as [|[|[|c]]]; [reflexivity | reflexivity | reflexivity | lia].
    + transitivity (@None Z); [|symmetry]; apply nth_error_None; simpl; lia.
Defined.

Lemma surplus_bytes_ignored_witness :
  detectShapes sampleHypot sampleAcos (withData onePixel (data onePixel ++ [9; 9]))
    sampleWorld
  = detectShapes sampleHypot sampleAcos onePixel sampleWorld.
Proof.
  apply (surplus_bytes_ignored sampleHypot sampleAcos onePixel [9; 9]).
  reflexivity.
Defined.

Lemma missing_bytes_read_as_black_witness :
  aget (grayscale emptyBuffer) 7 = Some 0.
Proof.
  apply (missing_bytes_read_as_black emptyBuffer 7); simpl; lia.
Defined.

Lemma present_bytes_give_gray_witness :
  aget (grayscale bluePixel) 0 = Some (grayAt (data bluePixel) 0).
Proof.
  apply (present_bytes_give_gray bluePixel 0); simpl; lia.
Defined.

(** ** The histogram and the threshold of an image *)

Lemma bin_out_of_range h v : v < 0 \/ Z.of_nat (length h) <= v -> bin h v = 0.
Proof.
  intros Hv; unfold bin. rewrite aget_out_of_range; auto.
Qed.

(** Each bin of the histogram counts the cells of its gray level. *)
Lemma histogram_bin gray v :
  bytes gray ->
  bin (histogram gray) v = Z.of_nat (count_occ Z.eq_dec gray v).
Proof.
  unfold histogram.
  assert (Hgen : forall h, length h = 256%nat -> bytes gray ->
            bin (fold_left (fun hist g => aset hist g (bin hist g + 1)) gray h) v
            = bin h v + Z.of_nat (count_occ Z.eq_dec gray v)).
  { induction gray as [|g gray IH]; intros h Hl Hb; cbn [fold_left count_occ].
    - lia.
    - inversion Hb as [|? ? Hg Hb']; subst.
      rewrite IH by (rewrite ?aset_length; auto).
      rewrite bin_aset by lia.
      destruct (Z.eqb_spec v g) as [Hvg|Hvg];
        destruct (Z.eq_dec g v) as [E|E]; try congruence; subst; lia. }
  intros Hb. rewrite (Hgen (repeat 0 256%nat)); [|apply repeat_length|exact Hb].
  assert (E0 : bin (repeat 0 256%nat) v = 0); [|lia].
  destruct (Z.lt_ge_cases v 0) as [Hn|Hn];
    [apply bin_out_of_range; lia|].
  destruct (Z.lt_ge_cases v 256) as [Hlt|Hge].
  - unfold bin. rewrite aget_repeat by lia. reflexivity.
  - apply bin_out_of_range. rewrite repeat_length. lia.
Qed.

(** X16: the histogram has 256 bins, and bin [v] holds the number of
    pixels whose gray value is [v]. *)
Theorem histogram_counts_pixels img v :
  length (histogram (grayscale img)) = 256%nat
  /\ bin (histogram (grayscale img)) v
     = Z.of_nat (count_occ Z.eq_dec (grayscale img) v).
Proof.
  split.
  - exact (proj1 (proj1 (histogram_counts _ (grayscale_bytes img)))).
  - apply histogram_bin, grayscale_bytes.
Qed.

Section ThresholdFacts.

Variables (hist : list Z) (total : Z).
Hypothesis Hcounts : counts hist.
Hypothesis Htotal : total = cumulative hist 256.

(** When weight is left above bin [k], some bin above [k] is not empty. *)
Lemma weight_above n : forall k,
  (k <= n)%nat -> cumulative hist k < cumulative hist n ->
  exists j, (k <= j < n)%nat /\ 0 < bin hist (Z.of_nat j).
Proof.
  induction n as [|n IH]; intros k Hk Hlt.
  - replace k with 0%nat in Hlt by lia. lia.
  - destruct (Nat.eq_dec k (S n)) as [->|Hne]; [lia|].
    cbn [cumulative] in Hlt.
    destruct (Z.lt_ge_cases 0 (bin hist (Z.of_nat n))) as [Hb|Hb].
    + exists n; split; [lia | exact Hb].
    + destruct (IH k) as (j & Hj & Hbj); [lia | lia |].
      exists j; split; [lia | exact Hbj].
Qed.

(** A split at an empty bin has the variance of the split before it. *)
Lemma empty_bin_same_split k :
  bin hist (Z.of_nat (S k)) = 0 ->
  wBAt hist (Z.of_nat (S k)) = wBAt hist (Z.of_nat k)
  /\ betweenAt hist total (Z.of_nat (S k)) = betweenAt hist total (Z.of_nat k).
Proof.
  intros Hb. unfold betweenAt.
  rewrite !wBAt_of_nat, !sumBAt_of_nat.
  assert (E1 : cumulative hist (S (S k)) = cumulative hist (S k))
    by (cbn [cumulative] in *; lia).
  assert (E2 : cumulativeSum hist (S (S k)) = cumulativeSum hist (S k)).
  { change (cumulativeSum hist (S (S k)))
      with (cumulativeSum hist (S k)
            + Z.of_nat (S k) * bin hist (Z.of_nat (S k))).
    rewrite Hb. lia. }
  rewrite E1, E2. split; reflexivity.
Qed.

(** The threshold of the scan: the default, no split having a variance
    above zero, or a bin that is not empty, with weight left above it. *)
Lemma otsu_level :
  (otsu hist total = 127
   /\ forall i, validSplit hist total i ->
        fltb (num 0) (betweenAt hist total i) = false)
  \/ (0 <= otsu hist total < 256
      /\ 0 < bin hist (otsu hist total)
      /\ exists j, otsu hist total < j < 256 /\ 0 < bin hist j).
Proof.
  destruct (otsu_chosen hist total Hcounts Htotal)
    as (m & [(Ht & Hm & Hall) | (t' & Ht' & Ht & Hv & Hm & Hpos & Hall)]).
  - left; split; [exact Ht|]. intros i Hi.
    destruct Hi as (Hr & Hi). specialize (Hall (Z.to_nat i) ltac:(lia)).
    rewrite Z2Nat.id in Hall by lia. apply Hall. split; auto.
  - right. rewrite Ht in *. destruct Hv as (Hr & HwB & HwF).
    rewrite wBAt_of_nat in HwB, HwF.
    split; [lia|]. split.
    + destruct (Z.lt_ge_cases 0 (bin hist (Z.of_nat t'))) as [Hb|Hb];
        [exact Hb | exfalso].
      pose proof (bin_nonneg hist Hcounts (Z.of_nat t')) as Hnn.
      assert (Hb0 : bin hist (Z.of_nat t') = 0) by lia.
      destruct t' as [|k].
      * cbn [cumulative] in HwB. simpl in Hb0. lia.
      * destruct (empty_bin_same_split k Hb0) as [Ew Eb].
        destruct (Hall k ltac:(lia)) as [_ Hearly].
        { split; [lia|]. rewrite <- Ew, wBAt_of_nat. lia. }
        specialize (Hearly ltac:(lia)).
        rewrite <- Eb, <- Hm in Hearly.
        assert (Hle : fleb m m = true).
        { apply fltb_key in Hpos. apply fleb_key. tauto. }
        congruence.
    + destruct (weight_above 256 (S t')) as (j & Hj & Hbj); [lia | lia |].
      exists (Z.of_nat j); split; [lia | exact Hbj].
Qed.

End ThresholdFacts.

(** X17: the threshold of an image is the default 127, no split of the
    histogram having a between-class variance above zero, or else it is the
    gray value of some pixel, and some other pixel is brighter. *)
Theorem threshold_is_a_gray_level img :
  0 <= width img * height img ->
  let hist := histogram (grayscale img) in
  let t := otsu hist (width img * height img) in
  (t = 127
   /\ forall i, validSplit hist (width img * height img) i ->
        fltb (num 0) (betweenAt hist (width img * height img) i) = false)
  \/ (In t (grayscale img) /\ exists g, In g (grayscale img) /\ t < g).
Proof.
  intros Hn hist t.
  destruct (otsu_inputs img Hn) as [Hc Ht].
  destruct (otsu_level hist (width img * height img) Hc Ht)
    as [Hd | (Hr & Hb & j & Hj & Hbj)]; [left; exact Hd | right].
  fold t in Hr, Hb, Hj. unfold hist in Hb, Hbj.
  rewrite histogram_bin in Hb, Hbj by apply grayscale_bytes.
  split.
  - apply (count_occ_In Z.eq_dec). lia.
  - exists j; split; [|lia]. apply (count_occ_In Z.eq_dec). lia.
Qed.

Lemma threshold_is_a_gray_level_witness :
  In (otsu (histogram (grayscale twoBlocks)) 115) (grayscale twoBlocks)
  /\ exists g,
       In g (grayscale twoBlocks)
       /\ otsu (histogram (grayscale twoBlocks)) 115 < g.
Proof.
  destruct (threshold_is_a_gray_level twoBlocks) as [[Hd _] | Hl].
  - simpl; lia.
  - exfalso. revert Hd. vm_compute. discriminate.
  - exact Hl.
Defined.

(** ** Uniform dark images *)




(** ** The corner loop *)

Lemma edgeRead_in_range edges i :
  0 <= i < Z.of_nat (length edges) ->
  edgeRead edges i = Some (edgeAt edges i).
Proof.
  intros Hi; unfold edgeRead, edgeAt.
  destruct (Z.ltb_spec i 0); [lia|].
  destruct (nth_error edges (Z.to_nat i)) as [p|] eqn:E.
  - rewrite (nth_error_nth _ _ _ E); reflexivity.
  - apply nth_error_None in E; lia.
Qed.

Section CornerFacts.

Variable hypot : f64 -> f64 -> f64.
Variable acos : f64 -> f64.

(** With a step of at least 1 the loop reads inside [edges] only, and a
    budget that covers the rest of [edges] is not used up. *)
Lemma cornerLoop_checked edges step fuel : forall i c,
  0 <= i -> 1 <= step ->
  Z.of_nat (length edges) <= i + Z.of_nat fuel * step ->
  cornerLoopChecked hypot acos fuel i edges step c
  = Counted (cornerLoop hypot acos fuel i edges step c).
Proof.
  induction fuel as [|fuel IH]; intros i c Hi Hs Hn.
  - cbn [cornerLoopChecked cornerLoop].
    destruct (Z.ltb_spec i (Z.of_nat (length edges))); [lia | reflexivity].
  - cbn [cornerLoopChecked cornerLoop].
    destruct (Z.ltb_spec i (Z.of_nat (length edges))) as [Hlt|Hge];
      [|reflexivity].
    set (n := Z.of_nat (length edges)) in *.
    rewrite (edgeRead_in_range edges i) by (fold n; lia).
    rewrite (edgeRead_in_range edges ((i + step) mod n))
      by (apply Z.mod_pos_bound; lia).
    rewrite (edgeRead_in_range edges ((i + 2 * step) mod n))
      by (apply Z.mod_pos_bound; lia).
    destruct (edgeAt edges i) as [x1 y1].
    destruct (edgeAt edges ((i + step) mod n)) as [x2 y2].
    destruct (edgeAt edges ((i + 2 * step) mod n)) as [x3 y3].
    cbv zeta.
    destruct (feqb _ _); apply IH; lia.
Qed.

(** The count grows by one at most in each round. *)
Lemma cornerLoop_bounds edges step fuel : forall i c,
  0 <= i -> 1 <= step ->
  c <= cornerLoop hypot acos fuel i edges step c
    <= c + samplesFrom (Z.of_nat (length edges)) step i.
Proof.
  induction fuel as [|fuel IH]; intros i c Hi Hs.
  - cbn [cornerLoop]. unfold samplesFrom.
    destruct (Z.ltb_spec i (Z.of_nat (length edges))); [|lia].
    assert (0 <= (Z.of_nat (length edges) - i + step - 1) / step)
      by (apply Z.div_pos; lia).
    lia.
  - cbn [cornerLoop]. set (n := Z.of_nat (length edges)) in *.
    unfold samplesFrom at 1.
    destruct (Z.ltb_spec i n) as [Hlt|Hge]; [|lia].
    assert (Hnext : 1 + samplesFrom n step (i + step)
                    <= (n - i + step - 1) / step).
    { unfold samplesFrom. destruct (Z.ltb_spec (i + step) n).
      - replace (n - i + step - 1) with (n - (i + step) + step - 1 + 1 * step)
          by lia.
        rewrite Z.div_add by lia. lia.
      - apply Z.div_le_lower_bound; lia. }
    destruct (edgeAt edges i) as [x1 y1].
    destruct (edgeAt edges ((i + step) mod n)) as [x2 y2].
    destruct (edgeAt edges ((i + 2 * step) mod n)) as [x3 y3].
    cbv zeta.
    destruct (feqb _ _).
    + specialize (IH (i + step) c ltac:(lia) Hs). lia.
    + match goal with
      | |- _ <= cornerLoop _ _ _ _ _ _ ?c' <= _ =>
          specialize (IH (i + step) c' ltac:(lia) Hs);
          assert (c <= c' <= c + 1) by (destruct (_ && _); lia)
      end.
      lia.
Qed.

(** X19: the corner estimation reads [edges] inside its bounds only, so
    that no destructuring of [undefined] can throw, and its loop ends within
    [edges.length] rounds: with every read checked it gives the count of the
    unchecked loop. *)
Theorem corner_reads_in_range edges :
  countCornersChecked hypot acos edges = Counted (countCorners hypot acos edges).
Proof.
  unfold countCornersChecked, countCorners.
  apply cornerLoop_checked; try lia. nia.
Qed.

Lemma samples_bound n :
  0 <= n -> samplesFrom n (Z.max 2 (n / 50)) 0 <= Z.min 75 ((n + 1) / 2).
Proof.
  intros Hn. unfold samplesFrom.
  destruct (Z.ltb_spec 0 n) as [Hpos|Hz].
  - pose proof (Z.div_mod n 50 ltac:(lia)) as Hd.
    pose proof (Z.mod_pos_bound n 50 ltac:(lia)) as Hm.
    set (q := n / 50) in *.
    replace (n - 0 + Z.max 2 q - 1) with (n + Z.max 2 q - 1) by lia.
    apply Z.min_glb.
    + apply Z.div_le_upper_bound; lia.
    + destruct (Z.le_gt_cases q 2).
      * replace (Z.max 2 q) with 2 by lia.
        replace (n + 2 - 1) with (n + 1) by lia. lia.
      * replace (Z.max 2 q) with q by lia.
        apply Z.div_le_upper_bound; [lia|].
        pose proof (Z.div_mod (n + 1) 2 ltac:(lia)) as Hd2.
        pose proof (Z.mod_pos_bound (n + 1) 2 ltac:(lia)) as Hm2.
        nia.
  - assert (0 <= (n + 1) / 2) by (apply Z.div_pos; lia). lia.
Qed.

Lemma countCorners_bounds edges :
  0 <= countCorners hypot acos edges
    <= Z.min 75 ((Z.of_nat (length edges) + 1) / 2).
Proof.
  unfold countCorners.
  pose proof (cornerLoop_bounds edges
                (Z.max 2 (Z.of_nat (length edges) / 50)) (length edges) 0 0
                ltac:(lia) ltac:(lia)) as Hb.
  pose proof (samples_bound (Z.of_nat (length edges)) ltac:(lia)) as Hs.
  lia.
Qed.

(** X20: the corner count of a returned region is not negative, at most
    75, and at most half its perimeter, rounded up. *)
Theorem corner_count_bounds img rs r :
  detectRegions hypot acos img = Returned rs -> In r rs ->
  0 <= r_corners r <= Z.min 75 ((r_perimeter r + 1) / 2).
Proof.
  intros E Hr.
  pose proof (detectRegions_Forall hypot acos
                (fun r => 0 <= r_corners r
                          <= Z.min 75 ((r_perimeter r + 1) / 2)) img rs) as Hall.
  rewrite Forall_forall in Hall. apply Hall; auto.
  intros W H binary st. cbn [measure r_corners r_perimeter].
  apply countCorners_bounds.
Qed.

End CornerFacts.

Lemma corner_count_bounds_witness :
  exists rs r,
    detectRegions sampleHypot sampleAcos darkStrip = Returned rs
    /\ In r rs
    /\ 0 <= r_corners r <= Z.min 75 ((r_perimeter r + 1) / 2).
Proof.
  eexists; eexists.
  eassert (E : detectRegions sampleHypot sampleAcos darkStrip = Returned _)
    by (vm_compute; reflexivity).
  split; [exact E|]. split; [left; reflexivity|].
  eapply (corner_count_bounds sampleHypot sampleAcos darkStrip);
    [exact E | left; reflexivity].
Defined.

(** ** The display name of a test image *)

Lemma replaceSeparators_clean s c :
  In c (replaceSeparators s) -> c <> underscore /\ c <> hyphen.
Proof.
  unfold replaceSeparators. intros Hc. apply in_map_iff in Hc.
  destruct Hc as (c0 & <- & _).
  unfold underscore, hyphen, space.
  destruct (Z.eqb_spec c0 95), (Z.eqb_spec c0 45); simpl; lia.
Qed.

Lemma stripExtension_cases s :
  stripExtension s = s
  \/ (exists e, s = stripExtension s ++ e /\ isExtension e = true).
Proof.
  unfold stripExtension.
  destruct (isExtension (skipn (length s - 4) s)) eqn:E; [right | left; auto].
  exists (skipn (length s - 4) s); split; [|exact E].
  symmetry; apply firstn_skipn.
Qed.

Lemma isExtension_length e : isExtension e = true -> length e = 4%nat.
Proof.
  destruct e as [|d [|a [|b [|c [|x e]]]]]; simpl; try discriminate.
  reflexivity.
Qed.

Lemma replaceSeparators_app s t :
  replaceSeparators (s ++ t) = replaceSeparators s ++ replaceSeparators t.
Proof. apply map_app. Qed.

Lemma replaceSeparators_extension e :
  isExtension e = true -> replaceSeparators e = e.
Proof.
  destruct e as [|d [|a [|b [|c [|x e]]]]]; simpl; try discriminate.
  intros He. apply andb_true_iff in He. destruct He as [Hd He].
  apply Z.eqb_eq in Hd. subst d.
  apply orb_true_iff in He.
  destruct He as [He | He];
    apply andb_true_iff in He; destruct He as [He Hc];
    apply andb_true_iff in He; destruct He as [Ha Hb];
    unfold isLetter in Ha, Hb, Hc;
    apply orb_true_iff in Ha; apply orb_true_iff in Hb;
    apply orb_true_iff in Hc;
    destruct Ha as [Ha | Ha]; apply Z.eqb_eq in Ha; subst a;
    destruct Hb as [Hb | Hb]; apply Z.eqb_eq in Hb; subst b;
    destruct Hc as [Hc | Hc]; apply Z.eqb_eq in Hc; subst c;
    reflexivity.
Qed.

(** X22: a name that ends in a dot and [svg] or [png], in whatever letter
    case, loses this extension and nothing else: its display name is the
    rest of the name with underscores and hyphens replaced by spaces. *)
Theorem displayName_extension base e :
  isExtension e = true ->
  displayName (base ++ e) = replaceSeparators base.
Proof.
  intros He. unfold displayName.
  rewrite replaceSeparators_app, (replaceSeparators_extension e He).
  unfold stripExtension.
  pose proof (isExtension_length e He) as Hl.
  rewrite length_app, Hl.
  replace (length (replaceSeparators base) + 4 - 4)%nat
    with (length (replaceSeparators base) + 0)%nat by lia.
  rewrite skipn_app, firstn_app.
  replace (length (replaceSeparators base) + 0
           - length (replaceSeparators base))%nat with 0%nat by lia.
  rewrite Nat.add_0_r, skipn_all, firstn_all. cbn [skipn firstn app].
  rewrite He. apply app_nil_r.
Qed.

Lemma displayName_extension_witness :
  displayName sampleName
  = [109; 121; 32; 116; 101; 115; 116; 32; 105; 109; 97; 103; 101].
Proof.
  exact (displayName_extension
           [109; 121; 95; 116; 101; 115; 116; 45; 105; 109; 97; 103; 101]
           [46; 83; 86; 71] eq_refl).
Defined.

(** ** The border pixels of a region *)

Lemma not_inside_outside W H p :
  ~ inside W H p -> outside W H (fst p) (snd p) = true.
Proof.
  unfold inside, outside. intros Hn.
  destruct (Z.ltb_spec (fst p) 0); [reflexivity|].
  destruct (Z.ltb_spec (snd p) 0); [reflexivity|].
  destruct (Z.geb_spec (fst p) W); [reflexivity|].
  destruct (Z.geb_spec (snd p) H); [reflexivity|].
  exfalso; apply Hn; lia.
Qed.

Lemma onBorder_isBorder W H binary p :
  onBorder W H binary p -> isBorder W H binary p = true.
Proof.
  intros (n & Hn & Hc). destruct p as [x y]. unfold isBorder.
  apply existsb_exists. exists n; split; [exact Hn|].
  destruct n as [nx ny]. apply orb_true_iff.
  destruct Hc as [Ho | Hz].
  - left. apply (not_inside_outside W H (nx, ny)); exact Ho.
  - right. simpl in Hz. rewrite Hz. reflexivity.
Qed.

(** X23: the edge pixels of a returned region are exactly those of its
    pixels that have a 4-neighbour outside the image or 0 in the mask, in
    the order of the pixel list; the perimeter is their number, and is no
    more than the area. *)
Theorem edges_are_border_pixels hypot acos img rs r :
  detectRegions hypot acos img = Returned rs -> In r rs ->
  (forall p, In p (r_edges r) <->
     In p (r_pixels r) /\ onBorder (width img) (height img) (maskOf img) p)
  /\ r_edges r = filter (isBorder (width img) (height img) (maskOf img))
                   (r_pixels r)
  /\ r_perimeter r = Z.of_nat (length (r_edges r))
  /\ r_perimeter r <= r_area r.
Proof.
  intros E Hr.
  destruct (detectRegions_facts hypot acos img rs r E Hr) as [_ F].
  pose proof (reg_edges _ _ _ _ F) as Ee.
  pose proof (reg_perimeter _ _ _ _ F) as Ep.
  pose proof (reg_area _ _ _ _ F) as Ea.
  split; [|split; [exact Ee | split; [exact Ep|]]].
  - intros p. rewrite Ee, filter_In. split; intros [Hp Hb]; split; auto.
    + apply isBorder_onBorder; exact Hb.
    + apply onBorder_isBorder; exact Hb.
  - rewrite Ep, Ea, Ee.
    pose proof (filter_length_le
                  (isBorder (width img) (height img) (maskOf img))
                  (r_pixels r)).
    lia.
Qed.

Lemma edges_are_border_pixels_witness :
  exists rs r,
    detectRegions sampleHypot sampleAcos darkStrip = Returned rs
    /\ In r rs
    /\ r_perimeter r = Z.of_nat (length (r_edges r))
    /\ r_perimeter r <= r_area r.
Proof.
  eexists; eexists.
  eassert (E : detectRegions sampleHypot sampleAcos darkStrip = Returned _)
    by (vm_compute; reflexivity).
  split; [exact E|]. split; [left; reflexivity|].
  edestruct (edges_are_border_pixels sampleHypot sampleAcos darkStrip)
    as (_ & _ & Hp & Ha); [exact E | left; reflexivity |].
  split; [exact Hp | exact Ha].
Defined.

(** ** Positive quotients *)

(** Rounding a positive mantissa, whatever is known of the digits that
    were cut off before: the result is positive, or infinite. *)
Lemma round_aux_positive_loc s m e l :
  -1021 <= e + Zpos (digits2_pos m) ->
  (exists m' e',
      binary_round_aux prec emax s (Zpos m) e l = S754_finite s m' e'
      /\ e <= e')
  \/ binary_round_aux prec emax s (Zpos m) e l = S754_infinity s.
Proof.
  intros He. unfold binary_round_aux, shr_fexp.
  cbn [Zdigits2].
  set (d := Zpos (digits2_pos m)) in *.
  pose proof (digits_bounds m) as [Hlo Hhi]. fold d in Hlo, Hhi.
  set (r0 := shr_record_of_loc (Zpos m) l).
  assert (Hr0 : shr_m r0 = Zpos m) by apply shr_record_of_loc_m.
  set (n1 := fexp prec emax (d + e) - e).
  assert (Hn1 : n1 = d - 53).
  { unfold n1, fexp, emin, prec, emax. lia. }
  destruct (shr_spec r0 e n1) as [Hm1 He1]; [rewrite Hr0; lia|].
  destruct (shr r0 e n1) as [r1 e1]. cbn [fst snd] in Hm1, He1.
  rewrite Hr0 in Hm1.
  assert (Hpos1 : 1 <= shr_m r1).
  { rewrite Hm1.
    assert (Hp : 0 < 2 ^ Z.max 0 n1) by (apply Z.pow_pos_nonneg; lia).
    assert (Hle : 2 ^ Z.max 0 n1 <= Zpos m).
    { eapply Z.le_trans; [|exact Hlo].
      apply Z.pow_le_mono_r; lia. }
    pose proof (Z.div_str_pos (Zpos m) _ (conj Hp Hle)). lia. }
  pose proof (round_nearest_even_bounds (shr_m r1) (loc_of_shr_record r1))
    as Hrne.
  destruct (round_nearest_even (shr_m r1) (loc_of_shr_record r1))
    as [|q|q] eqn:Eq; try lia.
  cbn [Zdigits2 shr_record_of_loc].
  set (r2 := {| shr_m := Zpos q; shr_r := false; shr_s := false |}).
  set (dq := Zpos (digits2_pos q)).
  set (n2 := fexp prec emax (dq + e1) - e1).
  pose proof (digits_bounds q) as [Hqlo Hqhi]. fold dq in Hqlo, Hqhi.
  assert (Hdq : 1 <= dq) by (unfold dq; lia).
  assert (Hn2 : Z.max 0 n2 <= dq - 1).
  { unfold n2, fexp, emin, prec, emax.
    destruct (Z.le_gt_cases n1 0) as [Hn|Hn].
    - assert (Hr1 : shr_m r1 = Zpos m).
      { rewrite Hm1. replace (Z.max 0 n1) with 0 by lia.
        rewrite Z.pow_0_r, Z.div_1_r; reflexivity. }
      assert (Hmq : Zpos m <= Zpos q) by lia.
      pose proof (digits_mono m q Hmq) as Hd. fold d dq in Hd. lia.
    - lia. }
  destruct (shr_spec r2 e1 n2) as [Hm3 He3]; [simpl; lia|].
  destruct (shr r2 e1 n2) as [r3 e3]. cbn [fst snd] in Hm3, He3.
  change (shr_m r2) with (Zpos q) in Hm3.
  assert (Hpos3 : 1 <= shr_m r3).
  { rewrite Hm3.
    assert (Hp : 0 < 2 ^ Z.max 0 n2) by (apply Z.pow_pos_nonneg; lia).
    assert (Hle : 2 ^ Z.max 0 n2 <= Zpos q).
    { eapply Z.le_trans; [|exact Hqlo].
      apply Z.pow_le_mono_r; lia. }
    pose proof (Z.div_str_pos (Zpos q) _ (conj Hp Hle)). lia. }
  destruct (shr_m r3) as [|m3|m3]; try lia.
  destruct (e3 <=? emax - prec); [left | right; reflexivity].
  exists m3, e3; split; [reflexivity | lia].
Qed.

(** Rounding a mantissa below [2 ^ (62 - E)] at an exponent [E] from -52
    to 0 gives a number of moderate size. *)
Lemma round_moderate M E :
  -52 <= E <= 0 -> Zpos M < 2 ^ (62 - E) ->
  moderate (binary_round_aux prec emax false (Zpos M) E loc_Exact).
Proof.
  intros HE HM.
  pose proof (digits_bounds M) as [Dlo Dhi].
  assert (Hd : Zpos (digits2_pos M) <= 62 - E).
  { assert (H1 : 2 ^ (Zpos (digits2_pos M) - 1) < 2 ^ (62 - E)) by lia.
    apply pow2_lt_exp in H1; lia. }
  destruct (round_aux_error false M E) as (m' & e' & -> & He' & Herr);
    [lia | lia |].
  exists m', e'. split; [reflexivity|]. split; [lia|].
  pose proof (digits_bounds m') as [Dlo' _].
  set (c := 2 ^ 52 - 1) in *.
  assert (Hc : 1 <= c) by (unfold c; lia).
  set (x := Zpos m' * 2 ^ (e' - E)) in *.
  assert (Hx : x <= 2 * Zpos M).
  { assert (Z.abs (x - Zpos M) <= c * Z.abs (x - Zpos M)) by nia. lia. }
  assert (Hp : 0 < 2 ^ (e' - E)) by (apply Z.pow_pos_nonneg; lia).
  assert (Hlow : 2 ^ (Zpos (digits2_pos m') - 1) * 2 ^ (e' - E) <= x)
    by (unfold x; nia).
  rewrite <- Z.pow_add_r in Hlow by lia.
  assert (Hup : 2 * Zpos M < 2 ^ (63 - E)).
  { replace (63 - E) with (1 + (62 - E)) by lia.
    rewrite Z.pow_add_r by lia. lia. }
  assert (H2 : 2 ^ (Zpos (digits2_pos m') - 1 + (e' - E)) < 2 ^ (63 - E))
    by lia.
  apply pow2_lt_exp in H2; lia.
Qed.

(** The binary64 value of a positive integer below [2 ^ 62] is of moderate
    size. *)
Lemma num_moderate z : 1 <= z < 2 ^ 62 -> moderate (num z).
Proof.
  intros Hz. destruct z as [|p|p]; try lia.
  unfold num, binary_normalize, binary_round.
  set (d := Zpos (digits2_pos p)).
  pose proof (digits_bounds p) as [Dlo Dhi]. fold d in Dlo, Dhi.
  assert (Hd : 1 <= d <= 62).
  { split; [unfold d; lia|].
    assert (H1 : 2 ^ (d - 1) < 2 ^ 62) by lia.
    apply pow2_lt_exp in H1; lia. }
  assert (Hf : fexp prec emax (d + 0) = d - 53).
  { unfold fexp, emin, prec, emax. lia. }
  rewrite Hf.
  destruct (shl_align_spec p 0 (d - 53)) as [Hm Hs].
  destruct (shl_align p 0 (d - 53)) as [mz ez]. cbn [fst snd] in Hm, Hs.
  apply round_moderate; [lia|].
  rewrite Hm, Hs.
  destruct (Z.le_gt_cases d 53) as [Hle|Hgt].
  - replace (Z.max 0 (0 - (d - 53))) with (53 - d) by lia.
    replace (Z.min 0 (d - 53)) with (d - 53) by lia.
    replace (62 - (d - 53)) with (d + 9 + (53 - d) + (53 - d)) by lia.
    rewrite !Z.pow_add_r by lia.
    assert (Hp : 0 < 2 ^ (53 - d)) by (apply Z.pow_pos_nonneg; lia).
    assert (H9 : 2 ^ d * 1 <= 2 ^ d * 2 ^ 9) by (apply Z.mul_le_mono_nonneg_l; lia).
    nia.
  - replace (Z.max 0 (0 - (d - 53))) with 0 by lia.
    replace (Z.min 0 (d - 53)) with 0 by lia.
    rewrite Z.pow_0_r. lia.
Qed.

(** The quotient of two numbers of moderate size is positive. *)
Lemma fdiv_moderate x y :
  moderate x -> moderate y -> posAbove (-200) (fdiv x y).
Proof.
  intros (m1 & e1 & -> & He1 & Hd1) (m2 & e2 & -> & He2 & Hd2).
  unfold fdiv, SFdiv, SFdiv_core_binary. cbn [xorb Zdigits2].
  set (d1 := Zpos (digits2_pos m1)) in *.
  set (d2 := Zpos (digits2_pos m2)) in *.
  pose proof (digits_bounds m1) as [L1 U1]. fold d1 in L1, U1.
  pose proof (digits_bounds m2) as [L2 U2]. fold d2 in L2, U2.
  assert (Hd1' : 1 <= d1) by (unfold d1; lia).
  assert (Hd2' : 1 <= d2) by (unfold d2; lia).
  assert (Hf : fexp prec emax (d1 + e1 - (d2 + e2)) = d1 + e1 - (d2 + e2) - 53).
  { unfold fexp, emin, prec, emax. lia. }
  rewrite Hf.
  set (e' := Z.min (d1 + e1 - (d2 + e2) - 53) (e1 - e2)).
  set (s := e1 - e2 - e').
  assert (Hs : 0 <= s /\ 53 - d1 + d2 <= s) by (unfold s, e'; lia).
  set (m' := match s with
             | 0 => Zpos m1
             | Zpos _ => Z.shiftl (Zpos m1) s
             | Zneg _ => 0
             end).
  assert (Hm' : m' = Zpos m1 * 2 ^ s).
  { unfold m'. destruct s as [|k|k] eqn:Es; try lia.
    rewrite Z.shiftl_mul_pow2 by lia. reflexivity. }
  assert (Hge : 2 ^ d2 <= m').
  { rewrite Hm'.
    assert (H1 : 2 ^ (d1 - 1) * 2 ^ s <= Zpos m1 * 2 ^ s).
    { apply Z.mul_le_mono_nonneg_r; [apply Z.pow_nonneg; lia | exact L1]. }
    rewrite <- Z.pow_add_r in H1 by lia.
    eapply Z.le_trans; [|exact H1].
    apply Z.pow_le_mono_r; lia. }
  pose proof (Z_div_mod m' (Zpos m2) ltac:(lia)) as Hdiv.
  destruct (Z.div_eucl m' (Zpos m2)) as [q r].
  destruct Hdiv as [Hq Hr].
  assert (Hq1 : 1 <= q) by nia.
  destruct q as [|qp|qp]; try lia.
  destruct (round_aux_positive_loc false qp e' (new_location (Zpos m2) r))
    as [(m3 & e3 & -> & He3) | ->].
  - pose proof (Pos2Z.is_pos (digits2_pos qp)). unfold e'. lia.
  - left; exists m3, e3; split; [reflexivity|]. unfold e' in He3. lia.
  - right; reflexivity.
Qed.

Lemma moderate_posAbove x : moderate x -> posAbove (-52) x.
Proof. intros (m & e & -> & He & _). left; exists m, e; auto. Qed.

(** The square of the difference [0 - x] of zero and a positive number is
    positive. *)
Lemma square_of_opposite x :
  posAbove (-200) x ->
  posAbove (-400) (fsquare (fsub (S754_zero false) x)).
Proof.
  intros [(m & e & -> & He) | ->]; [|right; reflexivity].
  unfold fsquare, fsub, fmul. cbn [SFsub negb SFmul xorb].
  destruct (round_aux_positive false (m * m) (e + e))
    as [(m' & e' & -> & He') | ->].
  - pose proof (Pos2Z.is_pos (digits2_pos (m * m))). lia.
  - left; exists m', e'; split; [reflexivity | lia].
  - right; reflexivity.
Qed.

Lemma posAbove_positive b x : posAbove b x -> fltb (num 0) x = true.
Proof. intros [(m & e & -> & _) | ->]; reflexivity. Qed.

(** The between-class variance of a split with nothing but black below it
    is above zero. *)
Lemma between_black_positive wB wF sum :
  1 <= wB < 2 ^ 62 -> 1 <= wF < 2 ^ 62 -> 1 <= sum < 2 ^ 62 ->
  fltb (num 0) (between wB wF 0 sum) = true.
Proof.
  intros HB HF Hs. unfold between. rewrite Z.sub_0_r.
  pose proof (num_moderate wB HB) as MB.
  pose proof (num_moderate wF HF) as MF.
  pose proof (num_moderate sum Hs) as MS.
  assert (E0 : fdiv (num 0) (num wB) = S754_zero false).
  { destruct MB as (m & e & -> & _). reflexivity. }
  rewrite E0.
  apply (posAbove_positive (-52 + -52 + -400)).
  apply fmul_positive; [|apply square_of_opposite, fdiv_moderate; auto | lia].
  apply fmul_positive; [apply moderate_posAbove; auto.. | lia].
Qed.

(** ** Images in black and one other gray level *)

(** With the threshold 0 no cell of the mask is foreground. *)
Lemma binarize_zero gray i :
  bytes gray -> same (aget (binarize gray 0) i) 255 = false.
Proof.
  intros Hb. unfold aget, binarize. destruct (i <? 0); [reflexivity|].
  rewrite nth_error_map.
  destruct (nth_error gray (Z.to_nat i)) as [g|] eqn:E; [|reflexivity].
  apply nth_error_In in E. unfold bytes in Hb. rewrite Forall_forall in Hb.
  specialize (Hb g E). simpl.
  destruct (Z.ltb_spec g 0); [lia | reflexivity].
Qed.

Section TwoBins.

Variables (hist : list Z) (b : Z).
Hypothesis Hb : 0 < b.
Hypothesis Hother : forall v, v <> 0 -> v <> b -> bin hist v = 0.

Lemma two_bins_cumulative n :
  cumulative hist n
  = (if 0 <? Z.of_nat n then bin hist 0 else 0)
    + (if b <? Z.of_nat n then bin hist b else 0).
Proof.
  induction n as [|n IH]; [cbn [cumulative]; simpl;
                           destruct (Z.ltb_spec b 0); lia|].
  cbn [cumulative]. rewrite IH.
  destruct (Z.eq_dec (Z.of_nat n) 0) as [E0 | N0];
    [|destruct (Z.eq_dec (Z.of_nat n) b) as [Eb | Nb]].
  - rewrite E0.
    destruct (Z.ltb_spec 0 0), (Z.ltb_spec b 0),
      (Z.ltb_spec 0 (Z.of_nat (S n))), (Z.ltb_spec b (Z.of_nat (S n)));
      lia.
  - rewrite Eb.
    destruct (Z.ltb_spec 0 b), (Z.ltb_spec b b),
      (Z.ltb_spec 0 (Z.of_nat (S n))), (Z.ltb_spec b (Z.of_nat (S n)));
      lia.
  - rewrite (Hother _ N0 Nb).
    destruct (Z.ltb_spec 0 (Z.of_nat n)), (Z.ltb_spec b (Z.of_nat n)),
      (Z.ltb_spec 0 (Z.of_nat (S n))), (Z.ltb_spec b (Z.of_nat (S n)));
      lia.
Qed.

Lemma two_bins_sum n :
  cumulativeSum hist n = if b <? Z.of_nat n then b * bin hist b else 0.
Proof.
  induction n as [|n IH]; [cbn [cumulativeSum]; simpl;
                           destruct (Z.ltb_spec b 0); lia|].
  cbn [cumulativeSum]. rewrite IH.
  destruct (Z.eq_dec (Z.of_nat n) 0) as [E0 | N0];
    [|destruct (Z.eq_dec (Z.of_nat n) b) as [Eb | Nb]].
  - rewrite E0.
    destruct (Z.ltb_spec b 0), (Z.ltb_spec b (Z.of_nat (S n))); lia.
  - rewrite Eb.
    destruct (Z.ltb_spec b b), (Z.ltb_spec b (Z.of_nat (S n))); lia.
  - rewrite (Hother _ N0 Nb).
    destruct (Z.ltb_spec b (Z.of_nat n)), (Z.ltb_spec b (Z.of_nat (S n)));
      lia.
Qed.

(** With pixels in black and at one other level only, the scan of the
    histogram stops at the threshold 0. *)
Lemma two_bins_threshold total :
  counts hist -> total = cumulative hist 256 ->
  b < 256 -> 0 < bin hist 0 -> 0 < bin hist b -> total < 2 ^ 53 ->
  otsu hist total = 0.
Proof.
  intros Hc Ht Hb256 H0 Hbb Hbig.
  assert (Etotal : total = bin hist 0 + bin hist b).
  { rewrite Ht, two_bins_cumulative.
    destruct (Z.ltb_spec 0 (Z.of_nat 256)), (Z.ltb_spec b (Z.of_nat 256));
      lia. }
  assert (Ew : wBAt hist 0 = bin hist 0).
  { unfold wBAt. rewrite two_bins_cumulative. simpl Z.to_nat.
    destruct (Z.ltb_spec 0 (Z.of_nat 1)), (Z.ltb_spec b (Z.of_nat 1)); lia. }
  assert (Es : sumBAt hist 0 = 0).
  { unfold sumBAt. rewrite two_bins_sum. simpl Z.to_nat.
    destruct (Z.ltb_spec b (Z.of_nat 1)); lia. }
  assert (Esum : cumulativeSum hist 256 = b * bin hist b).
  { rewrite two_bins_sum. destruct (Z.ltb_spec b (Z.of_nat 256)); lia. }
  assert (Hvalid : validSplit hist total 0).
  { unfold validSplit. rewrite Ew. lia. }
  assert (Hpos : fltb (num 0) (betweenAt hist total 0) = true).
  { unfold betweenAt. rewrite Ew, Es, Esum.
    replace (total - bin hist 0) with (bin hist b) by lia.
    assert (H62 : 2 ^ 53 * 2 ^ 9 = 2 ^ 62) by reflexivity.
    assert (H53 : 0 < 2 ^ 53) by reflexivity.
    apply between_black_positive; try lia.
    split; [nia|]. rewrite <- H62. nia. }
  destruct (otsu_level hist total Hc Ht)
    as [[_ Hall] | (Hr & Hbt & j & Hj & Hbj)].
  - rewrite (Hall 0 Hvalid) in Hpos. discriminate.
  - destruct (Z.eq_dec (otsu hist total) 0) as [E | N0]; [exact E|].
    exfalso.
    destruct (Z.eq_dec (otsu hist total) b) as [Eb | Nb].
    + destruct (Z.eq_dec j 0) as [Ej | Nj]; [lia|].
      destruct (Z.eq_dec j b) as [Ejb | Njb]; [lia|].
      rewrite (Hother j Nj Njb) in Hbj. lia.
    + rewrite (Hother _ N0 Nb) in Hbt. lia.
Qed.

End TwoBins.

(** X24: an image whose pixels are black (gray value 0) or of one other
    gray value, with pixels of both kinds and fewer than [2 ^ 53] pixels in
    all, has no shape: the threshold is 0, the gray value of the black
    pixels, and no gray value is below it. *)
Theorem black_and_one_level hypot acos img world b :
  width img * height img < 2 ^ 53 ->
  0 < b ->
  In 0 (grayscale img) -> In b (grayscale img) ->
  (forall g, In g (grayscale img) -> g = 0 \/ g = b) ->
  otsu (histogram (grayscale img)) (width img * height img) = 0
  /\ exists res,
       fst (detectShapes hypot acos img world) = Returned res
       /\ shapes res = [].
Proof.
  intros Hbig Hb H0 Hbb Hall.
  pose proof (grayscale_bytes img) as Hbytes.
  assert (Hn : 0 < width img * height img).
  { pose proof (grayscale_length img) as Hl.
    destruct (grayscale img); [destruct H0|]. simpl in Hl. lia. }
  destruct (otsu_inputs img ltac:(lia)) as [Hc Ht].
  assert (Hb255 : b < 256).
  { unfold bytes in Hbytes. rewrite Forall_forall in Hbytes.
    specialize (Hbytes b Hbb). lia. }
  assert (Ethresh :
    otsu (histogram (grayscale img)) (width img * height img) = 0).
  { apply (two_bins_threshold (histogram (grayscale img)) b); auto.
    - intros v Hv0 Hvb. rewrite histogram_bin by exact Hbytes.
      assert (Hnot : ~ In v (grayscale img))
        by (intros Hin; destruct (Hall v Hin); contradiction).
      apply (count_occ_not_In Z.eq_dec) in Hnot. lia.
    - rewrite histogram_bin by exact Hbytes.
      apply (count_occ_In Z.eq_dec) in H0. lia.
    - rewrite histogram_bin by exact Hbytes.
      apply (count_occ_In Z.eq_dec) in Hbb. lia. }
  split; [exact Ethresh|].
  assert (Hd : detectRegions hypot acos img = Returned []).
  { rewrite detectRegions_scan. unfold maskOf. rewrite Ethresh.
    rewrite badLength_false by (unfold maxLength; lia).
    unfold scan. rewrite scanRows_background; [reflexivity|].
    intros i. apply binarize_zero; exact Hbytes. }
  rewrite detectShapes_unfold, Hd. eexists; split; reflexivity.
Qed.

Lemma black_and_one_level_witness :
  otsu (histogram (grayscale blackAndWhite)) 2 = 0
  /\ exists res,
       fst (detectShapes sampleHypot sampleAcos blackAndWhite sampleWorld)
         = Returned res
       /\ shapes res = [].
Proof.
  apply (black_and_one_level sampleHypot sampleAcos blackAndWhite sampleWorld
           255).
  - reflexivity.
  - reflexivity.
  - vm_compute; left; reflexivity.
  - vm_compute; right; left; reflexivity.
  - intros g Hg. vm_compute in Hg.
    destruct Hg as [<- | [<- | []]]; [left | right]; reflexivity.
Defined.

(** ** The numbers that the classification compares *)

(** The product of two positive finite numbers is finite, as long as their
    sizes keep it within the normal range. *)
Lemma fmul_finite m1 e1 m2 e2 :
  -1021 <= e1 + e2 ->
  e1 + Zpos (digits2_pos m1) + (e2 + Zpos (digits2_pos m2)) <= 900 ->
  exists m e,
    fmul (S754_finite false m1 e1) (S754_finite false m2 e2)
    = S754_finite false m e.
Proof.
  intros Hlo Hhi. unfold fmul. cbn [SFmul xorb].
  pose proof (digits_bounds m1) as [L1 U1].
  pose proof (digits_bounds m2) as [L2 U2].
  pose proof (digits_bounds (m1 * m2)) as [L U].
  assert (Hprod : Zpos (m1 * m2)
                  < 2 ^ (Zpos (digits2_pos m1) + Zpos (digits2_pos m2))).
  { rewrite Z.pow_add_r by lia. rewrite Pos2Z.inj_mul. nia. }
  assert (Hd : Zpos (digits2_pos (m1 * m2))
               <= Zpos (digits2_pos m1) + Zpos (digits2_pos m2)).
  { assert (H1 : 2 ^ (Zpos (digits2_pos (m1 * m2)) - 1)
                 < 2 ^ (Zpos (digits2_pos m1) + Zpos (digits2_pos m2)))
      by lia.
    apply pow2_lt_exp in H1; lia. }
  pose proof (Pos2Z.is_pos (digits2_pos (m1 * m2))).
  pose proof (Pos2Z.is_pos (digits2_pos m1)).
  pose proof (Pos2Z.is_pos (digits2_pos m2)).
  destruct (round_aux_error false (m1 * m2) (e1 + e2))
    as (m & e & -> & _); [lia | lia | eauto].
Qed.

(** The circularity of a region with an area and a perimeter of moderate
    size is a number. *)
Lemma circularity_not_nan area perimeter :
  1 <= area < 2 ^ 62 -> 1 <= perimeter < 2 ^ 62 ->
  is_nan (circularityOf area perimeter) = false.
Proof.
  intros Ha Hp. unfold circularityOf.
  assert (E : fmul (num 4) PI = S754_finite false 7074237752028440 (-49))
    by (vm_compute; reflexivity).
  rewrite E.
  destruct (num_moderate area Ha) as (ma & ea & -> & Hea & Hda).
  destruct (num_moderate perimeter Hp) as (mp & ep & -> & Hep & Hdp).
  destruct (fmul_finite 7074237752028440 (-49) ma ea) as (m1 & e1 & ->);
    [lia | change (Zpos (digits2_pos 7074237752028440)) with 53; lia |].
  destruct (fmul_finite mp ep mp ep) as (m2 & e2 & ->); [lia | lia |].
  apply fdiv_finite_not_nan.
Qed.

(** X25: in an image of fewer than [2 ^ 53] pixels, the circularity and
    the fill ratio that the classification compares are numbers, never NaN,
    for every returned region: the perimeter that the circularity divides by
    is at least 1, and the fill ratio is above zero. *)
Theorem classification_inputs_are_numbers hypot acos img rs r :
  width img * height img < 2 ^ 53 ->
  detectRegions hypot acos img = Returned rs -> In r rs ->
  is_nan (r_circularity r) = false
  /\ is_nan (r_fillRatio r) = false
  /\ fltb (num 0) (r_fillRatio r) = true.
Proof.
  intros Hbig E Hr.
  destruct (detectRegions_facts hypot acos img rs r E Hr) as [Hn F].
  pose proof (reg_component _ _ _ _ F) as C.
  destruct (reg_size _ _ _ _ F) as [Ew Eh].
  pose proof (reg_box _ _ _ _ F _ (cmp_first _ _ _ _ C)) as Hb.
  pose proof (reg_bounds _ _ _ _ F) as Hbd.
  assert (Harea : 50 <= r_area r).
  { apply (tooSmall_false (width img) (height img)); auto.
    - rewrite (reg_area _ _ _ _ F); lia.
    - exact (reg_large _ _ _ _ F). }
  assert (Hbox : r_area r <= r_w r * r_h r).
  { rewrite Ew, Eh, (reg_area _ _ _ _ F). apply box_count.
    - exact (cmp_nodup _ _ _ _ C).
    - exact (reg_box _ _ _ _ F).
    - intros E0. pose proof (cmp_first _ _ _ _ C) as Hf.
      rewrite E0 in Hf; destruct Hf. }
  assert (Hwh : r_w r * r_h r <= width img * height img).
  { rewrite Ew, Eh. nia. }
  assert (Hper : 1 <= r_perimeter r <= r_area r).
  { split; [exact (reg_border _ _ _ _ F)|].
    rewrite (reg_perimeter _ _ _ _ F), (reg_edges _ _ _ _ F),
      (reg_area _ _ _ _ F).
    pose proof (filter_length_le
                  (isBorder (width img) (height img) (maskOf img))
                  (r_pixels r)).
    lia. }
  assert (H62 : 2 ^ 53 < 2 ^ 62) by reflexivity.
  rewrite (reg_circularity _ _ _ _ F), (reg_fillRatio _ _ _ _ F).
  split; [apply circularity_not_nan; lia|].
  assert (Hratio : posAbove (-200)
                     (fdiv (num (r_area r)) (num (r_w r * r_h r))))
    by (apply fdiv_moderate; apply num_moderate; lia).
  split; [|exact (posAbove_positive _ _ Hratio)].
  destruct Hratio as [(m & e & -> & _) | ->]; reflexivity.
Qed.

Lemma classification_inputs_are_numbers_witness :
  exists rs r,
    detectRegions sampleHypot sampleAcos darkStrip = Returned rs
    /\ In r rs
    /\ is_nan (r_circularity r) = false
    /\ is_nan (r_fillRatio r) = false
    /\ fltb (num 0) (r_fillRatio r) = true.
Proof.
  eexists; eexists.
  eassert (E : detectRegions sampleHypot sampleAcos darkStrip = Returned _)
    by (vm_compute; reflexivity).
  split; [exact E|]. split; [left; reflexivity|].
  eapply (classification_inputs_are_numbers sampleHypot sampleAcos darkStrip);
    [reflexivity | exact E | left; reflexivity].
Defined.


(** ** The classification of a region *)

Section Classification.

Variable hypot : f64 -> f64 -> f64.
Variable acos : f64 -> f64.

(** The corner count and the type of a region are those of its edge
    pixels. *)
Lemma detectRegions_classified img rs r :
  detectRegions hypot acos img = Returned rs -> In r rs ->
  r_corners r = countCorners hypot acos (r_edges r)
  /\ r_type r = classify (r_corners r) (r_circularity r) (r_fillRatio r).
Proof.
  intros E Hr.
  pose proof (detectRegions_Forall hypot acos
                (fun r => r_corners r = countCorners hypot acos (r_edges r)
                          /\ r_type r = classify (r_corners r)
                                          (r_circularity r) (r_fillRatio r))
                img rs) as Hall.
  rewrite Forall_forall in Hall. apply Hall; [|exact E|exact Hr].
  intros W H binary st. split; reflexivity.
Qed.

(** C4: the type of every accepted region follows the first-match rule
    on the corner count, the circularity and the fill ratio computed from
    the region: the corners are counted along its border pixels, in the
    order of its pixels; the circularity is that of its area and of the
    number of its border pixels; the fill ratio divides its area by the
    area of its bounding box.  At most 3 corners give a triangle; 4 or 5
    give a rectangle when the circularity exceeds 0.70 and a pentagon
    otherwise; more than 7 give a star when the fill ratio is below 0.55
    and the circularity below 0.6, and a circle otherwise; exactly 6 or 7
    give a circle. *)
Theorem classification_rule img rs r :
  detectRegions hypot acos img = Returned rs ->
  In r rs ->
  let s := toShape r in
  let edges :=
    filter (isBorder (width img) (height img) (maskOf img)) (r_pixels r) in
  let c := countCorners hypot acos edges in
  let circ := circularityOf (area s) (Z.of_nat (length edges)) in
  let fill :=
    fdiv (num (area s))
         (num (bb_width (boundingBox s) * bb_height (boundingBox s))) in
  (r_corners r = c /\ r_circularity r = circ /\ r_fillRatio r = fill)
  /\ (c <= 3 -> type s = triangle)
  /\ (4 <= c <= 5 ->
      type s = if fltb (lit 70 100) circ then rectangle else pentagon)
  /\ (7 < c ->
      type s =
        if fltb fill (lit 55 100) && fltb circ (lit 6 10) then star
        else circle)
  /\ (c = 6 \/ c = 7 -> type s = circle).
Proof.
  intros E Hr.
  destruct (detectRegions_facts hypot acos img rs r E Hr) as [_ F].
  destruct (detectRegions_classified img rs r E Hr) as [Hc Ht].
  cbv zeta. cbn [toShape type area boundingBox bb_width bb_height].
  rewrite <- (reg_edges _ _ _ _ F), <- (reg_perimeter _ _ _ _ F),
    <- (reg_circularity _ _ _ _ F), <- (reg_fillRatio _ _ _ _ F), <- Hc.
  split; [repeat split|].
  rewrite Ht. apply classify_table.
Qed.

End Classification.

(** The five types on drawings: a strip, a cross, and combs with more and
    more teeth. *)
Ltac classified img rule :=
  let E := fresh "E" in
  eexists;
  eassert (E : detectRegions sampleHypot sampleAcos img = Returned [_])
    by (vm_compute; reflexivity);
  split; [exact E|];
  match goal with
  | |- r_corners ?r = _ /\ _ =>
      let T := fresh "T" in
      pose proof (rule img [r] r E (or_introl eq_refl)) as T;
      cbv zeta in T;
      destruct T as ((Hc & Hcirc & Hfill) & T3 & T5 & T8 & T7);
      split; [vm_compute; reflexivity|]
  end.

Lemma classification_rule_witness :
  (exists r,
     detectRegions sampleHypot sampleAcos darkStrip = Returned [r]
     /\ r_corners r = 1 /\ type (toShape r) = triangle)
  /\ (exists r,
        detectRegions sampleHypot sampleAcos (drawn 13 13 cross)
          = Returned [r]
        /\ r_corners r = 4 /\ type (toShape r) = rectangle)
  /\ (exists r,
        detectRegions sampleHypot sampleAcos (drawn 14 9 (comb 2 12 5))
          = Returned [r]
        /\ r_corners r = 5 /\ type (toShape r) = pentagon)
  /\ (exists r,
        detectRegions sampleHypot sampleAcos (drawn 16 8 (comb 2 14 4))
          = Returned [r]
        /\ r_corners r = 6 /\ type (toShape r) = circle)
  /\ (exists r,
        detectRegions sampleHypot sampleAcos (drawn 20 7 (comb 2 18 3))
          = Returned [r]
        /\ r_corners r = 8 /\ type (toShape r) = circle)
  /\ (exists r,
        detectRegions sampleHypot sampleAcos (drawn 15 10 (comb 3 13 6))
          = Returned [r]
        /\ r_corners r = 8 /\ type (toShape r) = star).
Proof.
  split; [|split; [|split; [|split; [|split]]]].
  - classified darkStrip
      (classification_rule sampleHypot sampleAcos).
    apply T3. rewrite <- Hc. vm_compute; discriminate.
  - classified (drawn 13 13 cross)
      (classification_rule sampleHypot sampleAcos).
    rewrite T5 by (rewrite <- Hc; vm_compute; split; discriminate).
    rewrite <- Hcirc. vm_compute; reflexivity.
  - classified (drawn 14 9 (comb 2 12 5))
      (classification_rule sampleHypot sampleAcos).
    rewrite T5 by (rewrite <- Hc; vm_compute; split; discriminate).
    rewrite <- Hcirc. vm_compute; reflexivity.
  - classified (drawn 16 8 (comb 2 14 4))
      (classification_rule sampleHypot sampleAcos).
    apply T7. left. rewrite <- Hc. vm_compute; reflexivity.
  - classified (drawn 20 7 (comb 2 18 3))
      (classification_rule sampleHypot sampleAcos).
    rewrite T8 by (rewrite <- Hc; vm_compute; reflexivity).
    rewrite <- Hcirc, <- Hfill. vm_compute; reflexivity.
  - classified (drawn 15 10 (comb 3 13 6))
      (classification_rule sampleHypot sampleAcos).
    rewrite T8 by (rewrite <- Hc; vm_compute; reflexivity).
    rewrite <- Hcirc, <- Hfill. vm_compute; reflexivity.
Defined.

(** ** The guard of the circularity *)

Section Guard.

Variable hypot : f64 -> f64 -> f64.
Variable acos : f64 -> f64.

(** The sizes of a returned region: at least 50 pixels, no more than its
    bounding box holds, which is no larger than the image; and at least
    one border pixel, at most as many as pixels. *)
Lemma region_sizes img rs r :
  detectRegions hypot acos img = Returned rs -> In r rs ->
  50 <= r_area r <= r_w r * r_h r
  /\ r_w r * r_h r <= width img * height img <= maxLength
  /\ 1 <= r_perimeter r <= r_area r.
Proof.
  intros E Hr.
  destruct (detectRegions_facts hypot acos img rs r E Hr) as [Hn F].
  pose proof (detectRegions_size hypot acos img rs E) as Hfit.
  pose proof (reg_component _ _ _ _ F) as C.
  destruct (reg_size _ _ _ _ F) as [Ew Eh].
  pose proof (reg_box _ _ _ _ F _ (cmp_first _ _ _ _ C)) as Hb.
  pose proof (reg_bounds _ _ _ _ F) as Hbd.
  split; [split|split; [split|split]].
  - apply (tooSmall_false (width img) (height img)); auto.
    + rewrite (reg_area _ _ _ _ F); lia.
    + exact (reg_large _ _ _ _ F).
  - rewrite Ew, Eh, (reg_area _ _ _ _ F). apply box_count.
    + exact (cmp_nodup _ _ _ _ C).
    + exact (reg_box _ _ _ _ F).
    + intros E0. pose proof (cmp_first _ _ _ _ C) as Hf.
      rewrite E0 in Hf; destruct Hf.
  - rewrite Ew, Eh. nia.
  - apply Hfit.
  - exact (reg_border _ _ _ _ F).
  - rewrite (reg_perimeter _ _ _ _ F), (reg_edges _ _ _ _ F),
      (reg_area _ _ _ _ F).
    pose proof (filter_length_le
                  (isBorder (width img) (height img) (maskOf img))
                  (r_pixels r)).
    lia.
Qed.

(** C6: [main.ts] divides by [perimeter * perimeter] without a test, and
    yet every run is that of the guarded division.  For every region that
    is classified, the number of border pixels is not zero; the
    circularity is the one that the guarded division gives, for which a
    perimeter of zero would count as a circularity of 0; the type is the
    one that the rule gives for it; and the circularity and the fill
    ratio that the rule compares are numbers, not NaN. *)
Theorem circularity_as_guarded img rs r :
  detectRegions hypot acos img = Returned rs -> In r rs ->
  let s := toShape r in
  let edges :=
    filter (isBorder (width img) (height img) (maskOf img)) (r_pixels r) in
  let perimeter := Z.of_nat (length edges) in
  let circ := guardedCircularity (area s) perimeter in
  perimeter <> 0
  /\ r_circularity r = circ
  /\ type s = classify (countCorners hypot acos edges) circ (r_fillRatio r)
  /\ is_nan circ = false
  /\ is_nan (r_fillRatio r) = false.
Proof.
  intros E Hr.
  destruct (detectRegions_facts hypot acos img rs r E Hr) as [_ F].
  destruct (detectRegions_classified hypot acos img rs r E Hr) as [Hc Ht].
  destruct (region_sizes img rs r E Hr) as (Ha & Hb & Hp).
  cbv zeta. cbn [toShape type area].
  rewrite <- (reg_edges _ _ _ _ F), <- (reg_perimeter _ _ _ _ F).
  assert (Hg : guardedCircularity (r_area r) (r_perimeter r)
               = r_circularity r).
  { unfold guardedCircularity.
    destruct (Z.eqb_spec (r_perimeter r) 0); [lia|].
    symmetry; exact (reg_circularity _ _ _ _ F). }
  rewrite Hg, <- Hc.
  split; [lia|]. split; [reflexivity|]. split; [exact Ht|].
  assert (H62 : maxLength < 2 ^ 62) by reflexivity.
  rewrite (reg_circularity _ _ _ _ F), (reg_fillRatio _ _ _ _ F).
  split; [apply circularity_not_nan; lia|].
  assert (Hratio : posAbove (-200)
                     (fdiv (num (r_area r)) (num (r_w r * r_h r))))
    by (apply fdiv_moderate; apply num_moderate; lia).
  destruct Hratio as [(m & e & -> & _) | ->]; reflexivity.
Qed.

End Guard.

Lemma circularity_as_guarded_witness :
  exists r,
    detectRegions sampleHypot sampleAcos (drawn 13 13 cross) = Returned [r]
    /\ r_perimeter r = 36
    /\ is_nan (r_circularity r) = false
    /\ let edges := filter (isBorder 13 13 (maskOf (drawn 13 13 cross)))
                           (r_pixels r) in
       let circ := guardedCircularity (r_area r) (Z.of_nat (length edges)) in
       Z.of_nat (length edges) <> 0
       /\ r_circularity r = circ
       /\ r_type r = classify (countCorners sampleHypot sampleAcos edges)
                              circ (r_fillRatio r)
       /\ is_nan circ = false
       /\ is_nan (r_fillRatio r) = false.
Proof.
  eexists.
  eassert (E : detectRegions sampleHypot sampleAcos (drawn 13 13 cross)
               = Returned [_]) by (vm_compute; reflexivity).
  split; [exact E|]. split; [vm_compute; reflexivity|].
  split; [vm_compute; reflexivity|].
  exact (circularity_as_guarded sampleHypot sampleAcos (drawn 13 13 cross)
           _ _ E (or_introl eq_refl)).
Defined.

(** ** What a result depends on *)

Section TwoEnvironments.

Variables (hypot1 hypot2 : f64 -> f64 -> f64) (acos1 acos2 : f64 -> f64).

(** A relation that holds between the two measurements of one fill. *)
Variable R : Region -> Region -> Prop.

Hypothesis measure_related :
  forall W H binary st,
    R (measure hypot1 acos1 W H binary st) (measure hypot2 acos2 W H binary st).

Section OneMask.

Variables (W H : Z) (binary : list Z).

Lemma floodFill_related vis sx sy :
  optionRelated
    (fun a b => fst a = fst b /\ optionRelated R (snd a) (snd b))
    (floodFill hypot1 acos1 W H binary vis sx sy)
    (floodFill hypot2 acos2 W H binary vis sx sy).
Proof.
  unfold floodFill.
  destruct (fillLoop W H binary (fillBudget vis) (fillStart vis sx sy))
    as [st|]; cbn [optionRelated fst snd]; auto.
  split; [reflexivity|].
  destruct (tooSmall W H (Z.of_nat (length (pixels st))));
    cbn [optionRelated]; auto.
Qed.

Lemma scanRow_related n : forall x y s1 s2,
  scanRelated R s1 s2 ->
  optionRelated (scanRelated R)
    (scanRow hypot1 acos1 W H binary n x y s1)
    (scanRow hypot2 acos2 W H binary n x y s2).
Proof.
  induction n as [|n IH]; intros x y s1 s2 Hs; cbn [scanRow].
  - exact Hs.
  - destruct Hs as [Hv Hf]. rewrite <- Hv.
    destruct (same (aget binary (getIndex W x y)) 255
              && negb (truthy (aget (sc_visited s1) (getIndex W x y))));
      [|apply IH; split; assumption].
    pose proof (floodFill_related (sc_visited s1) x y) as HF.
    destruct (floodFill hypot1 acos1 W H binary (sc_visited s1) x y)
      as [[v1 sh1]|],
      (floodFill hypot2 acos2 W H binary (sc_visited s1) x y)
      as [[v2 sh2]|]; cbn [optionRelated fst snd] in HF |- *;
      try contradiction; auto.
    destruct HF as [<- Hsh]. apply IH. split; [reflexivity|].
    cbn [afterFill sc_found].
    destruct sh1 as [r1|], sh2 as [r2|]; cbn [optionRelated] in Hsh;
      try contradiction; auto.
    apply Forall2_app; auto.
Qed.

Lemma scanRows_related n : forall y s1 s2,
  scanRelated R s1 s2 ->
  optionRelated (scanRelated R)
    (scanRows hypot1 acos1 W H binary n y s1)
    (scanRows hypot2 acos2 W H binary n y s2).
Proof.
  induction n as [|n IH]; intros y s1 s2 Hs; cbn [scanRows].
  - exact Hs.
  - pose proof (scanRow_related (Z.to_nat W) 0 y s1 s2 Hs) as HR.
    destruct (scanRow hypot1 acos1 W H binary (Z.to_nat W) 0 y s1) as [t1|],
      (scanRow hypot2 acos2 W H binary (Z.to_nat W) 0 y s2) as [t2|];
      cbn [optionRelated] in HR |- *; try contradiction; auto.
Qed.

End OneMask.

Lemma detectRegions_related img :
  regionsRelated R (detectRegions hypot1 acos1 img)
                   (detectRegions hypot2 acos2 img).
Proof.
  unfold detectRegions, regionsOf, scan.
  destruct (badLength (width img * height img)); [reflexivity|].
  set (W := width img). set (H := height img).
  set (binary := binarize _ _).
  pose proof (scanRows_related W H binary (Z.to_nat H) 0
                {| sc_visited := repeat 0 (Z.to_nat (W * H)); sc_found := [] |}
                {| sc_visited := repeat 0 (Z.to_nat (W * H)); sc_found := [] |})
    as HR.
  destruct (scanRows hypot1 acos1 W H binary (Z.to_nat H) 0 _) as [t1|],
    (scanRows hypot2 acos2 W H binary (Z.to_nat H) 0 _) as [t2|];
    cbn [optionRelated regionsRelated] in HR |- *.
  - apply HR. split; [reflexivity | constructor].
  - apply HR. split; [reflexivity | constructor].
  - apply HR. split; [reflexivity | constructor].
  - exact I.
Qed.

End TwoEnvironments.

(** The corner loop uses [Math.hypot] and [Math.acos] through the values
    that they return. *)
Lemma cornerLoop_values hypot1 hypot2 acos1 acos2 :
  (forall x y, hypot1 x y = hypot2 x y) ->
  (forall x, acos1 x = acos2 x) ->
  forall fuel i edges step c,
    cornerLoop hypot1 acos1 fuel i edges step c
    = cornerLoop hypot2 acos2 fuel i edges step c.
Proof.
  intros Hh Ha fuel. induction fuel as [|fuel IH]; intros i edges step c;
    cbn [cornerLoop]; [reflexivity|].
  destruct (i <? Z.of_nat (length edges)); [|reflexivity].
  destruct (edgeAt edges i) as [x1 y1].
  destruct (edgeAt edges ((i + step) mod Z.of_nat (length edges))) as [x2 y2].
  destruct (edgeAt edges ((i + 2 * step) mod Z.of_nat (length edges)))
    as [x3 y3].
  cbv zeta. rewrite !Hh, !Ha, !IH. reflexivity.
Qed.

Lemma measure_values hypot1 hypot2 acos1 acos2 W H binary st :
  (forall x y, hypot1 x y = hypot2 x y) ->
  (forall x, acos1 x = acos2 x) ->
  measure hypot1 acos1 W H binary st = measure hypot2 acos2 W H binary st.
Proof.
  intros Hh Ha. unfold measure, countCorners.
  rewrite (cornerLoop_values hypot1 hypot2 acos1 acos2 Hh Ha). reflexivity.
Qed.

Lemma Forall2_eq (A : Type) (l1 l2 : list A) : Forall2 eq l1 l2 -> l1 = l2.
Proof. induction 1; congruence. Qed.

Lemma Forall2_map (A B : Type) (R : A -> A -> Prop) (S : B -> B -> Prop)
  (f : A -> B) l1 l2 :
  (forall a b, R a b -> S (f a) (f b)) ->
  Forall2 R l1 l2 -> Forall2 S (map f l1) (map f l2).
Proof. intros HRS; induction 1; cbn [map]; constructor; auto. Qed.

(** Bounding box, centre, area and confidence of a measurement are those
    of the fill. *)
Lemma measure_outline hypot1 hypot2 acos1 acos2 W H binary st :
  sameGeometry (toShape (measure hypot1 acos1 W H binary st))
               (toShape (measure hypot2 acos2 W H binary st)).
Proof.
  unfold sameGeometry, toShape, measure.
  cbn [boundingBox center area confidence
       r_minX r_minY r_w r_h r_cx r_cy r_area].
  repeat split.
Qed.

(** C7 (amended): [processingTime] apart, what a call returns does not
    depend on the clock, and it depends on [Math.hypot] and [Math.acos]
    in the types of the shapes alone.  Two runs on the same buffer, at
    whatever times and with whatever implementations of the two
    functions, end the same way and return as many shapes, with the same
    bounding boxes, centres, areas and confidences, in the same order;
    when the two functions return the same values in both runs, the
    shapes are the same, types included.  So it is for two calls in a
    row, the second of which finds the clock as the first left it. *)
Theorem detectShapes_deterministic
  hypot1 hypot2 acos1 acos2 img world1 world2 :
  sameOutline (fst (detectShapes hypot1 acos1 img world1))
              (fst (detectShapes hypot2 acos2 img world2))
  /\ ((forall x y, hypot1 x y = hypot2 x y) ->
      (forall x, acos1 x = acos2 x) ->
      sameDetection (fst (detectShapes hypot1 acos1 img world1))
                    (fst (detectShapes hypot2 acos2 img world2)))
  /\ (forall first second world,
        twice hypot1 acos1 img world1 = (first, second, world) ->
        sameDetection first second).
Proof.
  assert (Hsame :
    (forall x y, hypot1 x y = hypot2 x y) ->
    (forall x, acos1 x = acos2 x) ->
    forall w1 w2,
      sameDetection (fst (detectShapes hypot1 acos1 img w1))
                    (fst (detectShapes hypot2 acos2 img w2))).
  { intros Hh Ha w1 w2. rewrite !detectShapes_unfold.
    pose proof (detectRegions_related hypot1 hypot2 acos1 acos2 eq
                  (fun W H binary st =>
                     measure_values hypot1 hypot2 acos1 acos2 W H binary st
                       Hh Ha)
                  img) as HR.
    destruct (detectRegions hypot1 acos1 img) as [rs1|e1|],
      (detectRegions hypot2 acos2 img) as [rs2|e2|];
      cbn [regionsRelated] in HR; try contradiction;
      cbn [fst sameDetection shapes imageWidth imageHeight]; auto.
    rewrite (Forall2_eq _ _ _ HR). repeat split. }
  split; [|split].
  - rewrite !detectShapes_unfold.
    pose proof (detectRegions_related hypot1 hypot2 acos1 acos2
                  (fun r1 r2 => sameGeometry (toShape r1) (toShape r2))
                  (measure_outline hypot1 hypot2 acos1 acos2) img) as HR.
    destruct (detectRegions hypot1 acos1 img) as [rs1|e1|],
      (detectRegions hypot2 acos2 img) as [rs2|e2|];
      cbn [regionsRelated] in HR; try contradiction;
      cbn [fst sameOutline shapes imageWidth imageHeight]; auto.
    split; [|split; reflexivity].
    apply (Forall2_map _ _ _ _ toShape rs1 rs2 (fun a b Hab => Hab) HR).
  - intros Hh Ha. apply Hsame; assumption.
  - intros first second world. unfold twice.
    pose proof (detectRegions_related hypot1 hypot1 acos1 acos1 eq
                  (fun W H binary st => eq_refl) img) as HR.
    destruct (detectShapes hypot1 acos1 img world1) as [o1 w1] eqn:E1.
    destruct (detectShapes hypot1 acos1 img w1) as [o2 w2] eqn:E2.
    intros [= <- <- <-].
    rewrite detectShapes_unfold in E1, E2.
    destruct (detectRegions hypot1 acos1 img) as [rs|e|];
      injection E1 as <- <-; injection E2 as <- <-;
      cbn [sameDetection shapes imageWidth imageHeight]; auto.
Qed.

(** Two calls in a row on the dark strip: one shape each time, the same
    one. *)
Lemma detectShapes_deterministic_witness :
  (exists r1 r2,
     fst (twice sampleHypot sampleAcos darkStrip sampleWorld)
       = (Returned r1, Returned r2)
     /\ length (shapes r1) = 1%nat)
  /\ sameDetection
       (fst (fst (twice sampleHypot sampleAcos darkStrip sampleWorld)))
       (snd (fst (twice sampleHypot sampleAcos darkStrip sampleWorld))).
Proof.
  split.
  - eexists; eexists. split; [vm_compute; reflexivity | reflexivity].
  - destruct (twice sampleHypot sampleAcos darkStrip sampleWorld)
      as [[first second] world] eqn:E.
    exact (proj2 (proj2 (detectShapes_deterministic sampleHypot sampleHypot
                           sampleAcos sampleAcos darkStrip sampleWorld
                           sampleWorld)) first second world E).
Defined.

(** ** The display name, with and without an extension *)

(** A code unit other than the separators and the space is matched before
    the replacement if and only if it is matched after it. *)
Lemma separator_eqb c l :
  l <> underscore -> l <> hyphen -> l <> space ->
  ((if (c =? underscore) || (c =? hyphen) then space else c) =? l) = (c =? l).
Proof.
  intros Hu Hh Hs.
  destruct (Z.eqb_spec c underscore) as [->|Hcu]; cbn [orb].
  - destruct (Z.eqb_spec space l), (Z.eqb_spec underscore l); congruence.
  - destruct (Z.eqb_spec c hyphen) as [->|Hch]; [|reflexivity].
    destruct (Z.eqb_spec space l), (Z.eqb_spec hyphen l); congruence.
Qed.

Lemma isExtension_replaced t :
  isExtension (replaceSeparators t) = isExtension t.
Proof.
  destruct t as [|d [|a [|b [|c [|x t]]]]]; try reflexivity.
  unfold replaceSeparators. cbn [map isExtension]. unfold isLetter.
  rewrite !separator_eqb by (unfold underscore, hyphen, space, dot; lia).
  reflexivity.
Qed.

(** The display name, by the last four code units of the name. *)
Lemma displayName_cases name :
  displayName name =
    if isExtension (skipn (length name - 4) name)
    then replaceSeparators (firstn (length name - 4) name)
    else replaceSeparators name.
Proof.
  unfold displayName, stripExtension.
  assert (El : length (replaceSeparators name) = length name)
    by apply length_map.
  rewrite El. unfold replaceSeparators at 1.
  rewrite skipn_map.
  change (map _ (skipn (length name - 4) name))
    with (replaceSeparators (skipn (length name - 4) name)).
  rewrite isExtension_replaced.
  destruct (isExtension (skipn (length name - 4) name)); [|reflexivity].
  unfold replaceSeparators. apply firstn_map.
Qed.

(** The last four code units of a name are its extension, if it has
    one. *)
Lemma hasExtension_last name :
  hasExtension name <-> isExtension (skipn (length name - 4) name) = true.
Proof.
  split.
  - intros (base & e & -> & He).
    pose proof (isExtension_length e He) as Hl.
    rewrite length_app, Hl.
    replace (length base + 4 - 4)%nat with (length base + 0)%nat by lia.
    rewrite skipn_app, Nat.add_0_r, skipn_all, Nat.sub_diag. exact He.
  - intros He. exists (firstn (length name - 4) name),
                      (skipn (length name - 4) name).
    split; [symmetry; apply firstn_skipn | exact He].
Qed.

(** X21: the display name of a test image holds no underscore and no
    hyphen.  When the name ends in a dot and [svg] or [png], in whatever
    letter case, the display name is the name less its last four code
    units, with every underscore and hyphen replaced by a space, and is
    four code units shorter; when the name does not end so, nothing is
    removed: the display name is the whole name with every underscore and
    hyphen replaced by a space. *)
Theorem displayName_shape name :
  (forall c, In c (displayName name) -> c <> underscore /\ c <> hyphen)
  /\ (hasExtension name ->
      displayName name = replaceSeparators (firstn (length name - 4) name)
      /\ (length (displayName name) + 4 = length name)%nat)
  /\ (~ hasExtension name ->
      displayName name = replaceSeparators name
      /\ length (displayName name) = length name).
Proof.
  rewrite displayName_cases, hasExtension_last.
  destruct (isExtension (skipn (length name - 4) name)) eqn:E.
  - split; [apply replaceSeparators_clean|].
    split; [|intros Hn; destruct Hn; reflexivity].
    intros _. split; [reflexivity|].
    pose proof (isExtension_length _ E) as Hl. rewrite length_skipn in Hl.
    unfold replaceSeparators. rewrite length_map, length_firstn. lia.
  - split; [apply replaceSeparators_clean|].
    split; [discriminate|].
    intros _. split; [reflexivity | apply length_map].
Qed.

(** The name [my_test-image.SVG] loses its extension; the name [my_test],
    which has none, loses nothing. *)
Lemma displayName_shape_witness :
  displayName sampleName
    = replaceSeparators (firstn (length sampleName - 4) sampleName)
  /\ displayName (firstn 7 sampleName)
     = replaceSeparators (firstn 7 sampleName).
Proof.
  split.
  - apply (displayName_shape sampleName).
    exists (firstn 13 sampleName), (skipn 13 sampleName).
    split; reflexivity.
  - apply (displayName_shape (firstn 7 sampleName)).
    intros H. apply hasExtension_last in H. discriminate H.
Defined.

(** ** The error of a division *)










Lemma nonneg_positive b x : nonneg b x -> 0 < val x -> posAbove b x.
Proof.
  intros [-> | (m & e & -> & He)] Hv; [cbn [val] in Hv; lia|].
  left; exists m, e; split; [reflexivity | exact He].
Qed.


(** ** The variance of the first split *)

Section FirstSplit.

Variables (hist : list Z) (total : Z).
Hypothesis Hcounts : counts hist.
Hypothesis Htotal : total = cumulative hist 256.







End FirstSplit.

(** ** The variances are numbers *)










(** ** The threshold of the Otsu stage *)

Section Maximum.

Variables (hist : list Z) (total : Z).
Hypothesis Hcounts : counts hist.
Hypothesis Htotal : total = cumulative hist 256.
Hypothesis Hfit : total <= maxLength.



End Maximum.


